(** * metargs: configuration-backed argument parsing

    A shallow embedding of [metargs/__init__.py] (the [Option] class and
    the [ConfigBackedArgumentParser] class) together with the properties
    of the option-resolution model that the specification states.

    Conventions of the embedding:
    - Python byte strings are [string]; Python lists are [list].
    - Python values that an option may carry ([default], [const], the
      members of [choices], the results of a coercion) are [PyVal].
      [bool] is a subtype of [int] in Python, so [True]/[False] are the
      integers 1/0; floating point values are not represented.
    - Code that may raise returns [Result]; [Err e] is the exception that
      propagates.
    - Callables are objects compared by identity: a callable is
      represented by its identity (a [nat]) and its behaviour is looked up
      in an environment [call].  *)

From Stdlib Require Import ZArith String Ascii List Bool Lia.
From stdpp Require Import base option list gmap strings.

Local Open Scope string_scope.
Local Open Scope list_scope.

(** ** Exceptions and the error monad *)

(** Python values. *)
#[warnings="-register-all"]
Inductive PyVal : Type :=
| VNone
| VInt (z : Z)
| VStr (s : string)
| VList (l : list PyVal).

(** The value of [nargs] when it is not [None]: an integer or a string
    (['+'], ['*'], ...). *)
Inductive NargsVal : Type :=
| NInt (n : Z)
| NStr (s : string).

(** The value of [type] when it is not [None]. *)
Inductive TypeVal : Type :=
| Callable (f : nat)
| NotCallable (v : PyVal).

(** The four [ConfigArgumentError]s of the module, with the arguments of
    their format strings. *)
Inductive ConfigErr : Type :=
| TypeNotCallable (formatted_names : string)
| InvalidChoice (value : PyVal) (choices : list PyVal)
| AtLeastOneValue (section name : string)
| ExactlyNValues (nargs : NargsVal) (section name : string).

Inductive Exn : Type :=
| ConfigArgumentError (e : ConfigErr)
| MissingConfigArgumentError (msg : string)
| ValueError (msg : string)
| TypeError (msg : string)
| IndexError
| CallableRaised (f : nat) (msg : string)
| ArgumentError (msg : string)
| SystemExit (code : Z)
| Unmodelled.

Inductive Result (A : Type) : Type :=
| Ok (a : A)
| Err (e : Exn).
Arguments Ok {A} a.
Arguments Err {A} e.

Definition bind {A B : Type} (m : Result A) (k : A -> Result B) : Result B :=
  match m with
  | Ok a => k a
  | Err e => Err e
  end.

Notation "'let*' x ':=' m 'in' k" := (bind m (fun x => k))
  (at level 10, x pattern, m at level 200, k at level 200,
   format "'[v' 'let*'  x  ':='  m  'in' '/' k ']'").

(** [[f(x) for x in l]]: elements are evaluated left to right, the first
    exception propagates. *)
Fixpoint mapM {A B : Type} (f : A -> Result B) (l : list A) : Result (list B) :=
  match l with
  | [] => Ok []
  | x :: l' => let* y := f x in let* ys := mapM f l' in Ok (y :: ys)
  end.

(** [for x in l: f(x)] for an [f] that only checks. *)
Fixpoint forM_ {A : Type} (f : A -> Result unit) (l : list A) : Result unit :=
  match l with
  | [] => Ok tt
  | x :: l' => let* _ := f x in forM_ f l'
  end.

(** ** Python string methods *)

Module PyStr.

(** [c.isspace()] for a byte in the C locale. *)
Definition isspace (c : ascii) : bool :=
  let n := nat_of_ascii c in
  Nat.eqb n 32 || (Nat.leb 9 n && Nat.leb n 13).

Definition isdigit (c : ascii) : bool :=
  let n := nat_of_ascii c in Nat.leb 48 n && Nat.leb n 57.

Definition is_empty (s : string) : bool :=
  match s with EmptyString => true | _ => false end.

Definition snoc (s : string) (c : ascii) : string := s +:+ String c EmptyString.

Fixpoint lstrip (s : string) : string :=
  match s with
  | EmptyString => EmptyString
  | String c s' => if isspace c then lstrip s' else s
  end.

Fixpoint rstrip (s : string) : string :=
  match s with
  | EmptyString => EmptyString
  | String c s' =>
      let r := rstrip s' in
      if is_empty r && isspace c then EmptyString else String c r
  end.

(** [s.strip()] *)
Definition strip (s : string) : string := rstrip (lstrip s).

(** [s.startswith(p)] *)
Definition startswith (s p : string) : bool := String.prefix p s.

(** [c in s] for a one-character string [c]. *)
Fixpoint contains (c : ascii) (s : string) : bool :=
  match s with
  | EmptyString => false
  | String d s' => Ascii.eqb c d || contains c s'
  end.

(** [sep.join(l)] *)
Definition join (sep : string) (l : list string) : string := String.concat sep l.

(** [s.split(sep)] for a non-empty [sep]: [skip] counts the characters
    of a separator occurrence still to be dropped, [cur] is the token
    read so far. *)
Fixpoint split_go (sep : string) (s : string) (skip : nat) (cur : string) : list string :=
  match s with
  | EmptyString => [cur]
  | String c s' =>
      match skip with
      | S k => split_go sep s' k cur
      | O =>
          if String.prefix sep s
          then cur :: split_go sep s' (String.length sep - 1) EmptyString
          else split_go sep s' 0 (snoc cur c)
      end
  end.

Definition split_on (sep s : string) : list string := split_go sep s 0 EmptyString.

(** [s.split(None)]: split on runs of whitespace, no empty tokens. *)
Fixpoint split_ws (s : string) (cur : string) : list string :=
  match s with
  | EmptyString => if is_empty cur then [] else [cur]
  | String c s' =>
      if isspace c
      then (if is_empty cur then split_ws s' EmptyString
            else cur :: split_ws s' EmptyString)
      else split_ws s' (snoc cur c)
  end.

(** [s.split(sep)] where [sep] is [None] or a string. *)
Definition split (s : string) (sep : option string) : Result (list string) :=
  match sep with
  | None => Ok (split_ws s EmptyString)
  | Some EmptyString => Err (ValueError "empty separator")
  | Some sep => Ok (split_on sep s)
  end.

(** [s.lstrip('-')] *)
Fixpoint lstrip_char (c : ascii) (s : string) : string :=
  match s with
  | EmptyString => EmptyString
  | String d s' => if Ascii.eqb c d then lstrip_char c s' else s
  end.

(** [s.replace(a, b)] for one-character [a] and [b]. *)
Fixpoint replace_char (a b : ascii) (s : string) : string :=
  match s with
  | EmptyString => EmptyString
  | String d s' => String (if Ascii.eqb a d then b else d) (replace_char a b s')
  end.

Fixpoint digits_value (s : string) (acc : Z) : Z :=
  match s with
  | EmptyString => acc
  | String c s' => digits_value s' (10 * acc + Z.of_nat (nat_of_ascii c - 48))%Z
  end.

Fixpoint all_digits (s : string) : bool :=
  match s with
  | EmptyString => true
  | String c s' => isdigit c && all_digits s'
  end.

Definition unsigned_int (s : string) : Result Z :=
  if negb (is_empty s) && all_digits s then Ok (digits_value s 0%Z)
  else Err (ValueError "invalid literal for int() with base 10").

(** [int(s)] for a string: surrounding whitespace, an optional sign,
    decimal digits. *)
Definition to_int (s : string) : Result Z :=
  match strip s with
  | String "+" ds => unsigned_int ds
  | String "-" ds => let* n := unsigned_int ds in Ok (- n)%Z
  | ds => unsigned_int ds
  end.

End PyStr.

(** ** Python values: equality and membership *)

(** [a == b] on the modelled values. *)
Fixpoint py_eq (a b : PyVal) : bool :=
  match a, b with
  | VNone, VNone => true
  | VInt x, VInt y => Z.eqb x y
  | VStr x, VStr y => String.eqb x y
  | VList xs, VList ys =>
      (fix go (xs ys : list PyVal) : bool :=
         match xs, ys with
         | [], [] => true
         | x :: xs', y :: ys' => py_eq x y && go xs' ys'
         | _, _ => false
         end) xs ys
  | _, _ => false
  end.

(** [v in l] for a list [l]. *)
Definition py_in (v : PyVal) (l : list PyVal) : bool := existsb (py_eq v) l.

(** Equality of values is decidable. *)
Fixpoint PyVal_eq_dec (a b : PyVal) {struct a} : {a = b} + {a <> b}.
Proof.
  decide equality.
  - apply Z.eq_dec.
  - apply String.string_dec.
  - apply (List.list_eq_dec PyVal_eq_dec).
Defined.

#[global] Instance PyVal_eq_decision : EqDecision PyVal := PyVal_eq_dec.

#[global] Instance NargsVal_eq_dec : EqDecision NargsVal.
Proof. solve_decision. Defined.

#[global] Instance TypeVal_eq_dec : EqDecision TypeVal.
Proof. solve_decision. Defined.

(** [x == y] on a type whose Python equality is structural. *)
Definition eqv {A : Type} `{EqDecision A} (x y : A) : bool := bool_decide (x = y).

(** What a namespace attribute or a value read from the configuration
    may be: a Python value, or a [MissingConfigArgumentError] instance
    that was constructed but not raised (with its message). *)
Inductive Obj : Type :=
| Val (v : PyVal)
| MissingMarker (msg : string).

Definition is_marker (x : Obj) : bool :=
  match x with MissingMarker _ => true | Val _ => false end.

#[global] Instance Obj_eq_dec : EqDecision Obj.
Proof. solve_decision. Defined.

(** ** The configuration-file reader (collaborator)

    The reader is used through [has_option], [get] and [read] only.  Its
    state is the mapping from (section, key) to the string stored there;
    [read] merges the content of a file into it, the file's entries
    replacing those already present.  A file system maps a path to the
    content of the file, if there is a readable file at that path.  The
    mapping holds the strings as [get] answers them: the folding of key
    case and the expansion of [%] references are not described, and
    [get] is called by the source only where [has_option] holds. *)
Module SafeConfigParser.

Abbreviation t := (gmap (string * string) string).
Abbreviation FileSystem := (string -> option (gmap (string * string) string)).

Definition empty : t := ∅.

Definition has_option (c : t) (section name : string) : bool :=
  bool_decide (is_Some (c !! (section, name))).

Definition get (c : t) (section name : string) : string :=
  match c !! (section, name) with
  | Some v => v
  | None => EmptyString
  end.

(** [config.read(path)]: a file that cannot be opened is skipped. *)
Definition read (fs : FileSystem) (c : t) (path : string) : t :=
  match fs path with
  | Some file => file ∪ c
  | None => c
  end.

End SafeConfigParser.

(** ** The flag parser (collaborator)

    [argparse] is used through [ArgumentParser(add_help=...)],
    [add_argument], [parse_args] and [parse_known_args].  The model covers
    the part of its behaviour that does not depend on abbreviated or
    [=]-joined flags, on positional arguments at parse time, or on
    actions other than [store] and [help]: on such input it answers
    [Unmodelled], so that nothing is stated about it.  A usage error,
    which prints a message and exits the process, is [SystemExit 2];
    printing the help text and exiting is [SystemExit 0]. *)
Module Argparse.

(** [argparse.Namespace].  The order in which [vars(ns).items()]
    enumerates the attributes is left open by Python 2; here it is the
    order of their first assignment.  What is stated about the scan of a
    namespace is stated for a marker at any position. *)
Definition Namespace : Type := list (string * Obj).

Fixpoint getattr (ns : Namespace) (name : string) : option Obj :=
  match ns with
  | [] => None
  | (k, x) :: rest => if String.eqb k name then Some x else getattr rest name
  end.

Definition hasattr (ns : Namespace) (name : string) : bool :=
  match getattr ns name with Some _ => true | None => false end.

Fixpoint setattr (ns : Namespace) (name : string) (v : Obj) : Namespace :=
  match ns with
  | [] => [(name, v)]
  | (k, x) :: rest =>
      if String.eqb k name then (k, v) :: rest else (k, x) :: setattr rest name v
  end.

(** The keyword arguments of one [add_argument] call; [None] is an
    absent key. *)
Record Kwargs : Type := mkKwargs {
  k_action : option string;
  k_nargs : option NargsVal;
  k_const : option PyVal;
  k_default : option Obj;
  k_type : option TypeVal;
  k_choices : option (list PyVal);
  k_required : option bool;
  k_help : option string;
  k_metavar : option string;
  k_dest : option string
}.

Inductive ActionKind : Type := StoreAction | HelpAction.

(** A registered argument.  [a_dest = None] is [SUPPRESS]; an action
    without option strings is a positional argument. *)
Record Action : Type := mkAction {
  option_strings : list string;
  a_dest : option string;
  a_nargs : option NargsVal;
  a_default : Obj;
  a_type : option TypeVal;
  a_choices : option (list PyVal);
  a_required : bool;
  a_kind : ActionKind
}.

(** The parser: its registered actions, in registration order. *)
Record ArgumentParser : Type := mkParser { actions : list Action }.

Definition help_action : Action :=
  mkAction ["-h"; "--help"] None None (Val VNone) None None false HelpAction.

(** [ArgumentParser(add_help=...)] *)
Definition new (add_help : bool) : ArgumentParser :=
  mkParser (if add_help then [help_action] else []).

Definition registered_strings (p : ArgumentParser) : list string :=
  flat_map option_strings (actions p).

Definition is_long (s : string) : bool :=
  match s with
  | String _ (String c _) => Ascii.eqb c "-"
  | _ => false
  end.

(** The destination of an optional argument without [dest=]: from the
    first long option string, or else the first option string. *)
Definition derived_dest (names : list string) : Result string :=
  let dest_option_string :=
    match filter (fun s => Is_true (is_long s)) names with
    | l :: _ => l
    | [] => match names with n :: _ => n | [] => EmptyString end
    end in
  let dest := PyStr.lstrip_char "-" dest_option_string in
  if PyStr.is_empty dest then Err (ValueError "dest= is required")
  else Ok (PyStr.replace_char "-" "_" dest).

(** The multiplicities covered: one value, exactly [k >= 1] values,
    ['+'] and ['*']. *)
Definition check_nargs (n : option NargsVal) : Result unit :=
  match n with
  | None => Ok tt
  | Some (NInt k) =>
      if Z.eqb k 0 then Err (ValueError "nargs for store actions must be > 0")
      else if Z.ltb k 0 then Err Unmodelled
      else Ok tt
  | Some (NStr s) =>
      if String.eqb s "+" || String.eqb s "*" then Ok tt else Err Unmodelled
  end.

Definition check_type (ty : option TypeVal) : Result unit :=
  match ty with
  | Some (NotCallable _) => Err (ValueError "type is not callable")
  | _ => Ok tt
  end.

Definition truthy (b : option bool) : bool :=
  match b with Some true => true | _ => false end.

(** Every option string starts with the prefix character. *)
Fixpoint check_option_strings (names : list string) : Result unit :=
  match names with
  | [] => Ok tt
  | s :: rest =>
      if PyStr.is_empty s then Err IndexError
      else if negb (PyStr.startswith s "-")
      then Err (ValueError "invalid option string: must start with a character '-'")
      else check_option_strings rest
  end.

(** The action is [store], which is also the default. *)
Definition is_store (action : option string) : bool :=
  match action with
  | None => true
  | Some a => String.eqb a "store"
  end.

Definition default_of (kw : Kwargs) : Obj :=
  match k_default kw with
  | Some d => d
  | None => Val VNone
  end.

(** Registering a positional argument named [name]. *)
Definition add_positional (p : ArgumentParser) (name : string) (kw : Kwargs)
  : Result ArgumentParser :=
  if bool_decide (is_Some (k_dest kw))
  then Err (ValueError "dest supplied twice for positional argument")
  else if bool_decide (is_Some (k_required kw))
  then Err (TypeError "'required' is an invalid argument for positionals")
  else if is_store (k_action kw)
          && negb (bool_decide (is_Some (k_const kw)))
          && negb (bool_decide (is_Some (k_nargs kw)))
  then
    let* _ := check_type (k_type kw) in
    Ok (mkParser (actions p ++
          [mkAction [] (Some name) None (default_of kw)
             (k_type kw) (k_choices kw) true StoreAction]))
  else Err Unmodelled.

(** Registering an optional argument with the option strings [names]. *)
Definition add_optional (p : ArgumentParser) (names : list string) (kw : Kwargs)
  : Result ArgumentParser :=
  let* _ := check_option_strings names in
  let* dest :=
    match k_dest kw with
    | Some d => Ok d
    | None => derived_dest names
    end in
  if is_store (k_action kw) then
    let* _ := check_nargs (k_nargs kw) in
    if bool_decide (is_Some (k_const kw))
    then Err (ValueError "nargs must be '?' to supply const")
    else
      let* _ := check_type (k_type kw) in
      if existsb (fun s => bool_decide (s ∈ registered_strings p)) names
      then Err (ArgumentError "conflicting option string(s)")
      else
        Ok (mkParser (actions p ++
              [mkAction names (Some dest) (k_nargs kw) (default_of kw)
                 (k_type kw) (k_choices kw) (truthy (k_required kw))
                 StoreAction]))
  else Err Unmodelled.

(** [parser.add_argument], called with the names and keyword arguments:
    a single name without the prefix character is a positional argument. *)
Definition add_argument (p : ArgumentParser) (names : list string) (kw : Kwargs)
  : Result ArgumentParser :=
  match names with
  | [] => Err Unmodelled
  | [EmptyString] => Err IndexError
  | first :: others =>
      if match others with [] => true | _ :: _ => false end
         && negb (PyStr.startswith first "-")
      then add_positional p first kw
      else add_optional p names kw
  end.

Section Parse.

Variable call : nat -> string -> option PyVal.

(** Defaults for the attributes that the namespace does not have yet.  A
    string default of an argument with a [type] would be converted; that
    is not covered. *)
Fixpoint seed_defaults (acts : list Action) (ns : Namespace) : Result Namespace :=
  match acts with
  | [] => Ok ns
  | a :: rest =>
      match a_dest a with
      | None => seed_defaults rest ns
      | Some dest =>
          if hasattr ns dest then seed_defaults rest ns
          else
            match a_default a, a_type a with
            | Val (VStr _), Some _ => Err Unmodelled
            | d, _ => seed_defaults rest (setattr ns dest d)
            end
      end
  end.

(** The argument strings that cannot be taken for a flag. *)
Definition plain (tok : string) : bool := negb (PyStr.startswith tok "-").

(** A string with a leading [-] that no registered option string matches,
    neither exactly nor as an abbreviation, nor through [=] or a joined
    short-option value. *)
Definition unknown_flag (p : ArgumentParser) (tok : string) : bool :=
  PyStr.startswith tok "-"
  && negb (String.eqb tok "--")
  && negb (PyStr.contains "=" tok)
  && forallb (fun os => negb (String.prefix tok os) && negb (String.prefix os tok))
       (registered_strings p).

(** The first registered action that has [tok] among its option
    strings, with its position. *)
Fixpoint find_action (acts : list Action) (tok : string) (i : nat) : option (nat * Action) :=
  match acts with
  | [] => None
  | a :: rest =>
      if bool_decide (tok ∈ option_strings a) then Some (i, a)
      else find_action rest tok (S i)
  end.

Definition get_value (a : Action) (arg_string : string) : Result PyVal :=
  match a_type a with
  | None => Ok (VStr arg_string)
  | Some (Callable f) =>
      match call f arg_string with
      | Some v => Ok v
      | None => Err Unmodelled
      end
  | Some (NotCallable _) => Err (SystemExit 2)
  end.

Definition check_value (a : Action) (value : PyVal) : Result unit :=
  match a_choices a with
  | Some cs => if py_in value cs then Ok tt else Err (SystemExit 2)
  | None => Ok tt
  end.

(** Whether an argument that has received [n] strings takes no more. *)
Definition full (a : Action) (n : nat) : bool :=
  match a_nargs a with
  | None => Nat.leb 1 n
  | Some (NInt k) => Z.leb k (Z.of_nat n)
  | Some (NStr _) => false
  end.

(** Whether [n] strings are enough for the argument. *)
Definition enough (a : Action) (n : nat) : bool :=
  match a_nargs a with
  | None => Nat.leb 1 n
  | Some (NInt k) => Z.leb k (Z.of_nat n)
  | Some (NStr s) => String.eqb s "*" || Nat.leb 1 n
  end.

(** The [store] action on the strings collected for the argument. *)
Definition store (a : Action) (arg_strings : list string) (ns : Namespace)
  : Result Namespace :=
  if negb (enough a (length arg_strings)) then Err (SystemExit 2)
  else
    let* values := mapM (get_value a) arg_strings in
    let* _ := forM_ (check_value a) values in
    let value :=
      match a_nargs a, values with
      | None, [v] => v
      | _, _ => VList values
      end in
    match a_dest a with
    | Some dest => Ok (setattr ns dest (Val value))
    | None => Ok ns
    end.

(** The state of the scan: the namespace, the positions of the actions
    seen, the unrecognised strings, and the optional argument that is
    still collecting its strings. *)
Record Scan : Type := mkScan {
  s_ns : Namespace;
  s_seen : list nat;
  s_extras : list string;
  s_pending : option (Action * list string)
}.

Definition close (st : Scan) : Result Scan :=
  match s_pending st with
  | None => Ok st
  | Some (a, collected) =>
      let* ns := store a collected (s_ns st) in
      Ok (mkScan ns (s_seen st) (s_extras st) None)
  end.

(** A string met while no argument is collecting. *)
Definition fresh (p : ArgumentParser) (tok : string) (st : Scan) : Result Scan :=
  match find_action (actions p) tok 0 with
  | Some (i, a) =>
      match a_kind a with
      | HelpAction => Err (SystemExit 0)
      | StoreAction =>
          Ok (mkScan (s_ns st) (s_seen st ++ [i]) (s_extras st) (Some (a, [])))
      end
  | None =>
      if plain tok || unknown_flag p tok
      then Ok (mkScan (s_ns st) (s_seen st) (s_extras st ++ [tok]) None)
      else Err Unmodelled
  end.

Definition step (p : ArgumentParser) (tok : string) (st : Scan) : Result Scan :=
  match s_pending st with
  | Some (a, collected) =>
      if full a (length collected)
      then let* st' := close st in fresh p tok st'
      else if plain tok
      then Ok (mkScan (s_ns st) (s_seen st) (s_extras st) (Some (a, collected ++ [tok])))
      else
        match find_action (actions p) tok 0 with
        | Some _ => let* st' := close st in fresh p tok st'
        | None => Err Unmodelled
        end
  | None => fresh p tok st
  end.

Fixpoint scan (p : ArgumentParser) (args : list string) (st : Scan) : Result Scan :=
  match args with
  | [] => close st
  | tok :: rest => let* st' := step p tok st in scan p rest st'
  end.

(** All required actions were present. *)
Fixpoint check_required (acts : list Action) (i : nat) (seen : list nat) : Result unit :=
  match acts with
  | [] => Ok tt
  | a :: rest =>
      if a_required a && negb (bool_decide (i ∈ seen)) then Err (SystemExit 2)
      else check_required rest (S i) seen
  end.

Definition has_positional (p : ArgumentParser) : bool :=
  existsb (fun a => match option_strings a with [] => true | _ => false end) (actions p).

(** The strings that the model classifies: those that cannot be taken
    for a flag, the registered option strings, and the unknown flags. *)
Definition classified (p : ArgumentParser) (tok : string) : bool :=
  plain tok || bool_decide (tok ∈ registered_strings p) || unknown_flag p tok.

(** [parser.parse_known_args(args, namespace)].  All the strings are
    classified before the first of them is acted upon. *)
Definition parse_known_args (p : ArgumentParser) (args : list string) (namespace : Namespace)
  : Result (Namespace * list string) :=
  if has_positional p || negb (forallb (classified p) args) then Err Unmodelled
  else
    let* ns := seed_defaults (actions p) namespace in
    let* st := scan p args (mkScan ns [] [] None) in
    let* _ := check_required (actions p) 0 (s_seen st) in
    Ok (s_ns st, s_extras st).

(** [parser.parse_args(args, namespace)] *)
Definition parse_args (p : ArgumentParser) (args : list string) (namespace : Namespace)
  : Result Namespace :=
  let* (ns, argv) := parse_known_args p args namespace in
  match argv with
  | [] => Ok ns
  | _ :: _ => Err (SystemExit 2)
  end.

End Parse.

End Argparse.

(** ** MissingConfigArgumentError *)

(** The message built by [MissingConfigArgumentError.__init__(option)]
    from [option.config_paths]. *)
Definition missing_message (config_paths : list (list string)) : string :=
  let formatted_options := PyStr.join ", " (map (PyStr.join ":") config_paths) in
  "No configuration value found for required Option(" +:+ formatted_options +:+ ")".

(** ** separate_names *)

Definition separate_names (names : list string)
  : list (list string) * list string * list string :=
  fold_left
    (fun '(configs, args, options) name =>
       if PyStr.startswith name "-" then (configs, args, options ++ [name])
       else if PyStr.contains ":" name
            then (configs ++ [PyStr.split_on ":" name], args, options)
            else (configs, args ++ [name], options))
    names ([], [], []).

(** ** class Option *)

Module Option.

(** The keyword arguments given to the constructor of [Option].  For [action]
    and [split_char], whose class-level default is not [None], the outer
    [None] means that the key is absent; for the other keys an absent
    key and a [None] value read the same. *)
Record Kwargs : Type := mkKwargs {
  kw_action : option (option string);
  kw_nargs : option NargsVal;
  kw_const : PyVal;
  kw_default : PyVal;
  kw_type : option TypeVal;
  kw_choices : option (list PyVal);
  kw_required : option bool;
  kw_help : option string;
  kw_metavar : option string;
  kw_dest : option string;
  kw_split_char : option (option string)
}.

Definition no_kwargs : Kwargs :=
  mkKwargs None None VNone VNone None None None None None None None.

Record t : Type := mk {
  action : option string;
  nargs : option NargsVal;
  const : PyVal;
  default : PyVal;
  type : option TypeVal;
  choices : option (list PyVal);
  required : option bool;
  help : option string;
  metavar : option string;
  dest : option string;
  split_char : option string;
  config_paths : list (list string);
  args : list string;
  options : list string
}.

(** [_defaults] and [read_with_default] for the two keys that have a
    class-level default. *)
Definition read_with_default (given : option (option string)) (dflt : string)
  : option string :=
  match given with
  | Some v => v
  | None => Some dflt
  end.

Definition __init__ (names : list string) (kwargs : Kwargs) : t :=
  let '(config_paths, args, options) := separate_names names in
  {| action := read_with_default (kw_action kwargs) "store";
     nargs := kw_nargs kwargs;
     const := kw_const kwargs;
     default := kw_default kwargs;
     type := kw_type kwargs;
     choices := kw_choices kwargs;
     required := kw_required kwargs;
     help := kw_help kwargs;
     metavar := kw_metavar kwargs;
     dest := kw_dest kwargs;
     split_char := read_with_default (kw_split_char kwargs) ",";
     config_paths := config_paths;
     args := args;
     options := options |}.

(** [Option.__eq__]; [other] is an [Option], so the [isinstance] test
    holds. *)
Definition __eq__ (self other : t) : bool :=
  eqv (action other) (action self) &&
  eqv (nargs other) (nargs self) &&
  eqv (const other) (const self) &&
  eqv (default other) (default self) &&
  eqv (type other) (type self) &&
  eqv (choices other) (choices self) &&
  eqv (required other) (required self) &&
  eqv (help other) (help self) &&
  eqv (metavar other) (metavar self) &&
  eqv (dest other) (dest self) &&
  eqv (split_char other) (split_char self) &&
  eqv (config_paths other) (config_paths self) &&
  eqv (args other) (args self) &&
  eqv (options other) (options self).

(** [option in l] for a list of Options. *)
Definition mem (option : t) (l : list t) : bool :=
  existsb (fun e => __eq__ option e) l.

Section Methods.

(** The behaviour of the callables: [call f s] is [Some v] when the
    callable with identity [f] returns [v] on the string [s], and [None]
    when it raises. *)
Variable call : nat -> string -> option PyVal.

Definition formatted_names (self : t) : string :=
  PyStr.join " " (args self ++ options self ++ map (PyStr.join ":") (config_paths self)).

(** Interpret value using the specified type of the Option. *)
Definition _get_value (self : t) (value : string) : Result PyVal :=
  match type self with
  | None => Ok (VStr value)
  | Some (NotCallable _) =>
      Err (ConfigArgumentError (TypeNotCallable (formatted_names self)))
  | Some (Callable f) =>
      match call f value with
      | Some v => Ok v
      | None => Err (CallableRaised f value)
      end
  end.

(** Verify that value is allowed for the Option. *)
Definition _check_value (self : t) (value : PyVal) : Result unit :=
  match choices self with
  | Some cs =>
      if negb (py_in value cs)
      then Err (ConfigArgumentError (InvalidChoice value cs))
      else Ok tt
  | None => Ok tt
  end.

(** The loop of [_read_config_paths]: [for section, name in paths]
    unpacks each path into exactly two names. *)
Fixpoint read_paths (config_parser : SafeConfigParser.t) (paths : list (list string))
  : Result (option (string * string * string)) :=
  match paths with
  | [] => Ok None
  | [section; name] :: rest =>
      if SafeConfigParser.has_option config_parser section name
      then Ok (Some (SafeConfigParser.get config_parser section name, section, name))
      else read_paths config_parser rest
  | _ :: _ => Err (ValueError "wrong number of values to unpack")
  end.

Definition _read_config_paths (self : t) (config_parser : SafeConfigParser.t)
  : Result (option (string * string * string)) :=
  read_paths config_parser (config_paths self).

(** [int(self.nargs)] *)
Definition int_of_nargs (n : NargsVal) : Result Z :=
  match n with
  | NInt k => Ok k
  | NStr s => PyStr.to_int s
  end.

(** The count rule applied to [len(value)] in [from_config]. *)
Definition check_count (n : NargsVal) (len : nat) (section name : string) : Result unit :=
  if eqv n (NStr "+") then
    if Nat.eqb len 0
    then Err (ConfigArgumentError (AtLeastOneValue section name))
    else Ok tt
  else if eqv n (NStr "*") then Ok tt
  else
    let* k := int_of_nargs n in
    if negb (Z.eqb (Z.of_nat len) k)
    then Err (ConfigArgumentError (ExactlyNValues n section name))
    else Ok tt.

(** The part of [from_config] that runs once a value [val] was found at
    [section], [name]. *)
Definition from_present (self : t) (val section name : string) : Result Obj :=
  match nargs self with
  | Some n =>
      let* tokens := PyStr.split val (split_char self) in
      let* value := mapM (fun v => _get_value self (PyStr.strip v)) tokens in
      let* _ := check_count n (length value) section name in
      let* _ := forM_ (_check_value self) value in
      Ok (Val (VList value))
  | None =>
      let* value := _get_value self val in
      let* _ := _check_value self value in
      Ok (Val value)
  end.

(** Read the value for this Option from [config_parser], and return it.
    If no value is found and the value is required, return a
    [MissingConfigArgumentError] (to be raised later), otherwise return
    the specified default. *)
Definition from_config (self : t) (config_parser : SafeConfigParser.t) : Result Obj :=
  let* found := _read_config_paths self config_parser in
  match found with
  | None =>
      if eqv (required self) (Some true)
      then Ok (MissingMarker (missing_message (config_paths self)))
      else Ok (Val (default self))
  | Some (val, section, name) => from_present self val section name
  end.

End Methods.

(** Add this Option to [argparser], with [from_config] as the default.
    If there is no commandline name for this Option, add [from_config] to
    the specified namespace instead.  The result is the parser and the
    namespace after the call. *)
Definition add_to_parser (self : t) (argparser : Argparse.ArgumentParser)
  (from_config : Obj) (namespace : option Argparse.Namespace)
  : Result (Argparse.ArgumentParser * option Argparse.Namespace) :=
  match args self ++ options self with
  | [] =>
      Ok (argparser,
          match namespace with
          | Some ns =>
              Some (fold_left
                      (fun ns path => Argparse.setattr ns (PyStr.join "_" path) from_config)
                      (config_paths self) ns)
          | None => None
          end)
  | names =>
      let if_not_none (v : PyVal) := match v with VNone => None | _ => Some v end in
      let kwargs :=
        {| Argparse.k_action := action self;
           Argparse.k_nargs := nargs self;
           Argparse.k_const := if_not_none (const self);
           Argparse.k_default :=
             match from_config with Val VNone => None | d => Some d end;
           Argparse.k_type := type self;
           Argparse.k_choices := choices self;
           Argparse.k_required := required self;
           Argparse.k_help := help self;
           Argparse.k_metavar := metavar self;
           Argparse.k_dest := dest self |} in
      let* argparser' := Argparse.add_argument argparser names kwargs in
      Ok (argparser', namespace)
  end.

End Option.

(** ** class ConfigBackedArgumentParser *)

Module ConfigBackedArgumentParser.

(** The attributes set by [__init__].  The extra positional and keyword
    arguments handed on to [ArgumentParser] are taken to be empty. *)
Record t : Type := mk {
  def_cfg_loc : option string;
  config_short_flag : string;
  config_long_flag : string;
  config_help : option string;
  config_metavar : option string;
  options : list Option.t;
  additional_configs : list string
}.

(** The parser made by [ConfigBackedArgumentParser()] with every
    parameter at its default. *)
Definition __init__ (def_cfg_loc : option string) : t :=
  mk def_cfg_loc "-c" "--config" (Some "Path to the config file") (Some "CFG") [] [].

(** Add a single option to this parser, if the option hasn't already been
    added. *)
Definition append_option (self : t) (option : Option.t) : t :=
  if negb (Option.mem option (options self))
  then mk (def_cfg_loc self) (config_short_flag self) (config_long_flag self)
          (config_help self) (config_metavar self)
          (options self ++ [option]) (additional_configs self)
  else self.

(** Add a list of options to this parser, ignoring any that have already
    been added. *)
Definition extend_options (self : t) (options : list Option.t) : t :=
  fold_left append_option options self.

(** Add the configuration file commandline argument to the specified
    argument parser. *)
Definition _add_config_arg (self : t) (parser : Argparse.ArgumentParser)
  : Result Argparse.ArgumentParser :=
  Argparse.add_argument parser
    [config_short_flag self; config_long_flag self]
    {| Argparse.k_action := None;
       Argparse.k_nargs := None;
       Argparse.k_const := None;
       Argparse.k_default :=
         match def_cfg_loc self with
         | Some loc => Some (Val (VStr loc))
         | None => None
         end;
       Argparse.k_type := None;
       Argparse.k_choices := None;
       Argparse.k_required := None;
       Argparse.k_help := config_help self;
       Argparse.k_metavar := config_metavar self;
       Argparse.k_dest := Some "config" |}.

(** The dictionary [config_vals], keyed by Option. *)
Definition ConfigVals : Type := list (Option.t * Obj).

Fixpoint vals_set (d : ConfigVals) (opt : Option.t) (v : Obj) : ConfigVals :=
  match d with
  | [] => [(opt, v)]
  | (k, x) :: rest =>
      if Option.__eq__ opt k then (k, v) :: rest else (k, x) :: vals_set rest opt v
  end.

(** [config_vals.get(opt)]; a missing key reads [None]. *)
Fixpoint vals_get (d : ConfigVals) (opt : Option.t) : Obj :=
  match d with
  | [] => Val VNone
  | (k, x) :: rest => if Option.__eq__ opt k then x else vals_get rest opt
  end.

(** The configuration that [_read_config_args] loads: the primary file,
    if a path for it is known, and then every additional file. *)
Definition load_config (fs : SafeConfigParser.FileSystem)
  (primary : option string) (additional : list string) : SafeConfigParser.t :=
  let config := SafeConfigParser.empty in
  let config :=
    match primary with
    | Some path => SafeConfigParser.read fs config path
    | None => config
    end in
  fold_left (SafeConfigParser.read fs) additional config.

Section Methods.

Variable call : nat -> string -> option PyVal.
Variable fs : SafeConfigParser.FileSystem.

(** The path in [opts.config] after the bootstrap parse. *)
Definition config_path (self : t) (args : list string) : Result (option string) :=
  let parser := Argparse.new false in
  let* parser := _add_config_arg self parser in
  let* (opts, unknown) := Argparse.parse_known_args call parser args [] in
  match Argparse.getattr opts "config" with
  | Some (Val (VStr path)) => Ok (Some path)
  | _ => Ok None
  end.

(** Read arguments from the config file.  Returns a dictionary mapping
    Options to the values read from the config file for them. *)
Definition _read_config_args (self : t) (args : list string) : Result ConfigVals :=
  let* primary := config_path self args in
  let config := load_config fs primary (additional_configs self) in
  fold_left
    (fun acc opt =>
       let* config_vals := acc in
       let* v := Option.from_config call opt config in
       Ok (vals_set config_vals opt v))
    (options self) (Ok []).

(** Add all Options to the specified parser, with defaults from the
    config file. *)
Definition _add_options (self : t) (parser : Argparse.ArgumentParser)
  (args : list string) (namespace : Argparse.Namespace)
  : Result (Argparse.ArgumentParser * Argparse.Namespace) :=
  let* config_vals := _read_config_args self args in
  fold_left
    (fun acc opt =>
       let* (parser, namespace) := acc in
       let* (parser', namespace') :=
         Option.add_to_parser opt parser (vals_get config_vals opt) (Some namespace) in
       Ok (parser', match namespace' with Some ns => ns | None => namespace end))
    (options self) (Ok (parser, namespace)).

(** Sets up [parser] to be used with the config arguments, and returns
    the parser and a namespace that can be passed to [parse_args] or
    [parse_known_args]. *)
Definition _setup_parser (self : t) (parser : Argparse.ArgumentParser) (args : list string)
  : Result (Argparse.ArgumentParser * Argparse.Namespace) :=
  let* parser := _add_config_arg self parser in
  let namespace : Argparse.Namespace := [] in
  _add_options self parser args namespace.

(** If any of the specified arguments are required, and weren't available
    either from the config file or the commandline, raise the
    [MissingConfigArgumentError]. *)
Fixpoint _check_required_config (args : Argparse.Namespace) : Result unit :=
  match args with
  | [] => Ok tt
  | (attr, MissingMarker msg) :: _ => Err (MissingConfigArgumentError msg)
  | (attr, Val _) :: rest => _check_required_config rest
  end.

(** Parse all known arguments from [args], returning a tuple of the
    parsed arguments and the remaining arguments. *)
Definition parse_known_args (self : t) (args : list string)
  : Result (Argparse.Namespace * list string) :=
  let parser := Argparse.new true in
  let* (parser, namespace) := _setup_parser self parser args in
  let* (args, rest) := Argparse.parse_known_args call parser args namespace in
  let* _ := _check_required_config args in
  Ok (args, rest).

(** Parse all the arguments from [args], returning the parsed arguments,
    or raising an exception if there are unknown arguments. *)
Definition parse_args (self : t) (args : list string) : Result Argparse.Namespace :=
  let parser := Argparse.new true in
  let* (parser, namespace) := _setup_parser self parser args in
  let* args := Argparse.parse_args call parser args namespace in
  let* _ := _check_required_config args in
  Ok args.

(** Parse all of the known arguments from [args], except the [--help]
    argument.  Returns the parsed arguments. *)
Definition bootstrap_parse (self : t) (args : list string) : Result Argparse.Namespace :=
  let parser := Argparse.new false in
  let* (parser, namespace) := _setup_parser self parser args in
  let* (args, _) := Argparse.parse_known_args call parser args namespace in
  let* _ := _check_required_config args in
  Ok args.

End Methods.

End ConfigBackedArgumentParser.

(** ** Vocabulary of the statements *)

(** A (section, key) pair as a config path. *)
Definition pair_path (p : string * string) : list string := [p.1; p.2].

(** [(section, name)] is the first of [paths] that the mapping has, it
    holds [val] there, and the paths before it are (section, key) pairs
    that the mapping lacks. *)
Definition first_present (cfg : gmap (string * string) string)
  (paths : list (list string)) (val section name : string) : Prop :=
  exists pre post,
    paths = map pair_path pre ++ [section; name] :: post /\
    Forall (fun p => cfg !! p = None) pre /\
    cfg !! (section, name) = Some val.

(** Every path is a (section, key) pair that the mapping lacks. *)
Definition all_absent (cfg : gmap (string * string) string)
  (paths : list (list string)) : Prop :=
  exists pairs,
    paths = map pair_path pairs /\ Forall (fun p => cfg !! p = None) pairs.

(** The multiplicity rule on a number of tokens: any number for ['*'], at
    least one for ['+'], exactly [N] for an integer [N]. *)
Definition count_rule (n : NargsVal) (len : nat) : Prop :=
  n = NStr "*" \/ (n = NStr "+" /\ len <> 0) \/ (exists k, n = NInt k /\ Z.of_nat len = k).

(** The number of tokens breaks the rule of ['+'] or of an integer. *)
Definition count_violation (n : NargsVal) (len : nat) : Prop :=
  (n = NStr "+" /\ len = 0) \/ (exists k, n = NInt k /\ Z.of_nat len <> k).

(** The error that the count rule raises for [n] at [section], [name]. *)
Definition count_error (n : NargsVal) (section name : string) : Exn :=
  match n with
  | NInt _ => ConfigArgumentError (ExactlyNValues n section name)
  | NStr _ => ConfigArgumentError (AtLeastOneValue section name)
  end.

(** The errors that decoding a token can raise: the type is not
    callable, or the callable raised. *)
Definition is_decode_error (e : Exn) : Prop :=
  (exists names, e = ConfigArgumentError (TypeNotCallable names)) \/
  (exists f s, e = CallableRaised f s).

(** The errors of the allowed-value check. *)
Definition is_choice_error (e : Exn) : Prop :=
  exists v cs, e = ConfigArgumentError (InvalidChoice v cs).

(** The decoded tokens: [[self._get_value(v.strip()) for v in tokens]]. *)
Definition decode_tokens (call : nat -> string -> option PyVal) (o : Option.t)
  (tokens : list string) : Result (list PyVal) :=
  mapM (fun v => Option._get_value call o (PyStr.strip v)) tokens.

(** The value passes the allowed-value check of the Option. *)
Definition allowed (o : Option.t) (v : PyVal) : Prop :=
  forall cs, Option.choices o = Some cs -> py_in v cs = true.

(** The number of elements of [l] that [o] equals. *)
Fixpoint copies (o : Option.t) (l : list Option.t) : nat :=
  match l with
  | [] => 0
  | e :: rest => (if Option.__eq__ o e then 1 else 0) + copies o rest
  end.

(** The file at [path] exists and holds [v] at [key]. *)
Definition defines (fs : string -> option (gmap (string * string) string))
  (path : string) (key : string * string) (v : string) : Prop :=
  exists file, fs path = Some file /\ file !! key = Some v.

(** There is no file at [path], or it has nothing at [key]. *)
Definition silent (fs : string -> option (gmap (string * string) string))
  (key : string * string) (path : string) : Prop :=
  forall file, fs path = Some file -> file !! key = None.

(** The first marker that a scan of the attributes of [ns] meets is the
    one with message [msg]. *)
Definition first_marker (ns : Argparse.Namespace) (msg : string) : Prop :=
  exists pre attr post,
    ns = pre ++ (attr, MissingMarker msg) :: post /\
    Forall (fun kv => is_marker kv.2 = false) pre.

(** The marker with message [msg] is in [ns], and it is the only marker
    there. *)
Definition only_marker (ns : Argparse.Namespace) (msg : string) : Prop :=
  (exists attr, In (attr, MissingMarker msg) ns) /\
  (forall attr m, In (attr, MissingMarker m) ns -> m = msg).

(** The destination that the flag parser gives to the Option: [dest] if
    it is given, and else the one derived from the flag names. *)
Definition option_dest (o : Option.t) : Result string :=
  match Option.dest o with
  | Some d => Ok d
  | None => Argparse.derived_dest (Option.options o)
  end.


(** The flags for the config file are flags, and not those of the help. *)
Definition config_flags_ok (self : ConfigBackedArgumentParser.t) : Prop :=
  PyStr.startswith (ConfigBackedArgumentParser.config_short_flag self) "-" = true /\
  PyStr.startswith (ConfigBackedArgumentParser.config_long_flag self) "-" = true /\
  ~ In (ConfigBackedArgumentParser.config_short_flag self) ["-h"; "--help"] /\
  ~ In (ConfigBackedArgumentParser.config_long_flag self) ["-h"; "--help"].

(** The Option is a store flag of the parser: it has flag names only,
    none of them a flag of the help or of the config file, its action is
    [store], it has no [const], and its type, if any, is a callable. *)
Definition store_flag_option (self : ConfigBackedArgumentParser.t) (o : Option.t) : Prop :=
  Option.args o = [] /\
  Forall (fun s => PyStr.startswith s "-" = true /\
                   ~ In s ["-h"; "--help";
                           ConfigBackedArgumentParser.config_short_flag self;
                           ConfigBackedArgumentParser.config_long_flag self])
         (Option.options o) /\
  (Option.action o = None \/ Option.action o = Some "store") /\
  Option.const o = VNone /\
  (forall x, Option.type o <> Some (NotCallable x)).




(** The action that [_add_config_arg] registers. *)
Definition config_action (self : ConfigBackedArgumentParser.t) : Argparse.Action :=
  Argparse.mkAction
    [ConfigBackedArgumentParser.config_short_flag self;
     ConfigBackedArgumentParser.config_long_flag self]
    (Some "config") None
    (match ConfigBackedArgumentParser.def_cfg_loc self with
     | Some loc => Val (VStr loc)
     | None => Val VNone
     end)
    None None false Argparse.StoreAction.

(** The action that [add_to_parser] registers for a store flag Option
    with destination [d], when [default] was read from the configuration. *)
Definition flag_action (o : Option.t) (d : string) (default : Obj) : Argparse.Action :=
  Argparse.mkAction (Option.options o) (Some d) (Option.nargs o) default
    (Option.type o) (Option.choices o)
    (Argparse.truthy (Option.required o)) Argparse.StoreAction.







(** The kind of a name, as [separate_names] tells them apart. *)
Definition is_option_name (name : string) : bool := PyStr.startswith name "-".

Definition is_config_name (name : string) : bool :=
  negb (PyStr.startswith name "-") && PyStr.contains ":" name.

Definition is_arg_name (name : string) : bool :=
  negb (PyStr.startswith name "-") && negb (PyStr.contains ":" name).

(** The number of occurrences of [c] in [s]. *)
Fixpoint occurrences (c : ascii) (s : string) : nat :=
  match s with
  | EmptyString => 0
  | String d s' => (if Ascii.eqb c d then 1 else 0) + occurrences c s'
  end.

(** The string is empty or holds whitespace only. *)
Fixpoint blank (s : string) : bool :=
  match s with
  | EmptyString => true
  | String c s' => PyStr.isspace c && blank s'
  end.

(** The positions seen by the scan are those of the actions that a string
    of the command line names. *)
Definition named_by (p : Argparse.ArgumentParser) (args : list string) (i : nat) : Prop :=
  exists tok a, In tok args /\ Argparse.find_action (Argparse.actions p) tok 0 = Some (i, a).

(** The flag parser seeds the default as it is: a string default of an
    argument with a type would be converted first. *)
Definition seeded_as_is (o : Option.t) (x : Obj) : Prop :=
  match x with
  | Val (VStr _) => Option.type o = None
  | _ => True
  end.

(** [f] is one of the two flags for the config file. *)
Definition config_flag (self : ConfigBackedArgumentParser.t) (f : string) : Prop :=
  f = ConfigBackedArgumentParser.config_short_flag self \/
  f = ConfigBackedArgumentParser.config_long_flag self.

(** The states of two scans agree, the positions seen by the first being
    those of the second moved by one. *)
Definition shifted (st st' : Argparse.Scan) : Prop :=
  Argparse.s_ns st = Argparse.s_ns st' /\
  Argparse.s_seen st = map S (Argparse.s_seen st') /\
  Argparse.s_extras st = Argparse.s_extras st' /\
  Argparse.s_pending st = Argparse.s_pending st'.

(** The Option has no commandline name. *)
Definition config_only (o : Option.t) : Prop :=
  Option.args o = [] /\ Option.options o = [].

(** The attributes that an Option without a commandline name writes. *)
Definition attributes (o : Option.t) : list string :=
  map (PyStr.join "_") (Option.config_paths o).

(** The scan writes the destinations of registered actions only. *)
Definition scan_frame (p : Argparse.ArgumentParser) (ns1 : Argparse.Namespace)
  (attr : string) (st : Argparse.Scan) : Prop :=
  Argparse.getattr (Argparse.s_ns st) attr = Argparse.getattr ns1 attr /\
  forall a c, Argparse.s_pending st = Some (a, c) -> In a (Argparse.actions p).

(** The call returns: no exception propagates and the process does not
    exit. *)
Definition returns {A : Type} (r : Result A) : bool :=
  match r with
  | Ok _ => true
  | Err _ => false
  end.

(** ** Sample options, files and callables *)

(** Callable 0 is [int]; every other callable returns its argument. *)
Definition sample_call (f : nat) (s : string) : option PyVal :=
  match f with
  | O => match PyStr.to_int s with Ok z => Some (VInt z) | Err _ => None end
  | S _ => Some (VStr s)
  end.

Definition kw_nargs (n : NargsVal) : Option.Kwargs :=
  Option.mkKwargs None (Some n) VNone VNone None None None None None None None.

Definition kw_required : Option.Kwargs :=
  Option.mkKwargs None None VNone VNone None None (Some true) None None None None.

(** [Option("db:hosts", "--hosts", nargs="+")] *)
Definition opt_hosts_plus : Option.t :=
  Option.__init__ ["db:hosts"; "--hosts"] (kw_nargs (NStr "+")).

(** [Option("net:pair", "--pair", nargs=2)] *)
Definition opt_pair : Option.t :=
  Option.__init__ ["net:pair"; "--pair"] (kw_nargs (NInt 2)).

(** [Option("net:pair", "--pair", nargs=2, type=int)] *)
Definition opt_pair_int : Option.t :=
  Option.__init__ ["net:pair"; "--pair"]
    (Option.mkKwargs None (Some (NInt 2)) VNone VNone (Some (Callable 0))
       None None None None None None).

(** [Option("net:pair", "--pair", nargs=2, choices=["x", "y"])] *)
Definition opt_pair_xy : Option.t :=
  Option.__init__ ["net:pair"; "--pair"]
    (Option.mkKwargs None (Some (NInt 2)) VNone VNone None
       (Some [VStr "x"; VStr "y"]) None None None None None).

(** [Option("old:host", "db:host", "--host", default="localhost")] *)
Definition opt_host : Option.t :=
  Option.__init__ ["old:host"; "db:host"; "--host"]
    (Option.mkKwargs None None VNone (VStr "localhost") None None None None None None None).

(** [Option("db:host", required=True)], without a commandline name. *)
Definition opt_db_host : Option.t := Option.__init__ ["db:host"] kw_required.

(** [Option("db:port", required=True)], without a commandline name. *)
Definition opt_db_port : Option.t := Option.__init__ ["db:port"] kw_required.

(** [Option("db:port", "--port", required=True)] *)
Definition opt_port : Option.t := Option.__init__ ["db:port"; "--port"] kw_required.

(** [Option("db:ports", "-p", "--ports", nargs="+", type=int,
    required=True)] *)
Definition opt_ports : Option.t :=
  Option.__init__ ["db:ports"; "-p"; "--ports"]
    (Option.mkKwargs None (Some (NStr "+")) VNone VNone (Some (Callable 0))
       None (Some true) None None None None).

(** A one-entry configuration. *)
Definition cfg1 (section name val : string) : gmap (string * string) string :=
  {[ (section, name) := val ]}.

(** A file system with at most two files. *)
Definition fs2 (path1 : string) (file1 : gmap (string * string) string)
  (path2 : string) (file2 : gmap (string * string) string)
  : string -> option (gmap (string * string) string) :=
  fun path =>
    if String.eqb path path1 then Some file1
    else if String.eqb path path2 then Some file2
    else None.

(** A primary and an additional file that both define [db]/[host]. *)
Definition fs_both : string -> option (gmap (string * string) string) :=
  fs2 "primary.ini" (cfg1 "db" "host" "from-primary")
      "extra.ini" (cfg1 "db" "host" "from-extra").

(** The file system without any file. *)
Definition no_files : string -> option (gmap (string * string) string) :=
  fun _ => None.

(** A parser with two required Options that have no commandline name,
    no default config file and no additional one. *)
Definition parser_two_required : ConfigBackedArgumentParser.t :=
  ConfigBackedArgumentParser.extend_options
    (ConfigBackedArgumentParser.__init__ None) [opt_db_host; opt_db_port].

(** The same Options, declared in the other order. *)
Definition parser_two_required' : ConfigBackedArgumentParser.t :=
  ConfigBackedArgumentParser.extend_options
    (ConfigBackedArgumentParser.__init__ None) [opt_db_port; opt_db_host].

(** [Option("db:port", "--port", type="int")]: the type is a string, not a
    callable. *)
Definition opt_port_str_type : Option.t :=
  Option.__init__ ["db:port"; "--port"]
    (Option.mkKwargs None None VNone VNone (Some (NotCallable (VStr "int")))
       None None None None None None).

(** [Option("db:port", "--port", type=int)] *)
Definition opt_port_int : Option.t :=
  Option.__init__ ["db:port"; "--port"]
    (Option.mkKwargs None None VNone VNone (Some (Callable 0))
       None None None None None None).

(** [Option("db:hosts", "--hosts", nargs="+", split_char=None)] *)
Definition opt_hosts_ws : Option.t :=
  Option.__init__ ["db:hosts"; "--hosts"]
    (Option.mkKwargs None (Some (NStr "+")) VNone VNone None
       None None None None None (Some None)).

(** [Option("db:host", "--host", nargs="?")] *)
Definition opt_host_maybe : Option.t :=
  Option.__init__ ["db:host"; "--host"] (kw_nargs (NStr "?")).

(** [Option("net:pair", "--pair", nargs=2, split_char="")] *)
Definition opt_pair_nosep : Option.t :=
  Option.__init__ ["net:pair"; "--pair"]
    (Option.mkKwargs None (Some (NInt 2)) VNone VNone None
       None None None None None (Some (Some EmptyString))).

(** [Option("name", required=True)] *)
Definition opt_name_required : Option.t := Option.__init__ ["name"] kw_required.

(** The parser with the default config file at [loc] that declares [o]. *)
Definition parser_of (loc : option string) (o : Option.t) : ConfigBackedArgumentParser.t :=
  ConfigBackedArgumentParser.append_option (ConfigBackedArgumentParser.__init__ loc) o.

(** Two config files that both define [db]/[host]. *)
Definition fs_two_hosts : string -> option (gmap (string * string) string) :=
  fs2 "app.ini" (cfg1 "db" "host" "a.example")
      "other.ini" (cfg1 "db" "host" "b.example").



(** * Properties of the resolution model *)

(** ** The string methods and the values *)

Example split_comma : PyStr.split "a.example, b.example" (Some ",") = Ok ["a.example"; " b.example"].
Proof. reflexivity. Qed.
Example split_empty : PyStr.split "" (Some ",") = Ok [""].
Proof. reflexivity. Qed.
Example split_trailing : PyStr.split "a::b::" (Some "::") = Ok ["a"; "b"; ""].
Proof. reflexivity. Qed.
Example split_none : PyStr.split "  a  b " None = Ok ["a"; "b"].
Proof. reflexivity. Qed.
Example strip_ex : PyStr.strip "  a b  " = "a b".
Proof. reflexivity. Qed.
Example to_int_ex : PyStr.to_int " -12 " = Ok (-12)%Z.
Proof. reflexivity. Qed.
Example separate_names_ex :
  separate_names ["--host"; "db:host"; "-H"; "target"]
  = ([["db"; "host"]], ["target"], ["--host"; "-H"]).
Proof. reflexivity. Qed.

(** Induction on values that reaches inside lists. *)
Fixpoint PyVal_nested_ind (P : PyVal -> Prop)
  (HNone : P VNone) (HInt : forall z, P (VInt z)) (HStr : forall s, P (VStr s))
  (HList : forall l, Forall P l -> P (VList l)) (v : PyVal) : P v :=
  match v with
  | VNone => HNone
  | VInt z => HInt z
  | VStr s => HStr s
  | VList l =>
      HList l
        ((fix go (l : list PyVal) : Forall P l :=
            match l with
            | [] => List.Forall_nil P
            | x :: l' =>
                List.Forall_cons P x l'
                  (PyVal_nested_ind P HNone HInt HStr HList x) (go l')
            end) l)
  end.

Lemma py_eq_true_iff (a b : PyVal) : py_eq a b = true <-> a = b.
Proof.
  revert b. induction a as [| z | s | l IH] using PyVal_nested_ind;
    intros [| z' | s' | l']; simpl; try (split; intros; discriminate).
  - tauto.
  - rewrite Z.eqb_eq. split; congruence.
  - rewrite String.eqb_eq. split; congruence.
  - revert l'. induction IH as [| x l Hx _ IHl]; intros [| y l'];
      try (split; intros; discriminate); [tauto |].
    rewrite andb_true_iff, Hx, IHl. split.
    + intros [-> E]. congruence.
    + intros E. injection E as -> ->. tauto.
Qed.

(** ** Reading the config paths *)

Lemma has_option_Some (cfg : gmap (string * string) string) s k v :
  cfg !! (s, k) = Some v ->
  SafeConfigParser.has_option cfg s k = true /\ SafeConfigParser.get cfg s k = v.
Proof.
  intros H. unfold SafeConfigParser.has_option, SafeConfigParser.get.
  rewrite H. split; [apply bool_decide_eq_true; eauto | reflexivity].
Qed.

Lemma has_option_None (cfg : gmap (string * string) string) s k :
  cfg !! (s, k) = None -> SafeConfigParser.has_option cfg s k = false.
Proof.
  intros H. unfold SafeConfigParser.has_option. rewrite H.
  apply bool_decide_eq_false. intros [x Hx]. discriminate.
Qed.

Lemma read_paths_first_present cfg paths val s k :
  first_present cfg paths val s k ->
  Option.read_paths cfg paths = Ok (Some (val, s, k)).
Proof.
  intros (pre & post & -> & Hpre & Hs).
  induction Hpre as [| [s0 k0] pre H0 _ IH]; simpl.
  - destruct (has_option_Some _ _ _ _ Hs) as [-> ->]. reflexivity.
  - rewrite (has_option_None _ _ _ H0). exact IH.
Qed.

Lemma read_paths_all_absent cfg paths :
  all_absent cfg paths -> Option.read_paths cfg paths = Ok None.
Proof.
  intros (pairs & -> & Habs).
  induction Habs as [| [s0 k0] pre H0 _ IH]; simpl; [reflexivity |].
  rewrite (has_option_None _ _ _ H0). exact IH.
Qed.

Lemma from_config_present call o cfg val s k :
  first_present cfg (Option.config_paths o) val s k ->
  Option.from_config call o cfg = Option.from_present call o val s k.
Proof.
  intros H. unfold Option.from_config, Option._read_config_paths.
  rewrite (read_paths_first_present _ _ _ _ _ H). reflexivity.
Qed.

Lemma from_config_absent call o cfg :
  all_absent cfg (Option.config_paths o) ->
  Option.from_config call o cfg =
    if eqv (Option.required o) (Some true)
    then Ok (MissingMarker (missing_message (Option.config_paths o)))
    else Ok (Val (Option.default o)).
Proof.
  intros H. unfold Option.from_config, Option._read_config_paths.
  rewrite (read_paths_all_absent _ _ H). reflexivity.
Qed.

(** ** Decoding and checking the tokens *)

Lemma mapM_length {A B : Type} (f : A -> Result B) l ys :
  mapM f l = Ok ys -> length ys = length l.
Proof.
  revert ys. induction l as [| x l IH]; simpl; intros ys H.
  - injection H as <-. reflexivity.
  - destruct (f x) as [y |]; simpl in H; [| discriminate].
    destruct (mapM f l) as [ys' |]; simpl in H; [| discriminate].
    injection H as <-. simpl. f_equal. apply IH. reflexivity.
Qed.

Lemma mapM_no_type call o (tokens : list string) :
  Option.type o = None ->
  mapM (fun v => Option._get_value call o (PyStr.strip v)) tokens
  = Ok (map (fun v => VStr (PyStr.strip v)) tokens).
Proof.
  intros Hty. induction tokens as [| x l IH]; simpl; [reflexivity |].
  unfold Option._get_value at 1. rewrite Hty. simpl. rewrite IH. reflexivity.
Qed.

Lemma mapM_decode_error call o f (tokens : list string) e :
  mapM (fun v => Option._get_value call o (f v)) tokens = Err e -> is_decode_error e.
Proof.
  induction tokens as [| x l IH]; simpl; [discriminate |].
  destruct (Option._get_value call o (f x)) as [y |] eqn:E; simpl.
  - destruct (mapM _ l); simpl; [discriminate |].
    intros H. injection H as <-. apply IH. reflexivity.
  - intros H. injection H as <-. unfold Option._get_value in E.
    destruct (Option.type o) as [[g | v] |]; [| | discriminate].
    + destruct (call g (f x)); [discriminate |].
      injection E as <-. right. eauto.
    + injection E as <-. left. eauto.
Qed.

Lemma forM_check_no_choices o (values : list PyVal) :
  Option.choices o = None -> forM_ (Option._check_value o) values = Ok tt.
Proof.
  intros H. induction values as [| v l IH]; simpl; [reflexivity |].
  unfold Option._check_value at 1. rewrite H. simpl. exact IH.
Qed.

(** ** Tactics for concrete mappings *)

Ltac absent_pairs :=
  repeat (apply List.Forall_cons; [vm_compute; reflexivity |]);
  apply List.Forall_nil.

(** The first present path comes after the pairs [pre]. *)
Ltac present_after pre :=
  exists pre; eexists;
  split; [reflexivity | split; [absent_pairs | vm_compute; reflexivity]].

(** All the paths, which are the pairs [pairs], are absent. *)
Ltac all_absent_pairs pairs :=
  exists pairs; split; [reflexivity | absent_pairs].

(** ** The first present path wins *)

(** C6: [from_config] scans the config paths in declared order and
    resolves from the first (section, key) pair that the mapping has,
    whatever the later paths are; when no path is present and the Option is
    not required, it returns the declared default. *)
Theorem from_config_first_path_wins call o cfg :
  (forall val s k,
     first_present cfg (Option.config_paths o) val s k ->
     Option._read_config_paths o cfg = Ok (Some (val, s, k)) /\
     Option.from_config call o cfg = Option.from_present call o val s k) /\
  (all_absent cfg (Option.config_paths o) ->
   Option.required o <> Some true ->
   Option.from_config call o cfg = Ok (Val (Option.default o))).
Proof.
  split.
  - intros val s k H. split.
    + apply read_paths_first_present, H.
    + apply from_config_present, H.
  - intros Habs Hreq. rewrite from_config_absent by exact Habs.
    unfold eqv. rewrite bool_decide_eq_false_2 by exact Hreq. reflexivity.
Qed.

Lemma from_config_first_path_wins_witness :
  Option.from_config sample_call opt_host
    (<[("db", "host") := "b.example"]> (cfg1 "old" "host" "a.example"))
  = Ok (Val (VStr "a.example")) /\
  Option.from_config sample_call opt_host (cfg1 "db" "port" "80")
  = Ok (Val (VStr "localhost")).
Proof.
  split.
  - pose proof (from_config_first_path_wins sample_call opt_host
      (<[("db", "host") := "b.example"]> (cfg1 "old" "host" "a.example"))) as [H _].
    destruct (H "a.example" "old" "host") as [_ ->].
    + present_after (@nil (string * string)).
    + reflexivity.
  - apply (proj2 (from_config_first_path_wins sample_call opt_host (cfg1 "db" "port" "80"))).
    + all_absent_pairs [("old", "host"); ("db", "host")].
    + discriminate.
Defined.

(** ** The multi-valued branch of from_config *)

Lemma from_present_scalar call o val s k :
  Option.nargs o = None ->
  Option.from_present call o val s k =
    (let* value := Option._get_value call o val in
     let* _ := Option._check_value o value in
     Ok (Val value)).
Proof. intros H. unfold Option.from_present. rewrite H. reflexivity. Qed.

Lemma from_present_tokens call o n val s k tokens :
  Option.nargs o = Some n ->
  PyStr.split val (Option.split_char o) = Ok tokens ->
  Option.from_present call o val s k =
    (let* value := decode_tokens call o tokens in
     let* _ := Option.check_count n (length value) s k in
     let* _ := forM_ (Option._check_value o) value in
     Ok (Val (VList value))).
Proof.
  intros Hn Hs. unfold Option.from_present. rewrite Hn, Hs. reflexivity.
Qed.

Lemma eqv_refl {A : Type} `{EqDecision A} (x : A) : eqv x x = true.
Proof. unfold eqv. apply bool_decide_eq_true_2. reflexivity. Qed.

Lemma eqv_ne {A : Type} `{EqDecision A} (x y : A) : x <> y -> eqv x y = false.
Proof. unfold eqv. apply bool_decide_eq_false_2. Qed.

Lemma check_count_rule n len s k :
  count_rule n len -> Option.check_count n len s k = Ok tt.
Proof.
  unfold Option.check_count.
  intros [-> | [[-> Hlen] | (z & -> & Hz)]].
  - reflexivity.
  - rewrite eqv_refl. destruct len; [congruence | reflexivity].
  - rewrite !eqv_ne by discriminate. simpl.
    rewrite (proj2 (Z.eqb_eq _ _) Hz). reflexivity.
Qed.

Lemma check_count_violation n len s k :
  count_violation n len ->
  Option.check_count n len s k = Err (count_error n s k).
Proof.
  unfold Option.check_count.
  intros [[-> ->] | (z & -> & Hz)].
  - reflexivity.
  - rewrite !eqv_ne by discriminate. simpl.
    rewrite (proj2 (Z.eqb_neq _ _) Hz). reflexivity.
Qed.

Lemma forM_check_allowed o (values : list PyVal) :
  Forall (allowed o) values -> forM_ (Option._check_value o) values = Ok tt.
Proof.
  induction 1 as [| v l Hv _ IH]; simpl; [reflexivity |].
  unfold Option._check_value at 1.
  destruct (Option.choices o) as [cs |] eqn:E; simpl; [| exact IH].
  rewrite (Hv cs E). simpl. exact IH.
Qed.

Lemma forM_check_cases o (values : list PyVal) :
  forM_ (Option._check_value o) values = Ok tt \/
  exists v cs, forM_ (Option._check_value o) values
               = Err (ConfigArgumentError (InvalidChoice v cs)).
Proof.
  induction values as [| v l IH]; simpl; [left; reflexivity |].
  unfold Option._check_value at 1 3.
  destruct (Option.choices o) as [cs |]; simpl; [| exact IH].
  destruct (py_in v cs); simpl; [exact IH | right; eauto].
Qed.

Lemma forM_check_not_allowed o (values : list PyVal) :
  ~ Forall (allowed o) values ->
  exists v cs, forM_ (Option._check_value o) values
               = Err (ConfigArgumentError (InvalidChoice v cs)).
Proof.
  intros Hnot. destruct (forM_check_cases o values) as [Hok | H]; [| exact H].
  exfalso. apply Hnot. clear Hnot.
  induction values as [| v l IH]; [constructor |].
  simpl in Hok. unfold Option._check_value at 1 in Hok.
  destruct (Option.choices o) as [cs |] eqn:E; simpl in Hok.
  - destruct (py_in v cs) eqn:Hin; simpl in Hok; [| discriminate].
    constructor; [| exact (IH Hok)].
    intros cs' Hcs. unfold allowed. congruence.
  - constructor; [| exact (IH Hok)]. intros cs' Hcs. congruence.
Qed.

(** A separator that is a non-empty string always yields a token. *)
Lemma split_go_nonempty sep s skip cur : PyStr.split_go sep s skip cur <> [].
Proof.
  revert skip cur.
  induction s as [| c s IH]; intros skip cur; cbn [PyStr.split_go]; [discriminate |].
  destruct skip; [| apply IH].
  destruct (String.prefix sep (String c s)); [discriminate | apply IH].
Qed.

Lemma split_some_nonempty val sep tokens :
  PyStr.split val (Some sep) = Ok tokens -> tokens <> [].
Proof.
  destruct sep as [| c sep]; simpl; [discriminate |].
  intros H. injection H as <-. apply split_go_nonempty.
Qed.

(** C5, as the code has it: for an Option with no coercion and no
    allowed-value set and a mapping in which [(s, k)] is its first present
    path, holding [val]: [from_config] returns [val] unchanged when the
    multiplicity is scalar; when it is not, and [val] splits on the
    delimiter into tokens whose number satisfies the multiplicity rule, it
    returns the sequence of the whitespace-trimmed tokens. *)
Theorem from_config_no_coercion call o cfg val s k :
  Option.type o = None ->
  Option.choices o = None ->
  first_present cfg (Option.config_paths o) val s k ->
  (Option.nargs o = None ->
   Option.from_config call o cfg = Ok (Val (VStr val))) /\
  (forall n tokens,
     Option.nargs o = Some n ->
     PyStr.split val (Option.split_char o) = Ok tokens ->
     count_rule n (length tokens) ->
     Option.from_config call o cfg
     = Ok (Val (VList (map (fun t => VStr (PyStr.strip t)) tokens)))).
Proof.
  intros Hty Hch Hfp. rewrite (from_config_present _ _ _ _ _ _ Hfp). split.
  - intros Hn. rewrite from_present_scalar by exact Hn.
    unfold Option._get_value, Option._check_value. rewrite Hty, Hch. reflexivity.
  - intros n tokens Hn Hs Hrule.
    rewrite (from_present_tokens _ _ _ _ _ _ _ Hn Hs).
    unfold decode_tokens. rewrite mapM_no_type by exact Hty. simpl.
    rewrite length_map, check_count_rule by exact Hrule. simpl.
    rewrite forM_check_no_choices by exact Hch. reflexivity.
Qed.

Lemma from_config_no_coercion_witness :
  Option.from_config sample_call opt_host (cfg1 "db" "host" " a.example ")
  = Ok (Val (VStr " a.example ")) /\
  Option.from_config sample_call opt_pair (cfg1 "net" "pair" "a, b")
  = Ok (Val (VList [VStr "a"; VStr "b"])).
Proof.
  split.
  - apply (from_config_no_coercion sample_call opt_host
             (cfg1 "db" "host" " a.example ") " a.example " "db" "host");
      [reflexivity | reflexivity | present_after [("old", "host")] | reflexivity].
  - apply (proj2 (from_config_no_coercion sample_call opt_pair
                    (cfg1 "net" "pair" "a, b") "a, b" "net" "pair"
                    eq_refl eq_refl ltac:(present_after (@nil (string * string))))
             (NInt 2) ["a"; " b"] eq_refl eq_refl).
    right. right. exists 2%Z. split; reflexivity.
Defined.

(** C5 as stated fails: with a fixed count of two and three tokens,
    [from_config] raises the count error instead of returning the three
    trimmed substrings, although the Option has no coercion and no
    allowed-value set and its config path is present. *)
Lemma from_config_no_coercion_counterexample :
  Option.type opt_pair = None /\
  Option.choices opt_pair = None /\
  Option.nargs opt_pair = Some (NInt 2) /\
  cfg1 "net" "pair" "a,b,c" !! ("net", "pair") = Some "a,b,c" /\
  PyStr.split "a,b,c" (Option.split_char opt_pair) = Ok ["a"; "b"; "c"] /\
  Option.from_config sample_call opt_pair (cfg1 "net" "pair" "a,b,c")
  = Err (ConfigArgumentError (ExactlyNValues (NInt 2) "net" "pair")) /\
  Option.from_config sample_call opt_pair (cfg1 "net" "pair" "a,b,c")
  <> Ok (Val (VList [VStr "a"; VStr "b"; VStr "c"])).
Proof. repeat split; try reflexivity. discriminate. Qed.

(** ** Fixed-count options *)

(** C4, as the code has it: for an Option with fixed count [N] whose
    first present path holds a value that splits into [tokens], the tokens
    are decoded first and a decoding failure is the error raised; when
    they decode and their number differs from [N], the count-mismatch error
    is raised; when their number is [N], the sequence of the [N] decoded
    tokens is returned if each passes the allowed-value check, and the
    invalid-choice error is raised if one does not. *)
Theorem from_config_fixed_count call o cfg N val s k tokens :
  Option.nargs o = Some (NInt N) ->
  first_present cfg (Option.config_paths o) val s k ->
  PyStr.split val (Option.split_char o) = Ok tokens ->
  (forall e, decode_tokens call o tokens = Err e ->
             Option.from_config call o cfg = Err e) /\
  (forall values,
     decode_tokens call o tokens = Ok values ->
     (Z.of_nat (length tokens) <> N ->
      Option.from_config call o cfg
      = Err (ConfigArgumentError (ExactlyNValues (NInt N) s k))) /\
     (Z.of_nat (length tokens) = N ->
      Forall (allowed o) values ->
      Option.from_config call o cfg = Ok (Val (VList values)) /\
      Z.of_nat (length values) = N) /\
     (Z.of_nat (length tokens) = N ->
      ~ Forall (allowed o) values ->
      exists v cs, Option.from_config call o cfg
                   = Err (ConfigArgumentError (InvalidChoice v cs)))).
Proof.
  intros Hn Hfp Hs.
  rewrite (from_config_present _ _ _ _ _ _ Hfp).
  rewrite (from_present_tokens _ _ _ _ _ _ _ Hn Hs).
  split.
  - intros e ->. reflexivity.
  - intros values Hd. rewrite Hd. simpl.
    pose proof (mapM_length _ _ _ Hd) as Hlen. rewrite Hlen.
    split; [| split].
    + intros Hne. rewrite check_count_violation; [reflexivity |].
      right. exists N. split; [reflexivity | exact Hne].
    + intros Heq Hall. rewrite check_count_rule.
      * simpl. rewrite forM_check_allowed by exact Hall. simpl.
        split; [reflexivity | congruence].
      * right. right. exists N. split; [reflexivity | exact Heq].
    + intros Heq Hnot. rewrite check_count_rule.
      * simpl. destruct (forM_check_not_allowed o values Hnot) as (v & cs & ->).
        exists v, cs. reflexivity.
      * right. right. exists N. split; [reflexivity | exact Heq].
Qed.

Lemma from_config_fixed_count_witness :
  Option.from_config sample_call opt_pair_int (cfg1 "net" "pair" "4, 5")
  = Ok (Val (VList [VInt 4; VInt 5])) /\
  Option.from_config sample_call opt_pair_int (cfg1 "net" "pair" "4,5,6")
  = Err (ConfigArgumentError (ExactlyNValues (NInt 2) "net" "pair")).
Proof.
  split.
  - pose proof (from_config_fixed_count sample_call opt_pair_int
      (cfg1 "net" "pair" "4, 5") 2 "4, 5" "net" "pair" ["4"; " 5"] eq_refl
      ltac:(present_after (@nil (string * string))) eq_refl) as [_ H].
    destruct (H [VInt 4; VInt 5] eq_refl) as (_ & H2 & _).
    apply H2; [reflexivity |].
    repeat constructor; intros cs Hcs; discriminate Hcs.
  - pose proof (from_config_fixed_count sample_call opt_pair_int
      (cfg1 "net" "pair" "4,5,6") 2 "4,5,6" "net" "pair" ["4"; "5"; "6"] eq_refl
      ltac:(present_after (@nil (string * string))) eq_refl) as [_ H].
    destruct (H [VInt 4; VInt 5; VInt 6] eq_refl) as (H1 & _).
    apply H1. discriminate.
Defined.

(** C4 as stated fails twice over: with [type=int] and the three tokens
    of "a,b,c" for a count of two, the error raised is the one of [int]
    on "a", not the count-mismatch error; and with two tokens for a count
    of two, of which "z" is not an allowed value, the invalid-choice error
    is raised instead of the sequence being returned. *)
Lemma from_config_fixed_count_counterexample :
  (Option.nargs opt_pair_int = Some (NInt 2) /\
   PyStr.split "a,b,c" (Option.split_char opt_pair_int) = Ok ["a"; "b"; "c"] /\
   Option.from_config sample_call opt_pair_int (cfg1 "net" "pair" "a,b,c")
   = Err (CallableRaised 0 "a")) /\
  (Option.nargs opt_pair_xy = Some (NInt 2) /\
   PyStr.split "x,z" (Option.split_char opt_pair_xy) = Ok ["x"; "z"] /\
   Option.from_config sample_call opt_pair_xy (cfg1 "net" "pair" "x,z")
   = Err (ConfigArgumentError (InvalidChoice (VStr "z") [VStr "x"; VStr "y"]))).
Proof. repeat split; reflexivity. Qed.

(** ** The order of decoding, count check and allowed-value check *)

(** C10: for a multi-valued Option whose present value splits into a
    number of tokens that breaks the multiplicity rule, every token is
    decoded before the count is checked, so the error raised is the first
    decoding error if there is one and the count error otherwise; it is
    never the error of the allowed-value check. *)
Theorem count_check_precedes_choices call o cfg n val s k tokens :
  Option.nargs o = Some n ->
  first_present cfg (Option.config_paths o) val s k ->
  PyStr.split val (Option.split_char o) = Ok tokens ->
  count_violation n (length tokens) ->
  (forall e, decode_tokens call o tokens = Err e ->
             Option.from_config call o cfg = Err e /\ is_decode_error e) /\
  (forall values, decode_tokens call o tokens = Ok values ->
                  Option.from_config call o cfg = Err (count_error n s k)) /\
  (exists e, Option.from_config call o cfg = Err e /\ ~ is_choice_error e).
Proof.
  intros Hn Hfp Hs Hviol.
  rewrite (from_config_present _ _ _ _ _ _ Hfp).
  rewrite (from_present_tokens _ _ _ _ _ _ _ Hn Hs).
  assert (Hcount : forall values, decode_tokens call o tokens = Ok values ->
            Option.check_count n (length values) s k = Err (count_error n s k)).
  { intros values Hd. rewrite (mapM_length _ _ _ Hd).
    apply check_count_violation, Hviol. }
  split; [| split].
  - intros e Hd. rewrite Hd. split; [reflexivity |].
    exact (mapM_decode_error _ _ _ _ _ Hd).
  - intros values Hd. rewrite Hd. simpl. rewrite (Hcount _ Hd). reflexivity.
  - destruct (decode_tokens call o tokens) as [values | e] eqn:Hd.
    + exists (count_error n s k). simpl. rewrite (Hcount _ eq_refl).
      split; [reflexivity |].
      intros (v & cs & H). destruct n; discriminate H.
    + exists e. split; [reflexivity |].
      intros (v & cs & ->).
      destruct (mapM_decode_error _ _ _ _ _ Hd) as [(names & H) | (f & a & H)];
        discriminate H.
Qed.

Lemma count_check_precedes_choices_witness :
  Option.from_config sample_call opt_pair_xy (cfg1 "net" "pair" "x,z,q")
  = Err (ConfigArgumentError (ExactlyNValues (NInt 2) "net" "pair")).
Proof.
  pose proof (count_check_precedes_choices sample_call opt_pair_xy
    (cfg1 "net" "pair" "x,z,q") (NInt 2) "x,z,q" "net" "pair" ["x"; "z"; "q"]
    eq_refl ltac:(present_after (@nil (string * string))) eq_refl) as H.
  destruct H as (_ & H & _).
  - right. exists 2%Z. split; [reflexivity | discriminate].
  - exact (H [VStr "x"; VStr "z"; VStr "q"] eq_refl).
Defined.

(** ** One-or-more options and the empty string *)

(** With a separator that is a string, [split] yields at least one token,
    so the at-least-one-value check of ['+'] cannot fail. *)
Lemma one_or_more_never_raises call o cfg val s k sep :
  Option.nargs o = Some (NStr "+") ->
  Option.split_char o = Some sep ->
  first_present cfg (Option.config_paths o) val s k ->
  Option.from_config call o cfg <> Err (ConfigArgumentError (AtLeastOneValue s k)).
Proof.
  intros Hn Hsep Hfp.
  rewrite (from_config_present _ _ _ _ _ _ Hfp).
  destruct (PyStr.split val (Option.split_char o)) as [tokens | e] eqn:Hs.
  - rewrite (from_present_tokens _ _ _ _ _ _ _ Hn Hs).
    destruct (decode_tokens call o tokens) as [values | e] eqn:Hd; simpl.
    + rewrite check_count_rule.
      * simpl. destruct (forM_check_cases o values) as [-> | (v & cs & ->)];
          discriminate.
      * right. left. split; [reflexivity |].
        rewrite (mapM_length _ _ _ Hd). rewrite Hsep in Hs.
        apply split_some_nonempty in Hs. destruct tokens; [congruence | discriminate].
    + intros H. injection H as ->.
      destruct (mapM_decode_error _ _ _ _ _ Hd) as [(names & H) | (f & a & H)];
        discriminate H.
  - unfold Option.from_present. rewrite Hn, Hs. simpl.
    rewrite Hsep in Hs. destruct sep; simpl in Hs; [| discriminate].
    injection Hs as <-. discriminate.
Qed.

(** C3, at the failing input: for [Option("db:hosts", "--hosts",
    nargs="+")] and a mapping that holds the empty string at [db]/[hosts],
    [from_config] does not raise: the empty string splits into the one
    token "", and the list of that token is returned. *)
Theorem one_or_more_empty_string call :
  cfg1 "db" "hosts" "" !! ("db", "hosts") = Some "" /\
  Option.nargs opt_hosts_plus = Some (NStr "+") /\
  Option.from_config call opt_hosts_plus (cfg1 "db" "hosts" "")
  = Ok (Val (VList [VStr ""])).
Proof. repeat split; reflexivity. Qed.

(** ** Equality of Options and the declared options *)

Lemma __eq___true_iff (self other : Option.t) :
  Option.__eq__ self other = true <-> self = other.
Proof.
  unfold Option.__eq__, eqv. rewrite !andb_true_iff, !bool_decide_eq_true.
  destruct self, other; simpl. split.
  - intros H. decompose [and] H. subst. reflexivity.
  - intros H. injection H as -> -> -> -> -> -> -> -> -> -> -> -> -> ->.
    repeat split; reflexivity.
Qed.

Lemma __eq___refl (o : Option.t) : Option.__eq__ o o = true.
Proof. apply __eq___true_iff. reflexivity. Qed.

Lemma mem_true_iff o l : Option.mem o l = true <-> In o l.
Proof.
  unfold Option.mem. rewrite existsb_exists. split.
  - intros (e & Hin & He). apply __eq___true_iff in He. subst. exact Hin.
  - intros Hin. exists o. split; [exact Hin | apply __eq___refl].
Qed.

Lemma copies_app o l1 l2 : copies o (l1 ++ l2) = copies o l1 + copies o l2.
Proof. induction l1 as [| e l1 IH]; simpl; [reflexivity | rewrite IH; lia]. Qed.

Lemma copies_not_in o l : ~ In o l -> copies o l = 0.
Proof.
  induction l as [| e l IH]; simpl; [reflexivity |].
  intros H. destruct (Option.__eq__ o e) eqn:E.
  - apply __eq___true_iff in E. subst. tauto.
  - rewrite IH; tauto.
Qed.

Lemma copies_in o l : In o l -> 1 <= copies o l.
Proof.
  induction l as [| e l IH]; simpl; [tauto |].
  intros [-> | H].
  - rewrite __eq___refl. lia.
  - specialize (IH H). lia.
Qed.

Lemma copies_NoDup o l : NoDup l -> copies o l <= 1.
Proof.
  induction 1 as [| e l Hnotin _ IH]; simpl; [lia |].
  destruct (Option.__eq__ o e) eqn:E; [| lia].
  apply __eq___true_iff in E. subst.
  rewrite copies_not_in; [lia |].
  intros H. apply Hnotin. apply list_elem_of_In. exact H.
Qed.

Lemma options_append_option self o :
  ConfigBackedArgumentParser.options (ConfigBackedArgumentParser.append_option self o)
  = if Option.mem o (ConfigBackedArgumentParser.options self)
    then ConfigBackedArgumentParser.options self
    else ConfigBackedArgumentParser.options self ++ [o].
Proof.
  unfold ConfigBackedArgumentParser.append_option.
  destruct (Option.mem o (ConfigBackedArgumentParser.options self)); reflexivity.
Qed.

Lemma append_option_NoDup self o :
  NoDup (ConfigBackedArgumentParser.options self) ->
  NoDup (ConfigBackedArgumentParser.options (ConfigBackedArgumentParser.append_option self o)).
Proof.
  intros H. rewrite options_append_option.
  destruct (Option.mem o (ConfigBackedArgumentParser.options self)) eqn:E; [exact H |].
  apply NoDup_app. split; [exact H | split].
  - intros x Hx Hx'. apply list_elem_of_In in Hx, Hx'.
    destruct Hx' as [<- | []]. apply mem_true_iff in Hx. congruence.
  - apply NoDup_singleton.
Qed.

Lemma append_option_keeps self o e :
  In e (ConfigBackedArgumentParser.options self) ->
  In e (ConfigBackedArgumentParser.options (ConfigBackedArgumentParser.append_option self o)).
Proof.
  intros H. rewrite options_append_option.
  destruct (Option.mem o _); [exact H | apply in_or_app; left; exact H].
Qed.

Lemma append_option_adds self o :
  In o (ConfigBackedArgumentParser.options (ConfigBackedArgumentParser.append_option self o)).
Proof.
  rewrite options_append_option.
  destruct (Option.mem o _) eqn:E.
  - apply mem_true_iff, E.
  - apply in_or_app. right. left. reflexivity.
Qed.

Lemma extend_options_NoDup new self :
  NoDup (ConfigBackedArgumentParser.options self) ->
  NoDup (ConfigBackedArgumentParser.options (ConfigBackedArgumentParser.extend_options self new)).
Proof.
  revert self. induction new as [| o new IH]; intros self H; simpl; [exact H |].
  apply IH, append_option_NoDup, H.
Qed.

Lemma extend_options_keeps new self e :
  In e (ConfigBackedArgumentParser.options self) ->
  In e (ConfigBackedArgumentParser.options (ConfigBackedArgumentParser.extend_options self new)).
Proof.
  revert self. induction new as [| o new IH]; intros self H; simpl; [exact H |].
  apply IH, append_option_keeps, H.
Qed.

Lemma extend_options_adds new self e :
  In e new ->
  In e (ConfigBackedArgumentParser.options (ConfigBackedArgumentParser.extend_options self new)).
Proof.
  revert self. induction new as [| o new IH]; intros self H; simpl; [destruct H |].
  destruct H as [-> | H].
  - apply extend_options_keeps, append_option_adds.
  - apply IH, H.
Qed.

(** C7: two Options built from the same names and keyword arguments are
    equal; Options are equal exactly when all their fields are; so, on
    declared options without duplicates, [extend_options] leaves exactly
    one copy of every Option that is declared already or occurs in the
    given list, and appending the same Option a second time changes
    nothing. *)
Theorem option_equality_dedup :
  (forall names kwargs,
     Option.__eq__ (Option.__init__ names kwargs) (Option.__init__ names kwargs) = true) /\
  (forall a b,
     Option.__eq__ a b = true <->
     Option.action a = Option.action b /\
     Option.nargs a = Option.nargs b /\
     Option.const a = Option.const b /\
     Option.default a = Option.default b /\
     Option.type a = Option.type b /\
     Option.choices a = Option.choices b /\
     Option.required a = Option.required b /\
     Option.help a = Option.help b /\
     Option.metavar a = Option.metavar b /\
     Option.dest a = Option.dest b /\
     Option.split_char a = Option.split_char b /\
     Option.config_paths a = Option.config_paths b /\
     Option.args a = Option.args b /\
     Option.options a = Option.options b) /\
  (forall self new o,
     NoDup (ConfigBackedArgumentParser.options self) ->
     (exists e, Option.__eq__ o e = true /\
                (In e (ConfigBackedArgumentParser.options self) \/ In e new)) ->
     copies o (ConfigBackedArgumentParser.options
                 (ConfigBackedArgumentParser.extend_options self new)) = 1) /\
  (forall self o,
     ConfigBackedArgumentParser.append_option
       (ConfigBackedArgumentParser.append_option self o) o
     = ConfigBackedArgumentParser.append_option self o).
Proof.
  split; [| split; [| split]].
  - intros names kwargs. apply __eq___refl.
  - intros a b. rewrite __eq___true_iff. split.
    + intros ->. repeat split; reflexivity.
    + destruct a, b; simpl. intros H. decompose [and] H. subst. reflexivity.
  - intros self new o Hnd (e & He & Hin).
    apply __eq___true_iff in He. subst e.
    pose proof (copies_NoDup o _ (extend_options_NoDup new self Hnd)) as Hle.
    assert (Hge : 1 <= copies o (ConfigBackedArgumentParser.options
                       (ConfigBackedArgumentParser.extend_options self new))).
    { apply copies_in. destruct Hin as [Hin | Hin].
      - apply extend_options_keeps, Hin.
      - apply extend_options_adds, Hin. }
    lia.
  - intros self o.
    unfold ConfigBackedArgumentParser.append_option at 1.
    rewrite (proj2 (mem_true_iff o _) (append_option_adds self o)). reflexivity.
Qed.

Lemma option_equality_dedup_witness :
  copies opt_host
    (ConfigBackedArgumentParser.options
       (ConfigBackedArgumentParser.extend_options
          (ConfigBackedArgumentParser.append_option
             (ConfigBackedArgumentParser.__init__ None) opt_host)
          [opt_pair; opt_host; opt_pair])) = 1.
Proof.
  apply (proj1 (proj2 (proj2 option_equality_dedup))).
  - simpl. apply NoDup_singleton.
  - exists opt_host. split; [reflexivity | left; left; reflexivity].
Defined.

(** ** Options without a commandline name *)

Lemma getattr_setattr_eq ns name v :
  Argparse.getattr (Argparse.setattr ns name v) name = Some v.
Proof.
  induction ns as [| [k x] ns IH]; simpl.
  - rewrite String.eqb_refl. reflexivity.
  - destruct (String.eqb k name) eqn:E; simpl; rewrite E; [reflexivity | exact IH].
Qed.

Lemma getattr_setattr_ne ns name name' v :
  name <> name' ->
  Argparse.getattr (Argparse.setattr ns name v) name' = Argparse.getattr ns name'.
Proof.
  intros Hne. induction ns as [| [k x] ns IH]; simpl.
  - rewrite (proj2 (String.eqb_neq _ _) Hne). reflexivity.
  - destruct (String.eqb k name) eqn:E; simpl.
    + apply String.eqb_eq in E. subst k.
      rewrite (proj2 (String.eqb_neq _ _) Hne). reflexivity.
    + destruct (String.eqb k name'); [reflexivity | exact IH].
Qed.

Lemma fold_setattr_frame (paths : list (list string)) v ns attr :
  ~ In attr (map (PyStr.join "_") paths) ->
  Argparse.getattr
    (fold_left (fun ns path => Argparse.setattr ns (PyStr.join "_" path) v) paths ns) attr
  = Argparse.getattr ns attr.
Proof.
  revert ns. induction paths as [| p paths IH]; intros ns Hnot; simpl; [reflexivity |].
  rewrite IH.
  - apply getattr_setattr_ne. intros H. apply Hnot. left. exact H.
  - intros H. apply Hnot. right. exact H.
Qed.

Lemma fold_setattr_written (paths : list (list string)) v ns path :
  In path paths ->
  Argparse.getattr
    (fold_left (fun ns path => Argparse.setattr ns (PyStr.join "_" path) v) paths ns)
    (PyStr.join "_" path)
  = Some v.
Proof.
  revert path ns.
  induction paths as [| p paths IH]; intros path ns Hin; simpl; [destruct Hin |].
  destruct (in_dec (List.list_eq_dec String.string_dec) path paths) as [Hlater | Hnot].
  - apply IH, Hlater.
  - destruct Hin as [-> | Hin]; [| tauto].
    destruct (in_dec String.string_dec (PyStr.join "_" path)
                (map (PyStr.join "_") paths)) as [Hkey | Hkey].
    + apply in_map_iff in Hkey. destruct Hkey as (path' & Heq & Hin').
      rewrite <- Heq. apply IH, Hin'.
    + rewrite fold_setattr_frame by exact Hkey. apply getattr_setattr_eq.
Qed.

(** C8: an Option with neither positional nor flag names leaves the flag
    parser as it was; the value read from the configuration is written to
    the namespace under every config path joined with an underscore, and
    the other attributes of the namespace are untouched. *)
Theorem config_only_option_bypasses_parser o argparser from_config ns :
  Option.args o = [] ->
  Option.options o = [] ->
  (exists ns',
     Option.add_to_parser o argparser from_config (Some ns) = Ok (argparser, Some ns') /\
     (forall path, In path (Option.config_paths o) ->
                   Argparse.getattr ns' (PyStr.join "_" path) = Some from_config) /\
     (forall attr, ~ In attr (map (PyStr.join "_") (Option.config_paths o)) ->
                   Argparse.getattr ns' attr = Argparse.getattr ns attr)) /\
  Option.add_to_parser o argparser from_config None = Ok (argparser, None).
Proof.
  intros Hargs Hopts. unfold Option.add_to_parser. rewrite Hargs, Hopts. simpl.
  split; [| reflexivity].
  eexists. split; [reflexivity | split].
  - intros path Hin. apply fold_setattr_written, Hin.
  - intros attr Hnot. apply fold_setattr_frame, Hnot.
Qed.

Lemma config_only_option_bypasses_parser_witness :
  exists ns',
    Option.add_to_parser opt_db_host (Argparse.new true) (Val (VStr "a.example"))
      (Some [("config", Val VNone)])
    = Ok (Argparse.new true, Some ns') /\
    Argparse.getattr ns' "db_host" = Some (Val (VStr "a.example")) /\
    Argparse.getattr ns' "config" = Some (Val VNone).
Proof.
  destruct (config_only_option_bypasses_parser opt_db_host (Argparse.new true)
              (Val (VStr "a.example")) [("config", Val VNone)] eq_refl eq_refl)
    as [(ns' & H & Hw & Hf) _].
  exists ns'. split; [exact H | split].
  - apply (Hw ["db"; "host"]). left. reflexivity.
  - rewrite Hf; [reflexivity |]. simpl. intros [H' | []]. discriminate H'.
Defined.

(** ** The order in which the configuration files are read *)

Lemma lookup_read (fs : string -> option (gmap (string * string) string)) (c : gmap (string * string) string) path key :
  SafeConfigParser.read fs c path !! key =
    match fs path with
    | Some file =>
        match file !! key with
        | Some v => Some v
        | None => c !! key
        end
    | None => c !! key
    end.
Proof.
  unfold SafeConfigParser.read. destruct (fs path) as [file |]; [| reflexivity].
  destruct (file !! key) as [v |] eqn:E.
  - apply lookup_union_Some_l, E.
  - apply lookup_union_r, E.
Qed.

Lemma lookup_read_defines (fs : string -> option (gmap (string * string) string)) (c : gmap (string * string) string) path key v :
  defines fs path key v -> SafeConfigParser.read fs c path !! key = Some v.
Proof. intros (file & Hf & Hv). rewrite lookup_read, Hf, Hv. reflexivity. Qed.

Lemma lookup_read_silent (fs : string -> option (gmap (string * string) string)) (c : gmap (string * string) string) path key :
  silent fs key path -> SafeConfigParser.read fs c path !! key = c !! key.
Proof.
  intros H. rewrite lookup_read. destruct (fs path) as [file |] eqn:Hf; [| reflexivity].
  rewrite (H file Hf). reflexivity.
Qed.

Lemma lookup_fold_read_silent (fs : string -> option (gmap (string * string) string))
  (paths : list string) (c : gmap (string * string) string) key :
  Forall (silent fs key) paths ->
  fold_left (SafeConfigParser.read fs) paths c !! key = c !! key.
Proof.
  intros H. revert c. induction H as [| p paths Hp _ IH]; intros c; simpl; [reflexivity |].
  rewrite IH. apply lookup_read_silent, Hp.
Qed.

(** C9, as the code has it: the primary file is read first and the
    additional files after it, in their order, and a file read later
    replaces what is there for the same section and key.  So the merged
    mapping holds, for a key, the value of the last additional file that
    defines it, whatever the primary file says, and the value of the
    primary file only when no additional file defines the key. *)
Theorem additional_configs_override_primary
  (fs : string -> option (gmap (string * string) string)) primary additional key :
  (forall pre path post v,
     additional = pre ++ path :: post ->
     defines fs path key v ->
     Forall (silent fs key) post ->
     ConfigBackedArgumentParser.load_config fs primary additional !! key = Some v) /\
  (Forall (silent fs key) additional ->
   ConfigBackedArgumentParser.load_config fs primary additional !! key =
     match primary with
     | Some path =>
         match fs path with
         | Some file => file !! key
         | None => None
         end
     | None => None
     end).
Proof.
  unfold ConfigBackedArgumentParser.load_config. split.
  - intros pre path post v -> Hdef Hpost.
    rewrite fold_left_app. simpl.
    rewrite lookup_fold_read_silent by exact Hpost.
    apply lookup_read_defines, Hdef.
  - intros Hall. rewrite lookup_fold_read_silent by exact Hall.
    destruct primary as [path |]; [| apply lookup_empty].
    rewrite lookup_read. unfold SafeConfigParser.empty.
    destruct (fs path) as [file |]; [| apply lookup_empty].
    destruct (file !! key); [reflexivity | apply lookup_empty].
Qed.

Lemma additional_configs_override_primary_witness :
  ConfigBackedArgumentParser.load_config fs_both (Some "primary.ini")
    ["missing.ini"; "extra.ini"] !! ("db", "host") = Some "from-extra" /\
  ConfigBackedArgumentParser.load_config fs_both (Some "primary.ini")
    ["missing.ini"] !! ("db", "host") = Some "from-primary".
Proof.
  split.
  - apply (proj1 (additional_configs_override_primary fs_both (Some "primary.ini")
                    ["missing.ini"; "extra.ini"] ("db", "host"))
             ["missing.ini"] "extra.ini" [] "from-extra").
    + reflexivity.
    + exists (cfg1 "db" "host" "from-extra"). split; reflexivity.
    + constructor.
  - apply (proj2 (additional_configs_override_primary fs_both (Some "primary.ini")
                    ["missing.ini"] ("db", "host"))).
    constructor; [| constructor]. intros file H. discriminate H.
Defined.

(** C9 as stated fails: the primary file, whether it is the default or
    given with [-c], and the additional file both define [db]/[host], and
    the merged mapping and the resolved namespace hold the value of the
    additional file. *)
Lemma additional_configs_override_primary_counterexample :
  fs_both "primary.ini" = Some (cfg1 "db" "host" "from-primary") /\
  fs_both "extra.ini" = Some (cfg1 "db" "host" "from-extra") /\
  ConfigBackedArgumentParser.load_config fs_both (Some "primary.ini") ["extra.ini"]
    !! ("db", "host") = Some "from-extra" /\
  ConfigBackedArgumentParser.parse_args sample_call fs_both
    (ConfigBackedArgumentParser.mk (Some "primary.ini") "-c" "--config" None None
       [opt_db_host] ["extra.ini"]) []
  = Ok [("db_host", Val (VStr "from-extra")); ("config", Val (VStr "primary.ini"))] /\
  ConfigBackedArgumentParser.parse_args sample_call fs_both
    (ConfigBackedArgumentParser.mk None "-c" "--config" None None
       [opt_db_host] ["extra.ini"]) ["-c"; "primary.ini"]
  = Ok [("db_host", Val (VStr "from-extra")); ("config", Val (VStr "primary.ini"))].
Proof. repeat split; vm_compute; reflexivity. Qed.

(** ** Reconciliation of the required options *)

Lemma check_required_first_marker ns msg :
  first_marker ns msg ->
  ConfigBackedArgumentParser._check_required_config ns
  = Err (MissingConfigArgumentError msg).
Proof.
  intros (pre & attr & post & -> & Hpre).
  induction Hpre as [| [k x] pre Hx _ IH]; simpl; [reflexivity |].
  destruct x; [exact IH | discriminate Hx].
Qed.

Lemma only_marker_first ns msg : only_marker ns msg -> first_marker ns msg.
Proof.
  intros [[attr Hin] Hall].
  induction ns as [| [k x] ns IH]; [destruct Hin |].
  destruct x as [v | m].
  - destruct IH as (pre & attr' & post & -> & Hpre).
    + destruct Hin as [H | H]; [discriminate H | exact H].
    + intros a m H. apply (Hall a). right. exact H.
    + exists ((k, Val v) :: pre), attr', post. split; [reflexivity |].
      constructor; [reflexivity | exact Hpre].
  - rewrite (Hall k m) by (left; reflexivity).
    exists [], k, ns. split; [reflexivity | constructor].
Qed.


(** C2, as the code has it: for a required Option none of whose config
    paths is present, [from_config] returns the missing-required error
    as a value, with a message that names the config paths.  A resolution
    call raises, in its scan of the final namespace, the first marker that
    the scan meets; so it raises exactly the error of this Option when its
    marker is the only one that survives to the final namespace. *)
Theorem missing_required_deferred call o cfg :
  Option.required o = Some true ->
  all_absent cfg (Option.config_paths o) ->
  Option.from_config call o cfg
  = Ok (MissingMarker (missing_message (Option.config_paths o))) /\
  (forall ns msg,
     first_marker ns msg ->
     ConfigBackedArgumentParser._check_required_config ns
     = Err (MissingConfigArgumentError msg)) /\
  (forall fs self argv parser ns0 ns,
     ConfigBackedArgumentParser._setup_parser call fs self (Argparse.new true) argv
     = Ok (parser, ns0) ->
     Argparse.parse_args call parser argv ns0 = Ok ns ->
     only_marker ns (missing_message (Option.config_paths o)) ->
     ConfigBackedArgumentParser.parse_args call fs self argv
     = Err (MissingConfigArgumentError (missing_message (Option.config_paths o)))) /\
  (forall fs self argv parser ns0 ns rest,
     ConfigBackedArgumentParser._setup_parser call fs self (Argparse.new true) argv
     = Ok (parser, ns0) ->
     Argparse.parse_known_args call parser argv ns0 = Ok (ns, rest) ->
     only_marker ns (missing_message (Option.config_paths o)) ->
     ConfigBackedArgumentParser.parse_known_args call fs self argv
     = Err (MissingConfigArgumentError (missing_message (Option.config_paths o)))) /\
  (forall fs self argv parser ns0 ns rest,
     ConfigBackedArgumentParser._setup_parser call fs self (Argparse.new false) argv
     = Ok (parser, ns0) ->
     Argparse.parse_known_args call parser argv ns0 = Ok (ns, rest) ->
     only_marker ns (missing_message (Option.config_paths o)) ->
     ConfigBackedArgumentParser.bootstrap_parse call fs self argv
     = Err (MissingConfigArgumentError (missing_message (Option.config_paths o)))).
Proof.
  intros Hreq Habs. split; [| split; [| split; [| split]]].
  - rewrite from_config_absent by exact Habs. rewrite Hreq, eqv_refl. reflexivity.
  - exact check_required_first_marker.
  - intros fs self argv parser ns0 ns Hsetup Hparse Honly.
    unfold ConfigBackedArgumentParser.parse_args.
    rewrite Hsetup. simpl. rewrite Hparse. simpl.
    rewrite (check_required_first_marker _ _ (only_marker_first _ _ Honly)).
    reflexivity.
  - intros fs self argv parser ns0 ns rest Hsetup Hparse Honly.
    unfold ConfigBackedArgumentParser.parse_known_args.
    rewrite Hsetup. simpl. rewrite Hparse. simpl.
    rewrite (check_required_first_marker _ _ (only_marker_first _ _ Honly)).
    reflexivity.
  - intros fs self argv parser ns0 ns rest Hsetup Hparse Honly.
    unfold ConfigBackedArgumentParser.bootstrap_parse.
    rewrite Hsetup. simpl. rewrite Hparse. simpl.
    rewrite (check_required_first_marker _ _ (only_marker_first _ _ Honly)).
    reflexivity.
Qed.

Lemma missing_required_deferred_witness :
  Option.from_config sample_call opt_db_host (cfg1 "db" "port" "80")
  = Ok (MissingMarker "No configuration value found for required Option(db:host)") /\
  ConfigBackedArgumentParser.parse_args sample_call no_files
    (ConfigBackedArgumentParser.append_option
       (ConfigBackedArgumentParser.__init__ None) opt_db_host) []
  = Err (MissingConfigArgumentError
           "No configuration value found for required Option(db:host)").
Proof.
  pose proof (missing_required_deferred sample_call opt_db_host (cfg1 "db" "port" "80")
    eq_refl ltac:(all_absent_pairs [("db", "host")])) as (H1 & _ & H2 & _).
  split; [exact H1 |].
  apply (H2 no_files _ []
           (Argparse.mkParser
              [Argparse.help_action;
               Argparse.mkAction ["-c"; "--config"] (Some "config") None (Val VNone)
                 None None false Argparse.StoreAction])
           [("db_host",
             MissingMarker "No configuration value found for required Option(db:host)")]
           [("db_host",
             MissingMarker "No configuration value found for required Option(db:host)");
            ("config", Val VNone)]).
  - vm_compute. reflexivity.
  - vm_compute. reflexivity.
  - split.
    + exists "db_host". left. reflexivity.
    + intros attr m [H | [H | []]]; [injection H as _ <-; reflexivity | discriminate H].
Defined.

(** C2 as stated fails: two required Options lack their config values
    and have no commandline name.  The markers of both survive to the
    final namespace, and the call raises the error of the one that the
    scan meets first, which names the config paths of that one only: for
    the other Option the error raised is not its own.  Which of the two
    that is depends on the order of the scan, here on the order of
    declaration. *)
Lemma missing_required_deferred_counterexample :
  Option.required opt_db_port = Some true /\
  Option.from_config sample_call opt_db_port
    (ConfigBackedArgumentParser.load_config no_files None [])
  = Ok (MissingMarker "No configuration value found for required Option(db:port)") /\
  (exists parser ns0 ns,
     ConfigBackedArgumentParser._setup_parser sample_call no_files parser_two_required
       (Argparse.new true) [] = Ok (parser, ns0) /\
     Argparse.parse_args sample_call parser [] ns0 = Ok ns /\
     In ("db_port",
         MissingMarker "No configuration value found for required Option(db:port)") ns) /\
  ConfigBackedArgumentParser.parse_args sample_call no_files parser_two_required []
  = Err (MissingConfigArgumentError
           "No configuration value found for required Option(db:host)") /\
  ConfigBackedArgumentParser.parse_args sample_call no_files parser_two_required []
  <> Err (MissingConfigArgumentError
            "No configuration value found for required Option(db:port)") /\
  ConfigBackedArgumentParser.parse_args sample_call no_files parser_two_required' []
  = Err (MissingConfigArgumentError
           "No configuration value found for required Option(db:port)").
Proof.
  split; [reflexivity |]. split; [vm_compute; reflexivity |]. split.
  - eexists _, _, _. split; [vm_compute; reflexivity |].
    split; [vm_compute; reflexivity |]. right. left. reflexivity.
  - split; [vm_compute; reflexivity |].
    split; [vm_compute; discriminate | vm_compute; reflexivity].
Qed.

(** ** Registration with the flag parser *)

Lemma startswith_dash s :
  PyStr.startswith s "-" = true -> exists s', s = String "-" s'.
Proof.
  unfold PyStr.startswith.
  destruct s as [| c s']; cbn [String.prefix]; [discriminate |].
  destruct (Ascii.ascii_dec "-" c) as [<- | Hne]; [eauto | discriminate].
Qed.

Lemma check_option_strings_ok names :
  Forall (fun s => PyStr.startswith s "-" = true) names ->
  Argparse.check_option_strings names = Ok tt.
Proof.
  induction 1 as [| s names Hs _ IH]; simpl; [reflexivity |].
  destruct (startswith_dash s Hs) as [s' ->].
  cbn [Argparse.check_option_strings PyStr.is_empty]. rewrite Hs. exact IH.
Qed.

Lemma no_conflict p names :
  Forall (fun s => ~ In s (Argparse.registered_strings p)) names ->
  existsb (fun s => bool_decide (s ∈ Argparse.registered_strings p)) names = false.
Proof.
  induction 1 as [| s names Hs _ IH]; simpl; [reflexivity |].
  rewrite IH, bool_decide_eq_false_2; [reflexivity |].
  intros H. apply Hs, list_elem_of_In, H.
Qed.

(** Registering flags with the [store] action. *)
Lemma add_argument_store_flag p names kw dest :
  names <> [] ->
  Forall (fun s => PyStr.startswith s "-" = true) names ->
  Forall (fun s => ~ In s (Argparse.registered_strings p)) names ->
  (Argparse.k_action kw = None \/ Argparse.k_action kw = Some "store") ->
  Argparse.check_nargs (Argparse.k_nargs kw) = Ok tt ->
  Argparse.k_const kw = None ->
  Argparse.check_type (Argparse.k_type kw) = Ok tt ->
  match Argparse.k_dest kw with
  | Some d => Ok d
  | None => Argparse.derived_dest names
  end = Ok dest ->
  Argparse.add_argument p names kw
  = Ok (Argparse.mkParser
          (Argparse.actions p ++
             [Argparse.mkAction names (Some dest) (Argparse.k_nargs kw)
                (Argparse.default_of kw)
                (Argparse.k_type kw) (Argparse.k_choices kw)
                (Argparse.truthy (Argparse.k_required kw))
                Argparse.StoreAction])).
Proof.
  intros Hne Hdash Hfree Hact Hnargs Hconst Htype Hdest.
  destruct names as [| first others]; [congruence |].
  pose proof (check_option_strings_ok _ Hdash) as Hcheck.
  pose proof (no_conflict _ _ Hfree) as Hconf.
  inversion Hdash as [| ? ? Hfirst _]; subst.
  destruct (startswith_dash first Hfirst) as [s' ->].
  unfold Argparse.add_argument.
  rewrite Hfirst, andb_false_r. unfold Argparse.add_optional.
  rewrite Hcheck. cbn [bind].
  rewrite Hdest. cbn [bind].
  rewrite Hnargs, Hconst, Htype, Hconf.
  destruct Hact as [-> | ->]; reflexivity.
Qed.

Lemma add_config_arg_ok self b :
  config_flags_ok self ->
  ConfigBackedArgumentParser._add_config_arg self (Argparse.new b)
  = Ok (Argparse.mkParser (Argparse.actions (Argparse.new b) ++ [config_action self])).
Proof.
  intros (Hs & Hl & Hns & Hnl).
  unfold ConfigBackedArgumentParser._add_config_arg.
  rewrite (add_argument_store_flag _ _ _ "config"); try reflexivity.
  - unfold config_action. simpl.
    destruct (ConfigBackedArgumentParser.def_cfg_loc self); reflexivity.
  - discriminate.
  - repeat constructor; assumption.
  - destruct b; simpl.
    + repeat constructor; assumption.
    + repeat constructor; intros [].
  - left. reflexivity.
Qed.

(** ** The scan of the command line *)


Lemma find_action_skip a acts tok i :
  ~ In tok (Argparse.option_strings a) ->
  Argparse.find_action (a :: acts) tok i = Argparse.find_action acts tok (S i).
Proof.
  intros H. simpl. rewrite bool_decide_eq_false_2; [reflexivity |].
  intros Hin. apply H, list_elem_of_In, Hin.
Qed.

Lemma find_action_here a acts tok i :
  In tok (Argparse.option_strings a) ->
  Argparse.find_action (a :: acts) tok i = Some (i, a).
Proof.
  intros H. simpl. rewrite bool_decide_eq_true_2; [reflexivity |].
  apply list_elem_of_In, H.
Qed.





Lemma classified_registered p tok :
  In tok (Argparse.registered_strings p) -> Argparse.classified p tok = true.
Proof.
  intros H. unfold Argparse.classified.
  rewrite (bool_decide_eq_true_2 _ (proj2 (list_elem_of_In _ _) H)).
  rewrite orb_true_r. reflexivity.
Qed.



(** An argument that is not full collects the plain strings that follow. *)
Lemma scan_collect call p a vs collected ns seen extras :
  Forall (fun v => PyStr.startswith v "-" = false) vs ->
  (forall n, length collected <= n < length collected + length vs ->
             Argparse.full a n = false) ->
  Argparse.scan call p vs (Argparse.mkScan ns seen extras (Some (a, collected)))
  = Argparse.close call (Argparse.mkScan ns seen extras (Some (a, collected ++ vs))).
Proof.
  intros Hplain. revert collected.
  induction Hplain as [| v vs Hv _ IH]; intros collected Hfull.
  - rewrite app_nil_r. reflexivity.
  - cbn [Argparse.scan]. unfold Argparse.step. cbn [Argparse.s_pending].
    rewrite Hfull by (simpl; lia).
    unfold Argparse.plain. rewrite Hv.
    cbn [negb bind Argparse.s_ns Argparse.s_seen Argparse.s_extras].
    rewrite IH.
    + rewrite <- app_assoc. reflexivity.
    + intros n Hn. apply Hfull. rewrite length_app in Hn. simpl in *. lia.
Qed.

(** The scan of [f :: vs] when [f] is a flag of the [store] action at
    position [i], and [vs] are plain strings that the action takes. *)
Lemma scan_flag_values call p f vs i a ns :
  Argparse.find_action (Argparse.actions p) f 0 = Some (i, a) ->
  Argparse.a_kind a = Argparse.StoreAction ->
  Forall (fun v => PyStr.startswith v "-" = false) vs ->
  (forall n, n < length vs -> Argparse.full a n = false) ->
  Argparse.scan call p (f :: vs) (Argparse.mkScan ns [] [] None)
  = (let* ns' := Argparse.store call a vs ns in
     Ok (Argparse.mkScan ns' [i] [] None)).
Proof.
  intros Hfind Hk Hplain Hfull.
  cbn [Argparse.scan]. unfold Argparse.step at 1.
  cbn [Argparse.s_pending]. unfold Argparse.fresh. rewrite Hfind, Hk.
  cbn [bind Argparse.s_ns Argparse.s_seen Argparse.s_extras app].
  rewrite scan_collect.
  - reflexivity.
  - exact Hplain.
  - intros n Hn. apply Hfull. simpl in Hn. lia.
Qed.






(** ** The bootstrap parse *)


(** ** Setting up and running the flag parser for one flag Option *)



Lemma seed_help acts ns :
  Argparse.seed_defaults (Argparse.help_action :: acts) ns = Argparse.seed_defaults acts ns.
Proof. reflexivity. Qed.



(** ** Markers that are defaults of flags do not survive the flag parser *)











Lemma find_action_nth acts tok j i a :
  Argparse.find_action acts tok j = Some (i, a) ->
  exists i', i = j + i' /\ nth_error acts i' = Some a.
Proof.
  revert j. induction acts as [| a0 acts IH]; intros j; simpl; [discriminate |].
  destruct (bool_decide _).
  - intros H. injection H as <- <-. exists 0. split; [lia | reflexivity].
  - intros H. destruct (IH _ H) as (i' & -> & Hn).
    exists (S i'). split; [lia | exact Hn].
Qed.





Lemma check_required_seen acts j seen :
  Argparse.check_required acts j seen = Ok tt ->
  forall i a, nth_error acts i = Some a -> Argparse.a_required a = true ->
              In (j + i) seen.
Proof.
  revert j. induction acts as [| a0 acts IH]; intros j H i a Hn Hr.
  - destruct i; discriminate Hn.
  - cbn [Argparse.check_required] in H.
    destruct i as [| i]; simpl in Hn.
    + injection Hn as ->. rewrite Hr in H. cbn [andb] in H.
      destruct (bool_decide (j ∈ seen)) eqn:E; [| discriminate].
      apply bool_decide_eq_true in E. rewrite Nat.add_0_r.
      apply list_elem_of_In, E.
    + destruct (_ && _); [discriminate |].
      replace (j + S i) with (S j + i) by lia. exact (IH _ H i a Hn Hr).
Qed.





(** ** What the setup registers *)


Lemma from_present_value call o val s k x :
  Option.from_present call o val s k = Ok x -> exists v, x = Val v.
Proof.
  unfold Option.from_present. destruct (Option.nargs o) as [n |].
  - destruct (PyStr.split _ _); [| discriminate]. cbn [bind].
    destruct (mapM _ _); [| discriminate]. cbn [bind].
    destruct (Option.check_count _ _ _ _); [| discriminate]. cbn [bind].
    destruct (forM_ _ _); [| discriminate]. cbn [bind].
    intros H. injection H as <-. eauto.
  - destruct (Option._get_value _ _ _); [| discriminate]. cbn [bind].
    destruct (Option._check_value _ _); [| discriminate]. cbn [bind].
    intros H. injection H as <-. eauto.
Qed.

(** Only a required Option gets a marker from the configuration. *)
Lemma from_config_marker call o cfg m :
  Option.from_config call o cfg = Ok (MissingMarker m) ->
  Option.required o = Some true.
Proof.
  unfold Option.from_config.
  destruct (Option._read_config_paths o cfg) as [[[[val s] k] |] |]; cbn [bind].
  - intros H. destruct (from_present_value _ _ _ _ _ _ H) as [v Hv]. discriminate Hv.
  - unfold eqv. destruct (bool_decide (Option.required o = Some true)) eqn:E.
    + intros _. apply bool_decide_eq_true in E. exact E.
    + discriminate.
  - discriminate.
Qed.

Lemma vals_get_set d opt' v' opt :
  ConfigBackedArgumentParser.vals_get (ConfigBackedArgumentParser.vals_set d opt' v') opt
  = if Option.__eq__ opt opt' then v' else ConfigBackedArgumentParser.vals_get d opt.
Proof.
  induction d as [| [k x] d IH]; simpl; [reflexivity |].
  destruct (Option.__eq__ opt' k) eqn:Ek; simpl.
  - apply __eq___true_iff in Ek. subst k.
    destruct (Option.__eq__ opt opt'); reflexivity.
  - rewrite IH. destruct (Option.__eq__ opt k) eqn:Eo; [| reflexivity].
    apply __eq___true_iff in Eo. subst k.
    destruct (Option.__eq__ opt opt') eqn:E; [| reflexivity].
    apply __eq___true_iff in E. subst. rewrite __eq___refl in Ek. discriminate.
Qed.





(** ** A required Option supplied on the command line *)




Lemma parse_args_known call p args ns0 ns :
  Argparse.parse_args call p args ns0 = Ok ns ->
  Argparse.parse_known_args call p args ns0 = Ok (ns, []).
Proof.
  unfold Argparse.parse_args.
  destruct (Argparse.parse_known_args call p args ns0) as [[ns' rest] |];
    [| discriminate].
  cbn [bind]. destruct rest; [| discriminate]. intros H. injection H as <-. reflexivity.
Qed.




(** * Further properties of the code *)

(** ** The names of an Option *)

Lemma separate_names_from names configs args options :
  fold_left
    (fun '(configs, args, options) name =>
       if PyStr.startswith name "-" then (configs, args, options ++ [name])
       else if PyStr.contains ":" name
            then (configs ++ [PyStr.split_on ":" name], args, options)
            else (configs, args ++ [name], options))
    names (configs, args, options)
  = (configs ++ map (PyStr.split_on ":") (List.filter is_config_name names),
     args ++ List.filter is_arg_name names,
     options ++ List.filter is_option_name names).
Proof.
  revert configs args options.
  induction names as [| name names IH]; intros configs args options.
  - cbn [fold_left List.filter map]. rewrite !app_nil_r. reflexivity.
  - cbn [fold_left List.filter].
    unfold is_config_name, is_arg_name, is_option_name.
    destruct (PyStr.startswith name "-"); cbn [negb andb].
    + rewrite IH, <- app_assoc. reflexivity.
    + destruct (PyStr.contains ":" name); cbn [negb map].
      * rewrite IH, <- app_assoc. reflexivity.
      * rewrite IH, <- app_assoc. reflexivity.
Qed.

Lemma separate_names_filter names :
  separate_names names
  = (map (PyStr.split_on ":") (List.filter is_config_name names),
     List.filter is_arg_name names,
     List.filter is_option_name names).
Proof. unfold separate_names. rewrite separate_names_from. reflexivity. Qed.

Lemma filter_kinds_length names :
  length (List.filter is_config_name names) + length (List.filter is_arg_name names)
  + length (List.filter is_option_name names) = length names.
Proof.
  induction names as [| n names IH]; [reflexivity |].
  cbn [List.filter]. unfold is_config_name, is_arg_name, is_option_name in *.
  destruct (PyStr.startswith n "-"), (PyStr.contains ":" n); cbn [negb andb length]; lia.
Qed.

Lemma init_fields names kwargs :
  Option.config_paths (Option.__init__ names kwargs)
  = map (PyStr.split_on ":") (List.filter is_config_name names) /\
  Option.args (Option.__init__ names kwargs) = List.filter is_arg_name names /\
  Option.options (Option.__init__ names kwargs) = List.filter is_option_name names.
Proof. unfold Option.__init__. rewrite separate_names_filter. repeat split. Qed.

(** X1: [separate_names] sorts the names into three lists and keeps their
    order: the flag names are the names that start with [-]; of the
    others, those that contain [:] are the config names, each split at its
    colons, and the rest are the positional names.  A name that starts
    with [-] is a flag name even when it contains [:].  No name is lost or
    repeated. *)
Theorem separate_names_partition names :
  separate_names names
  = (map (PyStr.split_on ":") (List.filter is_config_name names),
     List.filter is_arg_name names,
     List.filter is_option_name names) /\
  length (List.filter is_config_name names) + length (List.filter is_arg_name names)
  + length (List.filter is_option_name names) = length names.
Proof. split; [apply separate_names_filter | apply filter_kinds_length]. Qed.

Lemma append_cons c s t : String c s +:+ t = String c (s +:+ t).
Proof. reflexivity. Qed.

Lemma append_empty_r s : s +:+ "" = s.
Proof. induction s as [| c s IH]; [reflexivity |]. rewrite append_cons, IH. reflexivity. Qed.

Lemma snoc_append cur c s : PyStr.snoc cur c +:+ s = cur +:+ String c s.
Proof.
  unfold PyStr.snoc. induction cur as [| d cur IH]; [reflexivity |].
  rewrite !append_cons, IH. reflexivity.
Qed.

(** Joining with [:] what [split] gave at the colons gives the string
    back. *)
Lemma split_go_colon_join s cur :
  PyStr.join ":" (PyStr.split_go ":" s 0 cur) = cur +:+ s.
Proof.
  revert cur. induction s as [| c s IH]; intros cur.
  - cbn [PyStr.split_go]. unfold PyStr.join. cbn [String.concat].
    rewrite append_empty_r. reflexivity.
  - cbn [PyStr.split_go String.prefix].
    destruct (Ascii.ascii_dec ":" c) as [<- | Hne].
    + replace (String.prefix "" s) with true by (destruct s; reflexivity).
      cbn [String.length Nat.sub].
      unfold PyStr.join in *. cbn [String.concat].
      destruct (PyStr.split_go ":" s 0 "") as [| t ts] eqn:E.
      { exfalso. exact (split_go_nonempty _ _ _ _ E). }
      rewrite <- E, IH. reflexivity.
    + rewrite IH. apply snoc_append.
Qed.

Lemma join_split_colon s : PyStr.join ":" (PyStr.split_on ":" s) = s.
Proof. unfold PyStr.split_on. rewrite split_go_colon_join. reflexivity. Qed.

Lemma map_join_split names :
  map (PyStr.join ":") (map (PyStr.split_on ":") names) = names.
Proof.
  induction names as [| n names IH]; [reflexivity |].
  cbn [map]. rewrite join_split_colon, IH. reflexivity.
Qed.

(** X2: the messages name the Option by its names as they were given.  The
    message of [MissingConfigArgumentError] lists the config names,
    separated by a comma and a space; the names in the message for a type
    that is not callable are the positional names, the flag names and the
    config names, in that order, separated by a space. *)
Theorem messages_name_the_option names kwargs :
  missing_message (Option.config_paths (Option.__init__ names kwargs))
  = "No configuration value found for required Option("
    +:+ PyStr.join ", " (List.filter is_config_name names) +:+ ")" /\
  Option.formatted_names (Option.__init__ names kwargs)
  = PyStr.join " " (List.filter is_arg_name names ++ List.filter is_option_name names
                    ++ List.filter is_config_name names).
Proof.
  destruct (init_fields names kwargs) as (Hc & Ha & Ho).
  unfold missing_message, Option.formatted_names.
  rewrite Hc, Ha, Ho, map_join_split. split; reflexivity.
Qed.

Lemma split_go_colon_length s cur :
  length (PyStr.split_go ":" s 0 cur) = S (occurrences ":" s).
Proof.
  revert cur. induction s as [| c s IH]; intros cur; [reflexivity |].
  cbn [PyStr.split_go String.prefix occurrences].
  destruct (Ascii.ascii_dec ":" c) as [<- | Hne].
  - replace (String.prefix "" s) with true by (destruct s; reflexivity).
    cbn [String.length Nat.sub length]. rewrite IH.
    rewrite Ascii.eqb_refl. reflexivity.
  - rewrite IH. rewrite (proj2 (Ascii.eqb_neq _ _) Hne). reflexivity.
Qed.

Lemma split_colon_length s :
  length (PyStr.split_on ":" s) = S (occurrences ":" s).
Proof. apply split_go_colon_length. Qed.

Lemma read_paths_malformed cfg pre bad post :
  Forall (fun p => exists s k, p = [s; k] /\ cfg !! (s, k) = None) pre ->
  length bad <> 2 ->
  Option.read_paths cfg (pre ++ bad :: post)
  = Err (ValueError "wrong number of values to unpack").
Proof.
  intros Hpre Hbad. induction Hpre as [| p pre (s & k & -> & Habs) _ IH].
  - cbn [app Option.read_paths].
    destruct bad as [| a [| b [| c bad]]]; try reflexivity. simpl in Hbad. congruence.
  - cbn [app Option.read_paths]. rewrite (has_option_None _ _ _ Habs). exact IH.
Qed.

Lemma read_paths_pairs cfg (paths : list (list string)) :
  Forall (fun p => length p = 2) paths ->
  exists r, Option.read_paths cfg paths = Ok r.
Proof.
  induction 1 as [| p paths Hp _ IH]; [eexists; reflexivity |].
  destruct p as [| a [| b [| c p]]]; simpl in Hp; try discriminate.
  cbn [Option.read_paths].
  destruct (SafeConfigParser.has_option cfg a b); [eexists; reflexivity | exact IH].
Qed.

(** X3: a config name with two or more colons gives a config path that
    cannot be unpacked into a section and a key: [from_config] raises
    [ValueError] when the lookup reaches it, which is when the config names
    before it are (section, key) pairs that the configuration lacks.  When
    every config name has exactly one colon, [_read_config_paths] does not
    raise. *)
Theorem malformed_config_name call names kwargs cfg :
  (forall pre name post,
     List.filter is_config_name names = pre ++ name :: post ->
     Forall (fun n => exists s k, PyStr.split_on ":" n = [s; k] /\ cfg !! (s, k) = None) pre ->
     2 <= occurrences ":" name ->
     exists msg,
       Option.from_config call (Option.__init__ names kwargs) cfg = Err (ValueError msg)) /\
  (Forall (fun n => occurrences ":" n = 1) (List.filter is_config_name names) ->
   exists r, Option._read_config_paths (Option.__init__ names kwargs) cfg = Ok r).
Proof.
  destruct (init_fields names kwargs) as (Hc & _ & _). split.
  - intros pre name post Hnames Hpre Hbad.
    unfold Option.from_config, Option._read_config_paths.
    rewrite Hc, Hnames, map_app. cbn [map].
    rewrite read_paths_malformed.
    + eexists. reflexivity.
    + apply Forall_map. eapply Forall_impl; [exact Hpre |].
      intros n (s & k & Hn & Habs). exists s, k. split; assumption.
    + rewrite split_colon_length. lia.
  - intros Hone. unfold Option._read_config_paths. rewrite Hc.
    apply read_paths_pairs. apply Forall_map.
    eapply Forall_impl; [exact Hone |].
    intros n Hn. cbn beta. rewrite split_colon_length, Hn. reflexivity.
Qed.

Lemma malformed_config_name_witness :
  exists msg,
    Option.from_config sample_call (Option.__init__ ["db:host:port"] Option.no_kwargs) ∅
    = Err (ValueError msg).
Proof.
  apply (proj1 (malformed_config_name sample_call ["db:host:port"] Option.no_kwargs ∅)
           [] "db:host:port" []).
  - reflexivity.
  - constructor.
  - vm_compute. lia.
Defined.

(** X4: two Options built with the same keyword arguments are equal exactly
    when they have the same config names, the same positional names and
    the same flag names, each kind in the same order; the order between
    names of different kinds does not matter. *)
Theorem equality_by_kind names1 names2 kwargs :
  Option.__eq__ (Option.__init__ names1 kwargs) (Option.__init__ names2 kwargs) = true <->
  List.filter is_config_name names1 = List.filter is_config_name names2 /\
  List.filter is_arg_name names1 = List.filter is_arg_name names2 /\
  List.filter is_option_name names1 = List.filter is_option_name names2.
Proof.
  rewrite __eq___true_iff.
  destruct (init_fields names1 kwargs) as (Hc1 & Ha1 & Ho1).
  destruct (init_fields names2 kwargs) as (Hc2 & Ha2 & Ho2).
  split.
  - intros H. rewrite H in Hc1, Ha1, Ho1.
    rewrite Hc2 in Hc1. rewrite Ha2 in Ha1. rewrite Ho2 in Ho1.
    split; [| split; congruence].
    apply (f_equal (map (PyStr.join ":"))) in Hc1.
    rewrite !map_join_split in Hc1. congruence.
  - intros (Hc & Ha & Ho). unfold Option.__init__.
    rewrite !separate_names_filter, Hc, Ha, Ho. reflexivity.
Qed.

Lemma equality_by_kind_witness :
  Option.__eq__ (Option.__init__ ["--host"; "db:host"] Option.no_kwargs)
                (Option.__init__ ["db:host"; "--host"] Option.no_kwargs) = true.
Proof.
  apply (proj2 (equality_by_kind ["--host"; "db:host"] ["db:host"; "--host"]
                  Option.no_kwargs)).
  repeat split.
Defined.

(** ** The value read from the configuration *)

Lemma forM_check_within o cs (values : list PyVal) :
  Option.choices o = Some cs ->
  forM_ (Option._check_value o) values = Ok tt ->
  Forall (fun v => py_in v cs = true) values.
Proof.
  intros Hcs. induction values as [| v l IH]; intros H; [constructor |].
  cbn [forM_] in H. unfold Option._check_value at 1 in H. rewrite Hcs in H.
  destruct (py_in v cs) eqn:Hin; cbn [negb bind] in H; [| discriminate].
  constructor; [exact Hin | exact (IH H)].
Qed.

(** X5: when a config path is present and the Option has a set of allowed
    values, what [from_config] returns is within the set: the value itself
    for a scalar Option, every element of the list otherwise. *)
Theorem from_config_within_choices call o cfg val s k cs x :
  first_present cfg (Option.config_paths o) val s k ->
  Option.choices o = Some cs ->
  Option.from_config call o cfg = Ok x ->
  match Option.nargs o with
  | None => exists v, x = Val v /\ py_in v cs = true
  | Some _ => exists vs, x = Val (VList vs) /\ Forall (fun v => py_in v cs = true) vs
  end.
Proof.
  intros Hfp Hcs. rewrite (from_config_present _ _ _ _ _ _ Hfp).
  unfold Option.from_present. destruct (Option.nargs o) as [n |].
  - destruct (PyStr.split _ _); [| discriminate]. cbn [bind].
    destruct (mapM _ _) as [values |]; [| discriminate]. cbn [bind].
    destruct (Option.check_count _ _ _ _); [| discriminate]. cbn [bind].
    destruct (forM_ _ values) as [[] |] eqn:Hch; [| discriminate]. cbn [bind].
    intros H. injection H as <-. exists values. split; [reflexivity |].
    exact (forM_check_within _ _ _ Hcs Hch).
  - destruct (Option._get_value _ _ _) as [v |]; [| discriminate]. cbn [bind].
    unfold Option._check_value. rewrite Hcs.
    destruct (py_in v cs) eqn:Hin; cbn [negb bind]; [| discriminate].
    intros H. injection H as <-. exists v. split; [reflexivity | exact Hin].
Qed.

Lemma from_config_within_choices_witness :
  exists vs,
    Val (VList [VStr "x"; VStr "y"]) = Val (VList vs) /\
    Forall (fun v => py_in v [VStr "x"; VStr "y"] = true) vs.
Proof.
  exact (from_config_within_choices sample_call opt_pair_xy (cfg1 "net" "pair" "x, y")
           "x, y" "net" "pair" [VStr "x"; VStr "y"] (Val (VList [VStr "x"; VStr "y"]))
           ltac:(present_after (@nil (string * string))) eq_refl eq_refl).
Defined.

(** X6: when the type of the Option is not callable and a config path is
    present, [from_config] raises the config error that names the Option,
    for a scalar Option and for a multi-valued one whose separator is a
    non-empty string. *)
Theorem type_not_callable_raises call o cfg val s k x :
  Option.type o = Some (NotCallable x) ->
  first_present cfg (Option.config_paths o) val s k ->
  Option.nargs o = None \/
  (exists sep, Option.split_char o = Some sep /\ sep <> "") ->
  Option.from_config call o cfg
  = Err (ConfigArgumentError (TypeNotCallable (Option.formatted_names o))).
Proof.
  intros Hty Hfp Hcase. rewrite (from_config_present _ _ _ _ _ _ Hfp).
  unfold Option.from_present.
  destruct (Option.nargs o) as [n |] eqn:Hn.
  - destruct Hcase as [Hc | (sep & Hsep & Hne)]; [discriminate |].
    rewrite Hsep. destruct sep as [| c sep]; [congruence |].
    cbn [PyStr.split bind].
    destruct (PyStr.split_on (String c sep) val) as [| t ts] eqn:E.
    { exfalso. exact (split_go_nonempty _ _ _ _ E). }
    cbn [mapM]. unfold Option._get_value at 1. rewrite Hty. reflexivity.
  - unfold Option._get_value. rewrite Hty. reflexivity.
Qed.

Lemma type_not_callable_raises_witness :
  Option.from_config sample_call opt_port_str_type (cfg1 "db" "port" "80")
  = Err (ConfigArgumentError (TypeNotCallable "--port db:port")).
Proof.
  apply (type_not_callable_raises sample_call opt_port_str_type (cfg1 "db" "port" "80")
           "80" "db" "port" (VStr "int")).
  - reflexivity.
  - present_after (@nil (string * string)).
  - left. reflexivity.
Defined.

Lemma snoc_not_empty cur c : PyStr.snoc cur c <> "".
Proof. unfold PyStr.snoc. destruct cur; discriminate. Qed.

Lemma split_ws_nil s cur :
  PyStr.split_ws s cur = [] <-> cur = "" /\ blank s = true.
Proof.
  revert cur. induction s as [| c s IH]; intros cur; cbn [PyStr.split_ws blank].
  - destruct cur; cbn [PyStr.is_empty]; split; try tauto; try discriminate.
    intros [H _]. discriminate H.
  - destruct (PyStr.isspace c); cbn [andb].
    + destruct cur; cbn [PyStr.is_empty].
      * rewrite IH. tauto.
      * split; [discriminate | intros [H _]; discriminate H].
    + rewrite IH. split; [| intros [_ H]; discriminate H].
      intros [H _]. destruct (snoc_not_empty _ _ H).
Qed.

(** X7: for an Option with multiplicity ['+'] and a present config path,
    [from_config] raises the at-least-one-value error exactly when the
    separator is [None], so that the value is split at whitespace, and the
    value is empty or whitespace only.  With multiplicity ['*'] the same
    value gives the empty list. *)
Theorem whitespace_split_no_tokens call o cfg val s k :
  first_present cfg (Option.config_paths o) val s k ->
  (Option.nargs o = Some (NStr "+") ->
   (Option.from_config call o cfg = Err (ConfigArgumentError (AtLeastOneValue s k)) <->
    Option.split_char o = None /\ blank val = true)) /\
  (Option.nargs o = Some (NStr "*") ->
   Option.split_char o = None -> blank val = true ->
   Option.from_config call o cfg = Ok (Val (VList []))).
Proof.
  intros Hfp. rewrite (from_config_present _ _ _ _ _ _ Hfp). split.
  - intros Hn. split.
    + destruct (PyStr.split val (Option.split_char o)) as [tokens | e] eqn:Hs.
      * rewrite (from_present_tokens _ _ _ _ _ _ _ Hn Hs).
        destruct (decode_tokens call o tokens) as [values | e] eqn:Hd; cbn [bind].
        -- unfold Option.check_count. rewrite eqv_refl.
           destruct (length values) as [| len] eqn:Hlen; cbn [Nat.eqb bind].
           ++ intros _. rewrite (mapM_length _ _ _ Hd) in Hlen.
              destruct tokens; [| discriminate Hlen].
              destruct (Option.split_char o) as [sep |].
              ** exfalso. exact (split_some_nonempty _ _ _ Hs eq_refl).
              ** cbn [PyStr.split] in Hs. injection Hs as Hs.
                 apply split_ws_nil in Hs. tauto.
           ++ destruct (forM_check_cases o values) as [-> | (v & cs & ->)];
                discriminate.
        -- intros H. injection H as ->.
           destruct (mapM_decode_error _ _ _ _ _ Hd) as [(names & H) | (f & a & H)];
             discriminate H.
      * unfold Option.from_present. rewrite Hn, Hs. cbn [bind].
        destruct (Option.split_char o) as [[| c sep] |]; cbn [PyStr.split] in Hs;
          try discriminate Hs.
        injection Hs as <-. discriminate.
    + intros [Hsep Hblank]. unfold Option.from_present. rewrite Hn, Hsep.
      cbn [PyStr.split bind].
      rewrite (proj2 (split_ws_nil val "") (conj eq_refl Hblank)). reflexivity.
  - intros Hn Hsep Hblank. unfold Option.from_present. rewrite Hn, Hsep.
    cbn [PyStr.split bind].
    rewrite (proj2 (split_ws_nil val "") (conj eq_refl Hblank)). reflexivity.
Qed.

Lemma whitespace_split_no_tokens_witness :
  Option.from_config sample_call opt_hosts_ws (cfg1 "db" "hosts" "  ")
  = Err (ConfigArgumentError (AtLeastOneValue "db" "hosts")).
Proof.
  apply (proj1 (whitespace_split_no_tokens sample_call opt_hosts_ws
                  (cfg1 "db" "hosts" "  ") "  " "db" "hosts"
                  ltac:(present_after (@nil (string * string)))) eq_refl).
  split; reflexivity.
Defined.

(** X8: a multiplicity that is a string other than ['+'] and ['*'] is
    converted with [int] once the tokens are decoded.  When the conversion
    fails (as for ['?']), [from_config] raises its [ValueError]; when it
    gives [N], the number of tokens has to be [N] as for the integer. *)
Theorem nargs_string_is_converted call o cfg n val s k tokens values :
  Option.nargs o = Some (NStr n) ->
  n <> "+" -> n <> "*" ->
  first_present cfg (Option.config_paths o) val s k ->
  PyStr.split val (Option.split_char o) = Ok tokens ->
  decode_tokens call o tokens = Ok values ->
  (forall e, PyStr.to_int n = Err e -> Option.from_config call o cfg = Err e) /\
  (forall N, PyStr.to_int n = Ok N -> Z.of_nat (length tokens) <> N ->
     Option.from_config call o cfg
     = Err (ConfigArgumentError (ExactlyNValues (NStr n) s k))) /\
  (forall N, PyStr.to_int n = Ok N -> Z.of_nat (length tokens) = N ->
     Forall (allowed o) values ->
     Option.from_config call o cfg = Ok (Val (VList values))).
Proof.
  intros Hn Hplus Hstar Hfp Hs Hd.
  rewrite (from_config_present _ _ _ _ _ _ Hfp).
  rewrite (from_present_tokens _ _ _ _ _ _ _ Hn Hs), Hd. cbn [bind].
  unfold Option.check_count.
  rewrite !eqv_ne by congruence. cbn [Option.int_of_nargs].
  rewrite (mapM_length _ _ _ Hd).
  split; [| split].
  - intros e ->. reflexivity.
  - intros N -> Hne. cbn [bind]. rewrite (proj2 (Z.eqb_neq _ _) Hne). reflexivity.
  - intros N -> Heq Hall. cbn [bind]. rewrite (proj2 (Z.eqb_eq _ _) Heq).
    cbn [negb bind]. rewrite (forM_check_allowed _ _ Hall). reflexivity.
Qed.

Lemma nargs_string_is_converted_witness :
  Option.from_config sample_call opt_host_maybe (cfg1 "db" "host" "a.example")
  = Err (ValueError "invalid literal for int() with base 10").
Proof.
  apply (proj1 (nargs_string_is_converted sample_call opt_host_maybe
                  (cfg1 "db" "host" "a.example") "?" "a.example" "db" "host"
                  ["a.example"] [VStr "a.example"] eq_refl
                  ltac:(discriminate) ltac:(discriminate)
                  ltac:(present_after (@nil (string * string))) eq_refl eq_refl)).
  reflexivity.
Defined.

(** X9: with the empty string as separator, [from_config] raises the
    [ValueError] of [split] for every multi-valued Option that has a config
    path present. *)
Theorem empty_separator_raises call o cfg n val s k :
  Option.nargs o = Some n ->
  Option.split_char o = Some "" ->
  first_present cfg (Option.config_paths o) val s k ->
  Option.from_config call o cfg = Err (ValueError "empty separator").
Proof.
  intros Hn Hsep Hfp. rewrite (from_config_present _ _ _ _ _ _ Hfp).
  unfold Option.from_present. rewrite Hn, Hsep. reflexivity.
Qed.

Lemma empty_separator_raises_witness :
  Option.from_config sample_call opt_pair_nosep (cfg1 "net" "pair" "a,b")
  = Err (ValueError "empty separator").
Proof.
  apply (empty_separator_raises sample_call opt_pair_nosep (cfg1 "net" "pair" "a,b")
           (NInt 2) "a,b" "net" "pair").
  - reflexivity.
  - reflexivity.
  - present_after (@nil (string * string)).
Defined.

(** X10: [from_config] returns the missing-required marker exactly when the
    Option is required and the lookup finds none of the config paths; the
    marker then carries the message built from the config paths.  It is
    never returned for a value that is present, nor for an Option that is
    not required. *)
Theorem marker_only_when_missing call o cfg m :
  Option.from_config call o cfg = Ok (MissingMarker m) <->
  Option.required o = Some true /\
  Option._read_config_paths o cfg = Ok None /\
  m = missing_message (Option.config_paths o).
Proof.
  unfold Option.from_config.
  destruct (Option._read_config_paths o cfg) as [[[[val s] k] |] | e]; cbn [bind].
  - split.
    + intros H. destruct (from_present_value _ _ _ _ _ _ H) as [v Hv]. discriminate Hv.
    + intros (_ & H & _). discriminate H.
  - unfold eqv. destruct (bool_decide (Option.required o = Some true)) eqn:E.
    + apply bool_decide_eq_true in E. split.
      * intros H. injection H as <-. tauto.
      * intros (_ & _ & ->). reflexivity.
    + apply bool_decide_eq_false in E. split; [discriminate | tauto].
  - split; [discriminate | intros (_ & H & _); discriminate H].
Qed.

Lemma marker_only_when_missing_witness :
  Option.from_config sample_call opt_db_host (cfg1 "db" "port" "80")
  = Ok (MissingMarker "No configuration value found for required Option(db:host)").
Proof.
  apply (proj2 (marker_only_when_missing sample_call opt_db_host (cfg1 "db" "port" "80")
                  "No configuration value found for required Option(db:host)")).
  repeat split.
Defined.

(** ** The three entry points *)

Lemma read_values_err call cfg (opts : list Option.t) e :
  fold_left
    (fun acc opt =>
       let* config_vals := acc in
       let* v := Option.from_config call opt cfg in
       Ok (ConfigBackedArgumentParser.vals_set config_vals opt v))
    opts (Err e) = Err e.
Proof. induction opts as [| o opts IH]; [reflexivity | exact IH]. Qed.

Lemma read_values_first_error call cfg pre o post e d :
  Forall (fun o' => exists v, Option.from_config call o' cfg = Ok v) pre ->
  Option.from_config call o cfg = Err e ->
  fold_left
    (fun acc opt =>
       let* config_vals := acc in
       let* v := Option.from_config call opt cfg in
       Ok (ConfigBackedArgumentParser.vals_set config_vals opt v))
    (pre ++ o :: post) (Ok d) = Err e.
Proof.
  intros Hpre He. revert d.
  induction Hpre as [| o' pre [v Hv] _ IH]; intros d; cbn [app fold_left bind].
  - rewrite He. cbn [bind]. apply read_values_err.
  - rewrite Hv. cbn [bind]. apply IH.
Qed.

Lemma sample_config_flags_ok loc o : config_flags_ok (parser_of loc o).
Proof.
  unfold parser_of, ConfigBackedArgumentParser.append_option.
  destruct (negb _); repeat split; try reflexivity;
    simpl; intros [H | [H | []]]; discriminate H.
Qed.

(** X11: the configuration is read, and every Option resolved from it,
    before the flag parser sees the command line.  When [from_config]
    raises for a declared Option, and does not for those declared before
    it, the three entry points raise that error, whatever the command line
    says about the Option. *)
Theorem config_error_aborts call fs self args primary pre o post e :
  config_flags_ok self ->
  ConfigBackedArgumentParser.config_path call self args = Ok primary ->
  ConfigBackedArgumentParser.options self = pre ++ o :: post ->
  Forall (fun o' =>
            exists v,
              Option.from_config call o'
                (ConfigBackedArgumentParser.load_config fs primary
                   (ConfigBackedArgumentParser.additional_configs self)) = Ok v) pre ->
  Option.from_config call o
    (ConfigBackedArgumentParser.load_config fs primary
       (ConfigBackedArgumentParser.additional_configs self)) = Err e ->
  ConfigBackedArgumentParser.parse_args call fs self args = Err e /\
  ConfigBackedArgumentParser.parse_known_args call fs self args = Err e /\
  ConfigBackedArgumentParser.bootstrap_parse call fs self args = Err e.
Proof.
  intros Hcfg Hpath Hopts Hpre He.
  assert (Hread : ConfigBackedArgumentParser._read_config_args call fs self args = Err e).
  { unfold ConfigBackedArgumentParser._read_config_args. rewrite Hpath. cbn [bind].
    rewrite Hopts. exact (read_values_first_error _ _ _ _ _ _ _ Hpre He). }
  assert (Hsetup : forall b,
            ConfigBackedArgumentParser._setup_parser call fs self (Argparse.new b) args
            = Err e).
  { intros b. unfold ConfigBackedArgumentParser._setup_parser.
    rewrite add_config_arg_ok by exact Hcfg. cbn [bind].
    unfold ConfigBackedArgumentParser._add_options. rewrite Hread. reflexivity. }
  unfold ConfigBackedArgumentParser.parse_args, ConfigBackedArgumentParser.parse_known_args,
    ConfigBackedArgumentParser.bootstrap_parse.
  rewrite !Hsetup. repeat split.
Qed.

Lemma config_error_aborts_witness :
  ConfigBackedArgumentParser.parse_args sample_call
    (fs2 "app.ini" (cfg1 "db" "port" "abc") "" ∅)
    (parser_of (Some "app.ini") opt_port_int) ["--port"; "80"]
  = Err (CallableRaised 0 "abc").
Proof.
  apply (config_error_aborts sample_call
           (fs2 "app.ini" (cfg1 "db" "port" "abc") "" ∅)
           (parser_of (Some "app.ini") opt_port_int) ["--port"; "80"]
           (Some "app.ini") [] opt_port_int [] (CallableRaised 0 "abc")).
  - apply sample_config_flags_ok.
  - vm_compute. reflexivity.
  - reflexivity.
  - constructor.
  - vm_compute. reflexivity.
Defined.

(** X12: [parse_args] returns exactly when [parse_known_args] returns with
    nothing left over, and then with the same namespace.  When
    [parse_known_args] returns with strings left over, [parse_args] exits
    with the usage error; when [parse_known_args] raises, [parse_args]
    raises the same error or exits with the usage error. *)
Theorem parse_args_and_known_args call fs self args :
  (forall ns,
     ConfigBackedArgumentParser.parse_args call fs self args = Ok ns <->
     ConfigBackedArgumentParser.parse_known_args call fs self args = Ok (ns, [])) /\
  (forall ns tok rest,
     ConfigBackedArgumentParser.parse_known_args call fs self args = Ok (ns, tok :: rest) ->
     ConfigBackedArgumentParser.parse_args call fs self args = Err (SystemExit 2)) /\
  (forall e,
     ConfigBackedArgumentParser.parse_known_args call fs self args = Err e ->
     ConfigBackedArgumentParser.parse_args call fs self args = Err e \/
     ConfigBackedArgumentParser.parse_args call fs self args = Err (SystemExit 2)).
Proof.
  unfold ConfigBackedArgumentParser.parse_args, ConfigBackedArgumentParser.parse_known_args.
  destruct (ConfigBackedArgumentParser._setup_parser call fs self (Argparse.new true) args)
    as [[parser ns0] | e0]; cbn [bind].
  - unfold Argparse.parse_args.
    destruct (Argparse.parse_known_args call parser args ns0) as [[ns1 rest1] | e1];
      cbn [bind].
    + destruct rest1 as [| t rest1]; cbn [bind].
      * destruct (ConfigBackedArgumentParser._check_required_config ns1) as [[] | e2];
          cbn [bind].
        -- split; [| split].
           ++ intros ns. split; intros H; injection H as <-; reflexivity.
           ++ intros ns tok rest H. discriminate H.
           ++ intros e H. discriminate H.
        -- split; [| split].
           ++ intros ns. split; intros H; discriminate H.
           ++ intros ns tok rest H. discriminate H.
           ++ intros e H. left. injection H as <-. reflexivity.
      * destruct (ConfigBackedArgumentParser._check_required_config ns1) as [[] | e2];
          cbn [bind].
        -- split; [| split].
           ++ intros ns. split; intros H; discriminate H.
           ++ intros ns tok rest H. reflexivity.
           ++ intros e H. discriminate H.
        -- split; [| split].
           ++ intros ns. split; intros H; discriminate H.
           ++ intros ns tok rest H. discriminate H.
           ++ intros e H. right. reflexivity.
    + split; [| split].
      * intros ns. split; intros H; discriminate H.
      * intros ns tok rest H. discriminate H.
      * intros e H. left. injection H as <-. reflexivity.
  - split; [| split].
    + intros ns. split; intros H; discriminate H.
    + intros ns tok rest H. discriminate H.
    + intros e H. left. injection H as <-. reflexivity.
Qed.

Lemma parse_args_and_known_args_witness :
  ConfigBackedArgumentParser.parse_args sample_call no_files
    (ConfigBackedArgumentParser.__init__ None) ["extra"]
  = Err (SystemExit 2).
Proof.
  apply (proj1 (proj2 (parse_args_and_known_args sample_call no_files
                         (ConfigBackedArgumentParser.__init__ None) ["extra"]))
           [("config", Val VNone)] "extra" []).
  vm_compute. reflexivity.
Defined.

(** ** Required Options with a flag *)

Lemma find_action_In acts tok j i a :
  Argparse.find_action acts tok j = Some (i, a) -> In tok (Argparse.option_strings a).
Proof.
  revert j. induction acts as [| a0 acts IH]; intros j; simpl; [discriminate |].
  destruct (bool_decide (tok ∈ Argparse.option_strings a0)) eqn:E.
  - intros H. injection H as <- <-. apply bool_decide_eq_true in E.
    apply list_elem_of_In, E.
  - apply IH.
Qed.

Lemma close_seen call st st' :
  Argparse.close call st = Ok st' -> Argparse.s_seen st' = Argparse.s_seen st.
Proof.
  unfold Argparse.close. destruct (Argparse.s_pending st) as [[a c] |].
  - destruct (Argparse.store call a c (Argparse.s_ns st)); [| discriminate].
    cbn [bind]. intros H. injection H as <-. reflexivity.
  - intros H. injection H as <-. reflexivity.
Qed.

Lemma fresh_seen p tok st st' i :
  Argparse.fresh p tok st = Ok st' ->
  In i (Argparse.s_seen st') ->
  In i (Argparse.s_seen st) \/
  exists a, Argparse.find_action (Argparse.actions p) tok 0 = Some (i, a).
Proof.
  unfold Argparse.fresh.
  destruct (Argparse.find_action (Argparse.actions p) tok 0) as [[j a] |].
  - destruct (Argparse.a_kind a); [| discriminate].
    intros H. injection H as <-. cbn [Argparse.s_seen]. intros Hi.
    apply in_app_or in Hi. destruct Hi as [Hi | [<- | []]]; [left; exact Hi |].
    right. eauto.
  - destruct (_ || _); [| discriminate]. intros H. injection H as <-.
    cbn [Argparse.s_seen]. tauto.
Qed.

Lemma step_seen call p tok st st' i :
  Argparse.step call p tok st = Ok st' ->
  In i (Argparse.s_seen st') ->
  In i (Argparse.s_seen st) \/
  exists a, Argparse.find_action (Argparse.actions p) tok 0 = Some (i, a).
Proof.
  unfold Argparse.step.
  assert (Hcf : (let* st2 := Argparse.close call st in Argparse.fresh p tok st2) = Ok st' ->
                In i (Argparse.s_seen st') ->
                In i (Argparse.s_seen st) \/
                exists a, Argparse.find_action (Argparse.actions p) tok 0 = Some (i, a)).
  { destruct (Argparse.close call st) as [st2 |] eqn:Hc; [| discriminate].
    cbn [bind]. intros H Hi. rewrite <- (close_seen _ _ _ Hc).
    exact (fresh_seen _ _ _ _ _ H Hi). }
  destruct (Argparse.s_pending st) as [[a c] |].
  - destruct (Argparse.full a (length c)); [exact Hcf |].
    destruct (Argparse.plain tok).
    + intros H. injection H as <-. cbn [Argparse.s_seen]. tauto.
    + destruct (Argparse.find_action _ tok 0); [exact Hcf | discriminate].
  - apply fresh_seen.
Qed.

Lemma scan_seen call p args st st' i :
  Argparse.scan call p args st = Ok st' ->
  In i (Argparse.s_seen st') ->
  In i (Argparse.s_seen st) \/ named_by p args i.
Proof.
  revert st. induction args as [| tok args IH]; intros st; cbn [Argparse.scan].
  - intros H Hi. left. rewrite <- (close_seen _ _ _ H). exact Hi.
  - destruct (Argparse.step call p tok st) as [st1 |] eqn:Hs; [| discriminate].
    cbn [bind]. intros H Hi.
    destruct (IH _ H Hi) as [H1 | (tok' & a & Hin & Hf)].
    + destruct (step_seen _ _ _ _ _ _ Hs H1) as [H0 | [a Hf]]; [left; exact H0 |].
      right. exists tok, a. split; [left; reflexivity | exact Hf].
    + right. exists tok', a. split; [right; exact Hin | exact Hf].
Qed.

(** A required action of an accepted command line was named by one of its
    strings. *)
Lemma required_action_named call p args ns0 ns rest a :
  Argparse.parse_known_args call p args ns0 = Ok (ns, rest) ->
  In a (Argparse.actions p) ->
  Argparse.a_required a = true ->
  exists tok, In tok args /\ In tok (Argparse.option_strings a).
Proof.
  unfold Argparse.parse_known_args. intros H Hin Hreq.
  destruct (_ || _); [discriminate |].
  destruct (Argparse.seed_defaults _ ns0) as [ns1 |]; [| discriminate]. cbn [bind] in H.
  destruct (Argparse.scan call p args _) as [st |] eqn:Hscan; [| discriminate].
  cbn [bind] in H.
  destruct (Argparse.check_required _ 0 _) as [[] |] eqn:Hcheck; [| discriminate].
  destruct (In_nth_error _ _ Hin) as [i Hi].
  pose proof (check_required_seen _ _ _ Hcheck i a Hi Hreq) as Hseen.
  destruct (scan_seen _ _ _ _ _ _ Hscan Hseen) as [[] | (tok & a' & Htok & Hf)].
  exists tok. split; [exact Htok |].
  destruct (find_action_nth _ _ _ _ _ Hf) as (i' & Hi' & Hn). simpl in Hi'. subst i'.
  assert (a' = a) by congruence. subst a'.
  exact (find_action_In _ _ _ _ _ Hf).
Qed.

Lemma add_argument_optional_action p names kw p' :
  Argparse.add_argument p names kw = Ok p' ->
  exists a,
    Argparse.actions p' = Argparse.actions p ++ [a] /\
    (Argparse.option_strings a = [] \/
     (Argparse.option_strings a = names /\
      Argparse.a_required a = Argparse.truthy (Argparse.k_required kw))).
Proof.
  assert (Hpos : forall name,
            Argparse.add_positional p name kw = Ok p' ->
            exists a,
              Argparse.actions p' = Argparse.actions p ++ [a] /\
              (Argparse.option_strings a = [] \/
               (Argparse.option_strings a = names /\
                Argparse.a_required a = Argparse.truthy (Argparse.k_required kw)))).
  { intros name. unfold Argparse.add_positional.
    destruct (bool_decide (is_Some (Argparse.k_dest kw))); [discriminate |].
    destruct (bool_decide (is_Some (Argparse.k_required kw))); [discriminate |].
    destruct (_ && _); [| discriminate].
    destruct (Argparse.check_type _); [| discriminate]. cbn [bind].
    intros H. injection H as <-. eexists. split; [reflexivity | left; reflexivity]. }
  assert (Hopt : Argparse.add_optional p names kw = Ok p' ->
            exists a,
              Argparse.actions p' = Argparse.actions p ++ [a] /\
              (Argparse.option_strings a = [] \/
               (Argparse.option_strings a = names /\
                Argparse.a_required a = Argparse.truthy (Argparse.k_required kw)))).
  { unfold Argparse.add_optional.
    destruct (Argparse.check_option_strings _); [| discriminate]. cbn [bind].
    destruct (match Argparse.k_dest kw with Some _ => _ | None => _ end);
      [| discriminate].
    cbn [bind].
    destruct (Argparse.is_store _); [| discriminate].
    destruct (Argparse.check_nargs _); [| discriminate]. cbn [bind].
    destruct (bool_decide (is_Some (Argparse.k_const kw))); [discriminate |].
    destruct (Argparse.check_type _); [| discriminate]. cbn [bind].
    destruct (existsb _ _); [discriminate |].
    intros H. injection H as <-. eexists. split; [reflexivity |].
    right. split; reflexivity. }
  unfold Argparse.add_argument.
  destruct names as [| first others]; [discriminate |].
  destruct first as [| c first']; [destruct others; [discriminate |] |];
    (destruct (_ && _); [apply Hpos | apply Hopt]).
Qed.

(** What [add_to_parser] does to the parser: nothing for an Option without
    a commandline name, and one more action otherwise. *)
Lemma add_to_parser_actions o p v ns p' ns' :
  Option.add_to_parser o p v ns = Ok (p', ns') ->
  (Option.args o ++ Option.options o = [] /\ p' = p) \/
  (exists a,
     Argparse.actions p' = Argparse.actions p ++ [a] /\
     (Argparse.option_strings a = [] \/
      (Argparse.option_strings a = Option.args o ++ Option.options o /\
       Argparse.a_required a = Argparse.truthy (Option.required o)))).
Proof.
  unfold Option.add_to_parser.
  destruct (Option.args o ++ Option.options o) as [| n names] eqn:Hnames.
  - intros H. injection H as <- <-. left. tauto.
  - destruct (Argparse.add_argument p (n :: names) _) as [p1 |] eqn:Hadd; [| discriminate].
    cbn [bind]. intros H. injection H as <- <-. right.
    exact (add_argument_optional_action _ _ _ _ Hadd).
Qed.

Lemma add_options_fold_err (d : ConfigBackedArgumentParser.ConfigVals) (opts : list Option.t) e :
  fold_left
    (fun acc opt =>
       let* (parser, namespace) := acc in
       let* (parser', namespace') :=
         Option.add_to_parser opt parser
           (ConfigBackedArgumentParser.vals_get d opt) (Some namespace) in
       Ok (parser', match namespace' with Some ns => ns | None => namespace end))
    opts (Err e) = Err e.
Proof. induction opts as [| o opts IH]; [reflexivity | exact IH]. Qed.

(** The actions of the parser are kept by the Options added later. *)
Lemma add_options_fold_keeps (d : ConfigBackedArgumentParser.ConfigVals) opts p0 n0 parser ns0 a :
  fold_left
    (fun acc opt =>
       let* (parser, namespace) := acc in
       let* (parser', namespace') :=
         Option.add_to_parser opt parser
           (ConfigBackedArgumentParser.vals_get d opt) (Some namespace) in
       Ok (parser', match namespace' with Some ns => ns | None => namespace end))
    opts (Ok (p0, n0)) = Ok (parser, ns0) ->
  In a (Argparse.actions p0) -> In a (Argparse.actions parser).
Proof.
  revert p0 n0. induction opts as [| o opts IH]; intros p0 n0; cbn [fold_left bind].
  - intros H. injection H as <- <-. tauto.
  - destruct (Option.add_to_parser o p0 _ (Some n0)) as [[p1 n1] |] eqn:Hadd; cbn [bind].
    + intros H Hin. apply (IH _ _ H).
      destruct (add_to_parser_actions _ _ _ _ _ _ Hadd) as [[_ ->] | (a' & -> & _)];
        [exact Hin | apply in_or_app; left; exact Hin].
    + rewrite add_options_fold_err. discriminate.
Qed.

Lemma add_options_fold_registers (d : ConfigBackedArgumentParser.ConfigVals) opts p0 n0 parser ns0 o :
  fold_left
    (fun acc opt =>
       let* (parser, namespace) := acc in
       let* (parser', namespace') :=
         Option.add_to_parser opt parser
           (ConfigBackedArgumentParser.vals_get d opt) (Some namespace) in
       Ok (parser', match namespace' with Some ns => ns | None => namespace end))
    opts (Ok (p0, n0)) = Ok (parser, ns0) ->
  In o opts ->
  Option.args o ++ Option.options o <> [] ->
  exists a,
    In a (Argparse.actions parser) /\
    (Argparse.option_strings a = [] \/
     (Argparse.option_strings a = Option.args o ++ Option.options o /\
      Argparse.a_required a = Argparse.truthy (Option.required o))).
Proof.
  revert p0 n0. induction opts as [| o' opts IH]; intros p0 n0; cbn [fold_left bind].
  - intros _ [].
  - destruct (Option.add_to_parser o' p0 _ (Some n0)) as [[p1 n1] |] eqn:Hadd; cbn [bind].
    + intros H [-> | Hin] Hnames; [| exact (IH _ _ H Hin Hnames)].
      destruct (add_to_parser_actions _ _ _ _ _ _ Hadd) as [[He _] | (a & Hacts & Ha)];
        [contradiction |].
      exists a. split; [| exact Ha].
      apply (add_options_fold_keeps _ _ _ _ _ _ _ H). rewrite Hacts.
      apply in_or_app. right. left. reflexivity.
    + rewrite add_options_fold_err. discriminate.
Qed.

Lemma setup_registers call fs self b args parser ns0 o :
  ConfigBackedArgumentParser._setup_parser call fs self (Argparse.new b) args
  = Ok (parser, ns0) ->
  In o (ConfigBackedArgumentParser.options self) ->
  Option.args o ++ Option.options o <> [] ->
  exists a,
    In a (Argparse.actions parser) /\
    (Argparse.option_strings a = [] \/
     (Argparse.option_strings a = Option.args o ++ Option.options o /\
      Argparse.a_required a = Argparse.truthy (Option.required o))).
Proof.
  unfold ConfigBackedArgumentParser._setup_parser.
  destruct (ConfigBackedArgumentParser._add_config_arg self (Argparse.new b))
    as [p1 |]; [| discriminate].
  cbn [bind]. unfold ConfigBackedArgumentParser._add_options.
  destruct (ConfigBackedArgumentParser._read_config_args call fs self args)
    as [d |]; [| discriminate].
  cbn [bind]. apply add_options_fold_registers.
Qed.

Lemma no_positional_strings p a :
  Argparse.has_positional p = false -> In a (Argparse.actions p) ->
  Argparse.option_strings a <> [].
Proof.
  unfold Argparse.has_positional. intros H Hin He.
  assert (Ht : existsb (fun a => match Argparse.option_strings a with
                                 | [] => true | _ => false end) (Argparse.actions p) = true).
  { apply existsb_exists. exists a. rewrite He. tauto. }
  congruence.
Qed.

Lemma parse_known_args_no_positional call p args ns0 r :
  Argparse.parse_known_args call p args ns0 = Ok r -> Argparse.has_positional p = false.
Proof.
  unfold Argparse.parse_known_args.
  destruct (Argparse.has_positional p); [discriminate | reflexivity].
Qed.

Lemma required_option_named call fs self b o args parser ns0 ns rest :
  In o (ConfigBackedArgumentParser.options self) ->
  Option.required o = Some true ->
  Option.args o = [] ->
  Option.options o <> [] ->
  ConfigBackedArgumentParser._setup_parser call fs self (Argparse.new b) args
  = Ok (parser, ns0) ->
  Argparse.parse_known_args call parser args ns0 = Ok (ns, rest) ->
  exists tok, In tok args /\ In tok (Option.options o).
Proof.
  intros Hin Hreq Hargs Hopts Hsetup Hparse.
  destruct (setup_registers _ _ _ _ _ _ _ o Hsetup Hin) as (a & Ha & Hcase).
  { rewrite Hargs. exact Hopts. }
  pose proof (parse_known_args_no_positional _ _ _ _ _ Hparse) as Hpos.
  destruct Hcase as [He | [Hs Hr]].
  { destruct (no_positional_strings _ _ Hpos Ha He). }
  rewrite Hargs in Hs. cbn [app] in Hs. rewrite <- Hs.
  apply (required_action_named _ _ _ _ _ _ a Hparse Ha).
  rewrite Hr, Hreq. reflexivity.
Qed.

Lemma check_option_strings_dash names :
  Argparse.check_option_strings names = Ok tt ->
  Forall (fun s => PyStr.startswith s "-" = true) names.
Proof.
  induction names as [| s names IH]; cbn [Argparse.check_option_strings]; [constructor |].
  destruct (PyStr.is_empty s); [discriminate |].
  destruct (PyStr.startswith s "-") eqn:E; cbn [negb]; [| discriminate].
  intros H. constructor; [exact E | exact (IH H)].
Qed.

(** A required Option without a positional name that [add_to_parser]
    accepts has flag names that start with [-]. *)
Lemma required_flag_names_dash o p v ns r :
  Option.add_to_parser o p v ns = Ok r ->
  Option.required o = Some true ->
  Option.args o = [] ->
  Forall (fun s => PyStr.startswith s "-" = true) (Option.options o).
Proof.
  unfold Option.add_to_parser. intros H Hreq Hargs. rewrite Hargs in H. cbn [app] in H.
  destruct (Option.options o) as [| first others]; [constructor |].
  destruct (Argparse.add_argument p (first :: others) _) as [p1 |] eqn:Hadd;
    [clear H | discriminate].
  assert (Hpos : forall name kw,
            Argparse.k_required kw = Some true ->
            Argparse.add_positional p name kw <> Ok p1).
  { intros name kw Hk. unfold Argparse.add_positional. rewrite Hk.
    destruct (bool_decide (is_Some (Argparse.k_dest kw))); [discriminate |].
    rewrite bool_decide_eq_true_2 by eauto. discriminate. }
  assert (Hopt : forall kw,
            Argparse.add_optional p (first :: others) kw = Ok p1 ->
            Forall (fun s => PyStr.startswith s "-" = true) (first :: others)).
  { intros kw. unfold Argparse.add_optional.
    destruct (Argparse.check_option_strings (first :: others)) as [[] |] eqn:Hc;
      [| discriminate].
    intros _. exact (check_option_strings_dash _ Hc). }
  unfold Argparse.add_argument in Hadd.
  destruct first as [| c first']; [destruct others; [discriminate |] |];
    (destruct (_ && _);
     [exfalso; eapply Hpos; [| exact Hadd]; exact Hreq | exact (Hopt _ Hadd)]).
Qed.

Lemma add_options_fold_In (d : ConfigBackedArgumentParser.ConfigVals) opts p0 n0 parser ns0 o :
  fold_left
    (fun acc opt =>
       let* (parser, namespace) := acc in
       let* (parser', namespace') :=
         Option.add_to_parser opt parser
           (ConfigBackedArgumentParser.vals_get d opt) (Some namespace) in
       Ok (parser', match namespace' with Some ns => ns | None => namespace end))
    opts (Ok (p0, n0)) = Ok (parser, ns0) ->
  In o opts ->
  exists p n r,
    Option.add_to_parser o p (ConfigBackedArgumentParser.vals_get d o) (Some n) = Ok r.
Proof.
  revert p0 n0. induction opts as [| o' opts IH]; intros p0 n0; cbn [fold_left bind].
  - intros _ [].
  - destruct (Option.add_to_parser o' p0 _ (Some n0)) as [[p1 n1] |] eqn:Hadd; cbn [bind].
    + intros H [-> | Hin]; [eauto | exact (IH _ _ H Hin)].
    + rewrite add_options_fold_err. discriminate.
Qed.

Lemma setup_adds call fs self b args parser ns0 o :
  ConfigBackedArgumentParser._setup_parser call fs self (Argparse.new b) args
  = Ok (parser, ns0) ->
  In o (ConfigBackedArgumentParser.options self) ->
  exists p v n r, Option.add_to_parser o p v (Some n) = Ok r.
Proof.
  unfold ConfigBackedArgumentParser._setup_parser.
  destruct (ConfigBackedArgumentParser._add_config_arg self (Argparse.new b))
    as [p1 |]; [| discriminate].
  cbn [bind]. unfold ConfigBackedArgumentParser._add_options.
  destruct (ConfigBackedArgumentParser._read_config_args call fs self args)
    as [d |]; [| discriminate].
  cbn [bind]. intros H Hin.
  destruct (add_options_fold_In _ _ _ _ _ _ _ H Hin) as (p & n & r & Hr). eauto.
Qed.

(** The flag parser does not accept a command line without a string that
    starts with [-] when a required Option with flag names is declared. *)
Lemma required_option_not_named call fs self b o args parser ns0 :
  In o (ConfigBackedArgumentParser.options self) ->
  Option.required o = Some true ->
  Option.args o = [] ->
  Option.options o <> [] ->
  Forall (fun tok => PyStr.startswith tok "-" = false) args ->
  ConfigBackedArgumentParser._setup_parser call fs self (Argparse.new b) args
  = Ok (parser, ns0) ->
  returns (Argparse.parse_known_args call parser args ns0) = false.
Proof.
  intros Hin Hreq Hargs Hopts Hplain Hsetup.
  destruct (Argparse.parse_known_args call parser args ns0) as [[ns rest] |] eqn:Hparse;
    [exfalso | reflexivity].
  destruct (required_option_named _ _ _ _ _ _ _ _ _ _ Hin Hreq Hargs Hopts Hsetup Hparse)
    as (tok & Htok & Hname).
  destruct (setup_adds _ _ _ _ _ _ _ o Hsetup Hin) as (p & v & n & r & Hadd).
  pose proof (required_flag_names_dash _ _ _ _ _ Hadd Hreq Hargs) as Hdash.
  rewrite Forall_forall in Hplain, Hdash.
  specialize (Hplain tok (proj2 (list_elem_of_In _ _) Htok)).
  specialize (Hdash tok (proj2 (list_elem_of_In _ _) Hname)).
  congruence.
Qed.

(** X13: [required=True] is handed on to the flag parser, so a required
    Option with flag names only has to be given on the command line,
    whether or not the configuration has a value for it: on a command line
    none of whose strings starts with [-], none of the three entry points
    returns. *)
Theorem required_flag_must_be_given call fs self o args :
  In o (ConfigBackedArgumentParser.options self) ->
  Option.required o = Some true ->
  Option.args o = [] ->
  Option.options o <> [] ->
  Forall (fun tok => PyStr.startswith tok "-" = false) args ->
  returns (ConfigBackedArgumentParser.parse_args call fs self args) = false /\
  returns (ConfigBackedArgumentParser.parse_known_args call fs self args) = false /\
  returns (ConfigBackedArgumentParser.bootstrap_parse call fs self args) = false.
Proof.
  intros Hin Hreq Hargs Hopts Hplain.
  pose proof (fun b parser ns0 =>
                required_option_not_named call fs self b o args parser ns0
                  Hin Hreq Hargs Hopts Hplain) as Hno.
  unfold ConfigBackedArgumentParser.parse_args, ConfigBackedArgumentParser.parse_known_args,
    ConfigBackedArgumentParser.bootstrap_parse, Argparse.parse_args.
  split; [| split].
  - destruct (ConfigBackedArgumentParser._setup_parser _ _ _ (Argparse.new true) _)
      as [[parser ns0] |] eqn:Hs; [| reflexivity].
    cbn [bind]. specialize (Hno _ _ _ Hs).
    destruct (Argparse.parse_known_args call parser args ns0); [discriminate | reflexivity].
  - destruct (ConfigBackedArgumentParser._setup_parser _ _ _ (Argparse.new true) _)
      as [[parser ns0] |] eqn:Hs; [| reflexivity].
    cbn [bind]. specialize (Hno _ _ _ Hs).
    destruct (Argparse.parse_known_args call parser args ns0); [discriminate | reflexivity].
  - destruct (ConfigBackedArgumentParser._setup_parser _ _ _ (Argparse.new false) _)
      as [[parser ns0] |] eqn:Hs; [| reflexivity].
    cbn [bind]. specialize (Hno _ _ _ Hs).
    destruct (Argparse.parse_known_args call parser args ns0); [discriminate | reflexivity].
Qed.

Lemma required_flag_must_be_given_witness :
  returns (ConfigBackedArgumentParser.parse_args sample_call
             (fs2 "app.ini" (cfg1 "db" "ports" "22") "" ∅)
             (parser_of (Some "app.ini") opt_ports) ["80"; "443"]) = false.
Proof.
  apply (proj1 (required_flag_must_be_given sample_call
                  (fs2 "app.ini" (cfg1 "db" "ports" "22") "" ∅)
                  (parser_of (Some "app.ini") opt_ports) opt_ports ["80"; "443"]
                  ltac:(left; reflexivity) eq_refl eq_refl ltac:(discriminate)
                  ltac:(repeat constructor))).
Defined.

(** ** The configuration as the default of a flag *)

Lemma config_path_empty call self :
  config_flags_ok self ->
  ConfigBackedArgumentParser.config_path call self []
  = Ok (ConfigBackedArgumentParser.def_cfg_loc self).
Proof.
  intros Hcfg. unfold ConfigBackedArgumentParser.config_path.
  rewrite add_config_arg_ok by exact Hcfg. cbn [bind Argparse.new Argparse.actions app].
  unfold Argparse.parse_known_args, config_action. simpl.
  destruct (ConfigBackedArgumentParser.def_cfg_loc self); reflexivity.
Qed.

Lemma find_config_action self b rest f :
  config_flags_ok self ->
  config_flag self f ->
  Argparse.find_action
    (Argparse.actions (Argparse.new b) ++ config_action self :: rest) f 0
  = Some (length (Argparse.actions (Argparse.new b)), config_action self).
Proof.
  intros (_ & _ & Hns & Hnl) Hf.
  assert (Hin : In f (Argparse.option_strings (config_action self))).
  { destruct Hf as [-> | ->]; simpl; tauto. }
  destruct b; cbn [Argparse.new Argparse.actions app length].
  - rewrite find_action_skip; [apply find_action_here, Hin |].
    destruct Hf as [-> | ->]; assumption.
  - apply find_action_here, Hin.
Qed.

Lemma store_config_path call self path ns :
  Argparse.store call (config_action self) [path] ns
  = Ok (Argparse.setattr ns "config" (Val (VStr path))).
Proof. reflexivity. Qed.

Lemma config_path_given call self f path :
  config_flags_ok self ->
  config_flag self f ->
  PyStr.startswith path "-" = false ->
  ConfigBackedArgumentParser.config_path call self [f; path] = Ok (Some path).
Proof.
  intros Hcfg Hf Hpath. unfold ConfigBackedArgumentParser.config_path.
  rewrite add_config_arg_ok by exact Hcfg. cbn [bind].
  set (p := Argparse.mkParser (Argparse.actions (Argparse.new false) ++ [config_action self])).
  assert (Hfind : Argparse.find_action (Argparse.actions p) f 0
                  = Some (0, config_action self)).
  { exact (find_config_action self false [] f Hcfg Hf). }
  unfold Argparse.parse_known_args.
  assert (Hcls : forallb (Argparse.classified p) [f; path] = true).
  { cbn [forallb]. rewrite andb_true_r. apply andb_true_iff. split.
    - apply classified_registered. destruct Hf as [-> | ->]; simpl; tauto.
    - unfold Argparse.classified, Argparse.plain. rewrite Hpath. reflexivity. }
  change (Argparse.has_positional p) with false. rewrite Hcls. cbn [orb negb].
  assert (Hseed : Argparse.seed_defaults (Argparse.actions p) []
                  = Ok [("config", Argparse.a_default (config_action self))]).
  { unfold config_action. simpl.
    destruct (ConfigBackedArgumentParser.def_cfg_loc self); reflexivity. }
  rewrite Hseed. cbn [bind].
  rewrite (scan_flag_values call p f [path] 0 (config_action self) _ Hfind eq_refl).
  - rewrite store_config_path.
    cbn [bind Argparse.s_seen Argparse.s_ns Argparse.s_extras Argparse.setattr].
    rewrite String.eqb_refl. reflexivity.
  - repeat constructor. exact Hpath.
  - intros n Hn. simpl in Hn. assert (n = 0) by lia. subst. reflexivity.
Qed.

Lemma config_path_no_value call self f :
  config_flags_ok self ->
  config_flag self f ->
  ConfigBackedArgumentParser.config_path call self [f] = Err (SystemExit 2).
Proof.
  intros Hcfg Hf. unfold ConfigBackedArgumentParser.config_path.
  rewrite add_config_arg_ok by exact Hcfg. cbn [bind].
  set (p := Argparse.mkParser (Argparse.actions (Argparse.new false) ++ [config_action self])).
  assert (Hfind : Argparse.find_action (Argparse.actions p) f 0
                  = Some (0, config_action self)).
  { exact (find_config_action self false [] f Hcfg Hf). }
  unfold Argparse.parse_known_args.
  assert (Hcls : forallb (Argparse.classified p) [f] = true).
  { cbn [forallb]. rewrite andb_true_r.
    apply classified_registered. destruct Hf as [-> | ->]; simpl; tauto. }
  change (Argparse.has_positional p) with false. rewrite Hcls. cbn [orb negb].
  assert (Hseed : Argparse.seed_defaults (Argparse.actions p) []
                  = Ok [("config", Argparse.a_default (config_action self))]).
  { unfold config_action. simpl.
    destruct (ConfigBackedArgumentParser.def_cfg_loc self); reflexivity. }
  rewrite Hseed. cbn [bind].
  rewrite (scan_flag_values call p f [] 0 (config_action self) _ Hfind eq_refl).
  - reflexivity.
  - constructor.
  - intros n Hn. simpl in Hn. lia.
Qed.

Lemma setup_single call fs self o d b args primary x :
  ConfigBackedArgumentParser.options self = [o] ->
  config_flags_ok self ->
  store_flag_option self o ->
  Option.options o <> [] ->
  Argparse.check_nargs (Option.nargs o) = Ok tt ->
  option_dest o = Ok d ->
  ConfigBackedArgumentParser.config_path call self args = Ok primary ->
  Option.from_config call o
    (ConfigBackedArgumentParser.load_config fs primary
       (ConfigBackedArgumentParser.additional_configs self)) = Ok x ->
  ConfigBackedArgumentParser._setup_parser call fs self (Argparse.new b) args
  = Ok (Argparse.mkParser
          (Argparse.actions (Argparse.new b) ++ [config_action self; flag_action o d x]),
        []).
Proof.
  intros Hopts Hcfg (Hargs & Hflags & Hact & Hconst & Htype) Hne Hnargs Hdest Hpath Hx.
  unfold ConfigBackedArgumentParser._setup_parser.
  rewrite add_config_arg_ok by exact Hcfg. cbn [bind].
  unfold ConfigBackedArgumentParser._add_options,
    ConfigBackedArgumentParser._read_config_args.
  rewrite Hpath. cbn [bind]. rewrite Hopts. cbn [fold_left bind].
  rewrite Hx.
  cbn [bind ConfigBackedArgumentParser.vals_set ConfigBackedArgumentParser.vals_get].
  rewrite __eq___refl.
  unfold Option.add_to_parser. rewrite Hargs. cbn [app].
  destruct (Option.options o) as [| f0 rest] eqn:Hnames; [congruence |].
  rewrite (add_argument_store_flag _ _ _ d).
  - cbn [bind Argparse.actions Argparse.k_default Argparse.k_choices
         Argparse.k_required Argparse.k_nargs Argparse.k_type].
    unfold flag_action. rewrite Hnames, <- app_assoc.
    unfold Argparse.default_of. cbn [Argparse.k_default app].
    destruct x as [[| z | s | l] | m]; reflexivity.
  - discriminate.
  - eapply Forall_impl; [exact Hflags |]. intros s [H _]. exact H.
  - eapply Forall_impl; [exact Hflags |]. intros s [_ H] Hreg. apply H.
    unfold Argparse.registered_strings in Hreg. cbn [Argparse.actions] in Hreg.
    rewrite flat_map_app in Hreg. apply in_app_or in Hreg.
    destruct Hreg as [Hreg | Hreg].
    + destruct b; simpl in Hreg; [| destruct Hreg].
      simpl. tauto.
    + simpl in Hreg. simpl. tauto.
  - exact Hact.
  - exact Hnargs.
  - cbn [Argparse.k_const]. rewrite Hconst. reflexivity.
  - cbn [Argparse.k_type]. unfold Argparse.check_type.
    destruct (Option.type o) as [[g | y] |] eqn:E; [reflexivity | | reflexivity].
    destruct (Htype y eq_refl).
  - unfold option_dest in Hdest. rewrite Hnames in Hdest. exact Hdest.
Qed.

Lemma single_has_no_positional self o d b x :
  Option.options o <> [] ->
  Argparse.has_positional
    (Argparse.mkParser
       (Argparse.actions (Argparse.new b) ++ [config_action self; flag_action o d x]))
  = false.
Proof.
  intros Hne. unfold Argparse.has_positional. cbn [Argparse.actions].
  rewrite existsb_app. unfold flag_action.
  destruct (Option.options o) eqn:E; [congruence |]. destruct b; reflexivity.
Qed.

Lemma seed_single self o d b x :
  d <> "config" ->
  seeded_as_is o x ->
  Argparse.seed_defaults
    (Argparse.actions (Argparse.new b) ++ [config_action self; flag_action o d x]) []
  = Ok [("config", Argparse.a_default (config_action self)); (d, x)].
Proof.
  intros Hd Hx.
  assert (H : Argparse.seed_defaults [config_action self; flag_action o d x] []
              = Ok [("config", Argparse.a_default (config_action self)); (d, x)]).
  { unfold config_action, flag_action.
    cbn [Argparse.seed_defaults Argparse.a_dest Argparse.a_default Argparse.a_type
         Argparse.hasattr Argparse.getattr Argparse.setattr].
    assert (Hne : String.eqb "config" d = false).
    { apply String.eqb_neq. congruence. }
    assert (Hhas : forall y, Argparse.hasattr [("config", y)] d = false).
    { intros y. unfold Argparse.hasattr. cbn [Argparse.getattr]. rewrite Hne. reflexivity. }
    destruct (ConfigBackedArgumentParser.def_cfg_loc self) as [loc |];
      cbn [Argparse.hasattr Argparse.getattr Argparse.setattr]; rewrite ?Hhas, ?Hne;
      destruct x as [[| z | s | l] | m]; rewrite ?Hhas; try reflexivity;
      simpl in Hx; rewrite Hx; reflexivity. }
  destruct b; cbn [Argparse.new Argparse.actions app]; [rewrite seed_help |]; exact H.
Qed.

Lemma check_required_single self o d b x seen :
  (forall i, In i seen -> i = length (Argparse.actions (Argparse.new b))) ->
  Argparse.check_required
    (Argparse.actions (Argparse.new b) ++ [config_action self; flag_action o d x]) 0 seen
  = if Argparse.truthy (Option.required o) then Err (SystemExit 2) else Ok tt.
Proof.
  intros Hseen.
  assert (Hnot : bool_decide (S (length (Argparse.actions (Argparse.new b))) ∈ seen) = false).
  { apply bool_decide_eq_false. intros Hin. apply list_elem_of_In in Hin.
    specialize (Hseen _ Hin). lia. }
  destruct b; cbn [Argparse.new Argparse.actions app length] in *;
    cbn [Argparse.check_required Argparse.a_required Argparse.help_action
         config_action flag_action andb];
    rewrite Hnot; destruct (Argparse.truthy (Option.required o)); reflexivity.
Qed.

Lemma parse_single_empty call self o d b x :
  Option.options o <> [] ->
  d <> "config" ->
  seeded_as_is o x ->
  Argparse.parse_known_args call
    (Argparse.mkParser
       (Argparse.actions (Argparse.new b) ++ [config_action self; flag_action o d x]))
    [] []
  = if Argparse.truthy (Option.required o) then Err (SystemExit 2)
    else Ok ([("config", Argparse.a_default (config_action self)); (d, x)], []).
Proof.
  intros Hne Hd Hx. unfold Argparse.parse_known_args.
  rewrite (single_has_no_positional self o d b x Hne). cbn [forallb orb negb Argparse.actions].
  rewrite (seed_single self o d b x Hd Hx).
  cbn [bind Argparse.scan Argparse.close Argparse.s_pending Argparse.s_seen
       Argparse.s_ns Argparse.s_extras].
  rewrite check_required_single by (intros i []).
  destruct (Argparse.truthy (Option.required o)); reflexivity.
Qed.

Lemma parse_single_config call self o d b x f path :
  config_flags_ok self ->
  Option.options o <> [] ->
  d <> "config" ->
  seeded_as_is o x ->
  config_flag self f ->
  PyStr.startswith path "-" = false ->
  Argparse.parse_known_args call
    (Argparse.mkParser
       (Argparse.actions (Argparse.new b) ++ [config_action self; flag_action o d x]))
    [f; path] []
  = if Argparse.truthy (Option.required o) then Err (SystemExit 2)
    else Ok ([("config", Val (VStr path)); (d, x)], []).
Proof.
  intros Hcfg Hne Hd Hx Hf Hpath. unfold Argparse.parse_known_args.
  rewrite (single_has_no_positional self o d b x Hne).
  set (p := Argparse.mkParser
              (Argparse.actions (Argparse.new b) ++ [config_action self; flag_action o d x])).
  assert (Hcls : forallb (Argparse.classified p) [f; path] = true).
  { cbn [forallb]. rewrite andb_true_r. apply andb_true_iff. split.
    - apply classified_registered. unfold Argparse.registered_strings. subst p.
      cbn [Argparse.actions]. rewrite flat_map_app. apply in_or_app. right.
      destruct Hf as [-> | ->]; simpl; tauto.
    - unfold Argparse.classified, Argparse.plain. rewrite Hpath. reflexivity. }
  rewrite Hcls. cbn [orb negb].
  change (Argparse.actions p)
    with (Argparse.actions (Argparse.new b) ++ [config_action self; flag_action o d x]).
  rewrite (seed_single self o d b x Hd Hx). cbn [bind].
  rewrite (scan_flag_values call p f [path] _ (config_action self) _
             (find_config_action self b [flag_action o d x] f Hcfg Hf) eq_refl).
  - rewrite store_config_path.
    cbn [bind Argparse.s_seen Argparse.s_ns Argparse.s_extras Argparse.setattr].
    rewrite String.eqb_refl.
    rewrite check_required_single.
    + destruct (Argparse.truthy (Option.required o)); reflexivity.
    + intros i [<- | []]. reflexivity.
  - repeat constructor. exact Hpath.
  - intros n Hn. simpl in Hn. assert (n = 0) by lia. subst. reflexivity.
Qed.

Lemma truthy_required o :
  Argparse.truthy (Option.required o) = true <-> Option.required o = Some true.
Proof.
  unfold Argparse.truthy. destruct (Option.required o) as [[|] |]; split; congruence.
Qed.

Lemma check_config_and_value y d x :
  is_marker x = false ->
  ConfigBackedArgumentParser._check_required_config [("config", Val y); (d, x)] = Ok tt.
Proof. destruct x; [reflexivity | discriminate]. Qed.

Lemma config_default_value self :
  exists y, Argparse.a_default (config_action self) = Val y.
Proof.
  unfold config_action. cbn [Argparse.a_default].
  destruct (ConfigBackedArgumentParser.def_cfg_loc self); eauto.
Qed.

Lemma sample_store_flag_host loc : store_flag_option (parser_of loc opt_host) opt_host.
Proof.
  repeat split; try reflexivity; [| right; reflexivity | discriminate].
  repeat (constructor; [split; [reflexivity |] |]); [| constructor].
  simpl. intros [H | [H | [H | [H | []]]]]; discriminate H.
Qed.

Lemma sample_store_flag_port loc : store_flag_option (parser_of loc opt_port) opt_port.
Proof.
  repeat split; try reflexivity; [| right; reflexivity | discriminate].
  repeat (constructor; [split; [reflexivity |] |]); [| constructor].
  simpl. intros [H | [H | [H | [H | []]]]]; discriminate H.
Qed.

(** X14: the parser declares one Option that is a store flag, with a
    multiplicity that the flag parser takes and a destination other than
    [config], and the command line is empty.  [from_config] returns [x]
    for the Option, from the config file at the default location and the
    additional ones, and the flag parser seeds [x] as it is: the Option
    has no type, or [x] is not a string.  Then [x] is what the three entry
    points return at the destination of the flag, next to the path of the
    config file, unless the Option is required: then they exit with the
    usage error although the configuration has the value. *)
Theorem config_value_is_default call fs self o d x :
  ConfigBackedArgumentParser.options self = [o] ->
  config_flags_ok self ->
  store_flag_option self o ->
  Option.options o <> [] ->
  Argparse.check_nargs (Option.nargs o) = Ok tt ->
  option_dest o = Ok d ->
  d <> "config" ->
  Option.from_config call o
    (ConfigBackedArgumentParser.load_config fs
       (ConfigBackedArgumentParser.def_cfg_loc self)
       (ConfigBackedArgumentParser.additional_configs self)) = Ok x ->
  seeded_as_is o x ->
  (Option.required o = Some true ->
   ConfigBackedArgumentParser.parse_args call fs self [] = Err (SystemExit 2) /\
   ConfigBackedArgumentParser.parse_known_args call fs self [] = Err (SystemExit 2) /\
   ConfigBackedArgumentParser.bootstrap_parse call fs self [] = Err (SystemExit 2)) /\
  (Option.required o <> Some true ->
   ConfigBackedArgumentParser.parse_args call fs self []
   = Ok [("config", Argparse.a_default (config_action self)); (d, x)] /\
   ConfigBackedArgumentParser.parse_known_args call fs self []
   = Ok ([("config", Argparse.a_default (config_action self)); (d, x)], []) /\
   ConfigBackedArgumentParser.bootstrap_parse call fs self []
   = Ok [("config", Argparse.a_default (config_action self)); (d, x)]).
Proof.
  intros Hopts Hcfg Hflag Hne Hnargs Hdest Hd Hx Hseed.
  pose proof (fun b => setup_single call fs self o d b [] _ x Hopts Hcfg Hflag Hne Hnargs
                         Hdest (config_path_empty call self Hcfg) Hx) as Hsetup.
  pose proof (fun b => parse_single_empty call self o d b x Hne Hd Hseed) as Hparse.
  unfold ConfigBackedArgumentParser.parse_args, ConfigBackedArgumentParser.parse_known_args,
    ConfigBackedArgumentParser.bootstrap_parse, Argparse.parse_args.
  rewrite !Hsetup. cbn [bind]. rewrite !Hparse. split.
  - intros Hreq. rewrite (proj2 (truthy_required o) Hreq). repeat split.
  - intros Hreq.
    destruct (Argparse.truthy (Option.required o)) eqn:E.
    { apply truthy_required in E. contradiction. }
    cbn [bind].
    assert (Hval : is_marker x = false).
    { destruct x as [v | m]; [reflexivity |].
      destruct (Hreq (from_config_marker _ _ _ _ Hx)). }
    destruct (config_default_value self) as [y ->].
    rewrite (check_config_and_value y d x Hval). repeat split.
Qed.

Lemma config_value_is_default_witness :
  ConfigBackedArgumentParser.parse_args sample_call fs_two_hosts
    (parser_of (Some "app.ini") opt_host) []
  = Ok [("config", Val (VStr "app.ini")); ("host", Val (VStr "a.example"))] /\
  ConfigBackedArgumentParser.parse_args sample_call
    (fs2 "app.ini" (cfg1 "db" "port" "80") "" ∅)
    (parser_of (Some "app.ini") opt_port) []
  = Err (SystemExit 2).
Proof.
  split.
  - apply (proj2 (config_value_is_default sample_call fs_two_hosts
                    (parser_of (Some "app.ini") opt_host) opt_host "host"
                    (Val (VStr "a.example"))
                    eq_refl (sample_config_flags_ok _ _) (sample_store_flag_host _)
                    ltac:(discriminate) eq_refl eq_refl ltac:(discriminate)
                    ltac:(vm_compute; reflexivity) eq_refl)).
    discriminate.
  - apply (proj1 (config_value_is_default sample_call
                    (fs2 "app.ini" (cfg1 "db" "port" "80") "" ∅)
                    (parser_of (Some "app.ini") opt_port) opt_port "port"
                    (Val (VStr "80"))
                    eq_refl (sample_config_flags_ok _ _) (sample_store_flag_port _)
                    ltac:(discriminate) eq_refl eq_refl ltac:(discriminate)
                    ltac:(vm_compute; reflexivity) eq_refl)).
    reflexivity.
Defined.

(** X15: a path given with the short or the long flag for the config file
    replaces the default location.  The parser declares one Option that is
    a store flag and is not required, with a multiplicity that the flag
    parser takes and a destination other than [config]; [from_config]
    returns [x] for it from the file at that path and the additional ones,
    and the flag parser seeds [x] as it is: the Option has no type, or [x]
    is not a string.  Then the three entry points return the path at
    [config] and [x] at the destination of the flag.  The flag for the
    config file without a path makes the three entry points exit with the
    usage error, whatever the Options are. *)
Theorem config_flag_selects_file call fs self f path :
  config_flags_ok self ->
  config_flag self f ->
  PyStr.startswith path "-" = false ->
  (forall o d x,
     ConfigBackedArgumentParser.options self = [o] ->
     store_flag_option self o ->
     Option.options o <> [] ->
     Argparse.check_nargs (Option.nargs o) = Ok tt ->
     option_dest o = Ok d ->
     d <> "config" ->
     Option.required o <> Some true ->
     Option.from_config call o
       (ConfigBackedArgumentParser.load_config fs (Some path)
          (ConfigBackedArgumentParser.additional_configs self)) = Ok x ->
     seeded_as_is o x ->
     ConfigBackedArgumentParser.parse_args call fs self [f; path]
     = Ok [("config", Val (VStr path)); (d, x)] /\
     ConfigBackedArgumentParser.parse_known_args call fs self [f; path]
     = Ok ([("config", Val (VStr path)); (d, x)], []) /\
     ConfigBackedArgumentParser.bootstrap_parse call fs self [f; path]
     = Ok [("config", Val (VStr path)); (d, x)]) /\
  ConfigBackedArgumentParser.parse_args call fs self [f] = Err (SystemExit 2) /\
  ConfigBackedArgumentParser.parse_known_args call fs self [f] = Err (SystemExit 2) /\
  ConfigBackedArgumentParser.bootstrap_parse call fs self [f] = Err (SystemExit 2).
Proof.
  intros Hcfg Hf Hpath. split.
  - intros o d x Hopts Hflag Hne Hnargs Hdest Hd Hreq Hx Hseed.
    pose proof (fun b => setup_single call fs self o d b [f; path] _ x Hopts Hcfg Hflag Hne
                           Hnargs Hdest (config_path_given call self f path Hcfg Hf Hpath) Hx)
      as Hsetup.
    pose proof (fun b => parse_single_config call self o d b x f path Hcfg Hne Hd Hseed
                           Hf Hpath) as Hparse.
    unfold ConfigBackedArgumentParser.parse_args, ConfigBackedArgumentParser.parse_known_args,
      ConfigBackedArgumentParser.bootstrap_parse, Argparse.parse_args.
    rewrite !Hsetup. cbn [bind]. rewrite !Hparse.
    destruct (Argparse.truthy (Option.required o)) eqn:E.
    { apply truthy_required in E. contradiction. }
    cbn [bind].
    assert (Hval : is_marker x = false).
    { destruct x as [v | m]; [reflexivity |].
      destruct (Hreq (from_config_marker _ _ _ _ Hx)). }
    rewrite (check_config_and_value (VStr path) d x Hval). repeat split.
  - assert (Hsetup : forall b,
              ConfigBackedArgumentParser._setup_parser call fs self (Argparse.new b) [f]
              = Err (SystemExit 2)).
    { intros b. unfold ConfigBackedArgumentParser._setup_parser.
      rewrite add_config_arg_ok by exact Hcfg. cbn [bind].
      unfold ConfigBackedArgumentParser._add_options,
        ConfigBackedArgumentParser._read_config_args.
      rewrite (config_path_no_value call self f Hcfg Hf). reflexivity. }
    unfold ConfigBackedArgumentParser.parse_args, ConfigBackedArgumentParser.parse_known_args,
      ConfigBackedArgumentParser.bootstrap_parse.
    rewrite !Hsetup. repeat split.
Qed.

Lemma config_flag_selects_file_witness :
  ConfigBackedArgumentParser.parse_args sample_call fs_two_hosts
    (parser_of (Some "app.ini") opt_host) ["-c"; "other.ini"]
  = Ok [("config", Val (VStr "other.ini")); ("host", Val (VStr "b.example"))].
Proof.
  apply (proj1 (config_flag_selects_file sample_call fs_two_hosts
                  (parser_of (Some "app.ini") opt_host) "-c" "other.ini"
                  (sample_config_flags_ok _ _) ltac:(left; reflexivity) eq_refl)
           opt_host "host" (Val (VStr "b.example"))
           eq_refl (sample_store_flag_host _) ltac:(discriminate) eq_refl eq_refl
           ltac:(discriminate) ltac:(discriminate) ltac:(vm_compute; reflexivity) eq_refl).
Defined.

(** ** The parse without the help *)

Lemma registered_with_help acts :
  Argparse.registered_strings (Argparse.mkParser (Argparse.help_action :: acts))
  = "-h" :: "--help" :: Argparse.registered_strings (Argparse.mkParser acts).
Proof. reflexivity. Qed.

Lemma no_conflict_without_help acts names :
  existsb (fun s => bool_decide
                      (s ∈ Argparse.registered_strings
                             (Argparse.mkParser (Argparse.help_action :: acts)))) names = false ->
  existsb (fun s => bool_decide
                      (s ∈ Argparse.registered_strings (Argparse.mkParser acts))) names = false.
Proof.
  induction names as [| n names IH]; [reflexivity |]. cbn [existsb].
  intros H. apply orb_false_iff in H. destruct H as [H1 H2].
  rewrite (IH H2), orb_false_r.
  apply bool_decide_eq_false. apply bool_decide_eq_false in H1.
  intros Hin. apply H1. rewrite registered_with_help.
  apply elem_of_cons. right. apply elem_of_cons. right. exact Hin.
Qed.

Lemma add_argument_without_help acts names kw p' :
  Argparse.add_argument (Argparse.mkParser (Argparse.help_action :: acts)) names kw = Ok p' ->
  exists a,
    p' = Argparse.mkParser (Argparse.help_action :: acts ++ [a]) /\
    Argparse.add_argument (Argparse.mkParser acts) names kw
    = Ok (Argparse.mkParser (acts ++ [a])).
Proof.
  assert (Hpos : forall name,
            Argparse.add_positional
              (Argparse.mkParser (Argparse.help_action :: acts)) name kw = Ok p' ->
            exists a,
              p' = Argparse.mkParser (Argparse.help_action :: acts ++ [a]) /\
              Argparse.add_positional (Argparse.mkParser acts) name kw
              = Ok (Argparse.mkParser (acts ++ [a]))).
  { intros name. unfold Argparse.add_positional.
    destruct (bool_decide (is_Some (Argparse.k_dest kw))); [discriminate |].
    destruct (bool_decide (is_Some (Argparse.k_required kw))); [discriminate |].
    destruct (_ && _); [| discriminate].
    destruct (Argparse.check_type _); [| discriminate]. cbn [bind Argparse.actions].
    intros H. injection H as <-. eexists. split; reflexivity. }
  assert (Hopt : Argparse.add_optional
                   (Argparse.mkParser (Argparse.help_action :: acts)) names kw = Ok p' ->
            exists a,
              p' = Argparse.mkParser (Argparse.help_action :: acts ++ [a]) /\
              Argparse.add_optional (Argparse.mkParser acts) names kw
              = Ok (Argparse.mkParser (acts ++ [a]))).
  { unfold Argparse.add_optional.
    destruct (Argparse.check_option_strings _); [| discriminate]. cbn [bind].
    destruct (match Argparse.k_dest kw with Some _ => _ | None => _ end);
      [| discriminate].
    cbn [bind].
    destruct (Argparse.is_store _); [| discriminate].
    destruct (Argparse.check_nargs _); [| discriminate]. cbn [bind].
    destruct (bool_decide (is_Some (Argparse.k_const kw))); [discriminate |].
    destruct (Argparse.check_type _); [| discriminate]. cbn [bind].
    destruct (existsb _ names) eqn:Hc; [discriminate |].
    rewrite (no_conflict_without_help _ _ Hc). cbn [Argparse.actions].
    intros H. injection H as <-. eexists. split; reflexivity. }
  unfold Argparse.add_argument.
  destruct names as [| first others]; [discriminate |].
  destruct first as [| c first']; [destruct others; [discriminate |] |];
    (destruct (_ && _); [apply Hpos | apply Hopt]).
Qed.

Lemma add_to_parser_without_help o acts v ns p' ns' :
  Option.add_to_parser o (Argparse.mkParser (Argparse.help_action :: acts)) v ns
  = Ok (p', ns') ->
  exists acts',
    p' = Argparse.mkParser (Argparse.help_action :: acts') /\
    Option.add_to_parser o (Argparse.mkParser acts) v ns = Ok (Argparse.mkParser acts', ns').
Proof.
  unfold Option.add_to_parser.
  destruct (Option.args o ++ Option.options o) as [| n names].
  - intros H. injection H as <- <-. exists acts. split; reflexivity.
  - destruct (Argparse.add_argument _ (n :: names) _) as [p1 |] eqn:Hadd; [| discriminate].
    cbn [bind]. intros H. injection H as <- <-.
    destruct (add_argument_without_help _ _ _ _ Hadd) as (a & -> & Hadd').
    rewrite Hadd'. exists (acts ++ [a]). split; reflexivity.
Qed.

Lemma add_options_without_help (d : ConfigBackedArgumentParser.ConfigVals) opts acts n0 parser ns0 :
  fold_left
    (fun acc opt =>
       let* (parser, namespace) := acc in
       let* (parser', namespace') :=
         Option.add_to_parser opt parser
           (ConfigBackedArgumentParser.vals_get d opt) (Some namespace) in
       Ok (parser', match namespace' with Some ns => ns | None => namespace end))
    opts (Ok (Argparse.mkParser (Argparse.help_action :: acts), n0)) = Ok (parser, ns0) ->
  exists acts',
    parser = Argparse.mkParser (Argparse.help_action :: acts') /\
    fold_left
      (fun acc opt =>
         let* (parser, namespace) := acc in
         let* (parser', namespace') :=
           Option.add_to_parser opt parser
             (ConfigBackedArgumentParser.vals_get d opt) (Some namespace) in
         Ok (parser', match namespace' with Some ns => ns | None => namespace end))
      opts (Ok (Argparse.mkParser acts, n0)) = Ok (Argparse.mkParser acts', ns0).
Proof.
  revert acts n0. induction opts as [| o opts IH]; intros acts n0; cbn [fold_left bind].
  - intros H. injection H as <- <-. exists acts. split; reflexivity.
  - destruct (Option.add_to_parser o (Argparse.mkParser (Argparse.help_action :: acts)) _
                (Some n0)) as [[p1 n1] |] eqn:Hadd; cbn [bind].
    + destruct (add_to_parser_without_help _ _ _ _ _ _ Hadd) as (acts1 & -> & ->).
      cbn [bind]. apply IH.
    + rewrite add_options_fold_err. discriminate.
Qed.

Lemma setup_without_help call fs self args parser ns0 :
  ConfigBackedArgumentParser._setup_parser call fs self (Argparse.new true) args
  = Ok (parser, ns0) ->
  exists acts,
    parser = Argparse.mkParser (Argparse.help_action :: acts) /\
    ConfigBackedArgumentParser._setup_parser call fs self (Argparse.new false) args
    = Ok (Argparse.mkParser acts, ns0).
Proof.
  unfold ConfigBackedArgumentParser._setup_parser,
    ConfigBackedArgumentParser._add_config_arg.
  destruct (Argparse.add_argument (Argparse.new true) _ _) as [p1 |] eqn:Hadd;
    [| discriminate].
  destruct (add_argument_without_help [] _ _ _ Hadd) as (a & -> & Hadd').
  change (Argparse.new false) with (Argparse.mkParser []). rewrite Hadd'.
  cbn [bind]. unfold ConfigBackedArgumentParser._add_options.
  destruct (ConfigBackedArgumentParser._read_config_args call fs self args) as [d |];
    [| discriminate].
  cbn [bind]. apply add_options_without_help.
Qed.

Lemma find_action_shift acts tok j :
  Argparse.find_action acts tok (S j)
  = match Argparse.find_action acts tok j with
    | Some (i, a) => Some (S i, a)
    | None => None
    end.
Proof.
  revert j. induction acts as [| a acts IH]; intros j; cbn [Argparse.find_action];
    [reflexivity |].
  destruct (bool_decide _); [reflexivity | apply IH].
Qed.

Lemma find_action_with_help acts tok :
  ~ In tok ["-h"; "--help"] ->
  Argparse.find_action (Argparse.help_action :: acts) tok 0
  = match Argparse.find_action acts tok 0 with
    | Some (i, a) => Some (S i, a)
    | None => None
    end.
Proof.
  intros H. rewrite find_action_skip by exact H. apply find_action_shift.
Qed.

Lemma unknown_flag_without_help acts tok :
  Argparse.unknown_flag (Argparse.mkParser (Argparse.help_action :: acts)) tok = true ->
  Argparse.unknown_flag (Argparse.mkParser acts) tok = true.
Proof.
  unfold Argparse.unknown_flag. rewrite registered_with_help. cbn [forallb].
  rewrite !andb_true_iff. tauto.
Qed.

Lemma fresh_help acts tok st :
  In tok ["-h"; "--help"] ->
  Argparse.fresh (Argparse.mkParser (Argparse.help_action :: acts)) tok st
  = Err (SystemExit 0).
Proof.
  intros H. unfold Argparse.fresh. cbn [Argparse.actions].
  rewrite find_action_here by exact H. reflexivity.
Qed.

Lemma step_no_help call acts tok st st' :
  Argparse.step call (Argparse.mkParser (Argparse.help_action :: acts)) tok st = Ok st' ->
  ~ In tok ["-h"; "--help"].
Proof.
  intros H Hin. unfold Argparse.step in H.
  assert (Hcf : (let* st2 := Argparse.close call st in
                 Argparse.fresh (Argparse.mkParser (Argparse.help_action :: acts)) tok st2)
                = Ok st' -> False).
  { destruct (Argparse.close call st) as [st2 |]; cbn [bind]; [| discriminate].
    rewrite (fresh_help acts tok st2 Hin). discriminate. }
  assert (Hplain : Argparse.plain tok = false).
  { destruct Hin as [<- | [<- | []]]; reflexivity. }
  destruct (Argparse.s_pending st) as [[a c] |].
  - destruct (Argparse.full a (length c)); [exact (Hcf H) |].
    rewrite Hplain in H. cbn [Argparse.actions] in H.
    rewrite find_action_here in H by exact Hin. exact (Hcf H).
  - rewrite (fresh_help acts tok st Hin) in H. discriminate.
Qed.

Lemma close_shifted call st1 st2 st1' :
  shifted st1 st2 ->
  Argparse.close call st1 = Ok st1' ->
  exists st2', Argparse.close call st2 = Ok st2' /\ shifted st1' st2'.
Proof.
  intros Hsh. pose proof Hsh as (Hns & Hseen & Hex & Hp).
  unfold Argparse.close. rewrite <- Hp, <- Hns.
  destruct (Argparse.s_pending st1) as [[a c] |].
  - destruct (Argparse.store call a c (Argparse.s_ns st1)) as [ns' |]; [| discriminate].
    cbn [bind]. intros H. injection H as <-. eexists. split; [reflexivity |].
    unfold shifted. cbn [Argparse.s_ns Argparse.s_seen Argparse.s_extras Argparse.s_pending].
    tauto.
  - intros H. injection H as <-. exists st2. split; [reflexivity | exact Hsh].
Qed.

Lemma fresh_shifted acts tok st1 st2 st1' :
  ~ In tok ["-h"; "--help"] ->
  shifted st1 st2 ->
  Argparse.fresh (Argparse.mkParser (Argparse.help_action :: acts)) tok st1 = Ok st1' ->
  exists st2',
    Argparse.fresh (Argparse.mkParser acts) tok st2 = Ok st2' /\ shifted st1' st2'.
Proof.
  intros Hnh (Hns & Hseen & Hex & Hp). unfold Argparse.fresh. cbn [Argparse.actions].
  rewrite (find_action_with_help acts tok Hnh).
  destruct (Argparse.find_action acts tok 0) as [[i a] |].
  - destruct (Argparse.a_kind a); [| discriminate].
    intros H. injection H as <-. eexists. split; [reflexivity |].
    repeat split; cbn [Argparse.s_ns Argparse.s_seen Argparse.s_extras Argparse.s_pending];
      try congruence.
    rewrite Hseen, map_app. reflexivity.
  - destruct (Argparse.plain tok) eqn:Hplain; cbn [orb].
    + intros H. injection H as <-. eexists. split; [reflexivity |].
      repeat split; cbn [Argparse.s_ns Argparse.s_seen Argparse.s_extras Argparse.s_pending];
        congruence.
    + destruct (Argparse.unknown_flag (Argparse.mkParser (Argparse.help_action :: acts)) tok)
        eqn:Hunk; [| discriminate].
      rewrite (unknown_flag_without_help _ _ Hunk).
      intros H. injection H as <-. eexists. split; [reflexivity |].
      repeat split; cbn [Argparse.s_ns Argparse.s_seen Argparse.s_extras Argparse.s_pending];
        congruence.
Qed.

Lemma step_shifted call acts tok st1 st2 st1' :
  shifted st1 st2 ->
  Argparse.step call (Argparse.mkParser (Argparse.help_action :: acts)) tok st1 = Ok st1' ->
  exists st2',
    Argparse.step call (Argparse.mkParser acts) tok st2 = Ok st2' /\ shifted st1' st2'.
Proof.
  intros Hsh H. pose proof (step_no_help _ _ _ _ _ H) as Hnh.
  assert (Hcf : (let* st := Argparse.close call st1 in
                 Argparse.fresh (Argparse.mkParser (Argparse.help_action :: acts)) tok st)
                = Ok st1' ->
                exists st2',
                  (let* st := Argparse.close call st2 in
                   Argparse.fresh (Argparse.mkParser acts) tok st) = Ok st2' /\
                  shifted st1' st2').
  { destruct (Argparse.close call st1) as [st1c |] eqn:Hc; [| discriminate]. cbn [bind].
    destruct (close_shifted _ _ _ _ Hsh Hc) as (st2c & -> & Hshc). cbn [bind].
    exact (fresh_shifted _ _ _ _ _ Hnh Hshc). }
  pose proof Hsh as (Hns & Hseen & Hex & Hp).
  unfold Argparse.step in *. rewrite <- Hp.
  destruct (Argparse.s_pending st1) as [[a c] |].
  - destruct (Argparse.full a (length c)); [exact (Hcf H) |].
    destruct (Argparse.plain tok).
    + injection H as <-. eexists. split; [reflexivity |].
      repeat split; cbn [Argparse.s_ns Argparse.s_seen Argparse.s_extras Argparse.s_pending];
        congruence.
    + cbn [Argparse.actions] in *. rewrite (find_action_with_help acts tok Hnh) in H.
      destruct (Argparse.find_action acts tok 0) as [[i a'] |]; [exact (Hcf H) | discriminate].
  - exact (fresh_shifted _ _ _ _ _ Hnh Hsh H).
Qed.

Lemma scan_shifted call acts args st1 st2 st1' :
  shifted st1 st2 ->
  Argparse.scan call (Argparse.mkParser (Argparse.help_action :: acts)) args st1 = Ok st1' ->
  Forall (fun tok => ~ In tok ["-h"; "--help"]) args /\
  exists st2',
    Argparse.scan call (Argparse.mkParser acts) args st2 = Ok st2' /\ shifted st1' st2'.
Proof.
  revert st1 st2. induction args as [| tok args IH]; intros st1 st2 Hsh;
    cbn [Argparse.scan].
  - intros H. split; [constructor | exact (close_shifted _ _ _ _ Hsh H)].
  - destruct (Argparse.step call _ tok st1) as [st1a |] eqn:Hs; [| discriminate].
    cbn [bind]. intros H.
    destruct (step_shifted _ _ _ _ _ _ Hsh Hs) as (st2a & -> & Hsha). cbn [bind].
    destruct (IH _ _ Hsha H) as [Hall Hex]. split; [| exact Hex].
    constructor; [exact (step_no_help _ _ _ _ _ Hs) | exact Hall].
Qed.

Lemma check_required_shift acts j seen :
  Argparse.check_required acts (S j) (map S seen) = Argparse.check_required acts j seen.
Proof.
  revert j. induction acts as [| a acts IH]; intros j; cbn [Argparse.check_required];
    [reflexivity |].
  assert (Hd : bool_decide (S j ∈ map S seen) = bool_decide (j ∈ seen)).
  { apply bool_decide_ext. rewrite !list_elem_of_In, in_map_iff. split.
    - intros (x & Hx & Hin). injection Hx as ->. exact Hin.
    - intros Hin. exists j. tauto. }
  rewrite Hd, IH. reflexivity.
Qed.

Lemma classified_without_help acts tok :
  ~ In tok ["-h"; "--help"] ->
  Argparse.classified (Argparse.mkParser (Argparse.help_action :: acts)) tok = true ->
  Argparse.classified (Argparse.mkParser acts) tok = true.
Proof.
  intros Hnh. unfold Argparse.classified. rewrite !orb_true_iff, !bool_decide_eq_true.
  intros [[H | H] | H].
  - tauto.
  - left. right. rewrite registered_with_help in H.
    apply elem_of_cons in H. destruct H as [-> | H]; [simpl in Hnh; tauto |].
    apply elem_of_cons in H. destruct H as [-> | H]; [simpl in Hnh; tauto | exact H].
  - right. exact (unknown_flag_without_help _ _ H).
Qed.

Lemma parse_known_args_without_help call acts args ns0 ns rest :
  Argparse.parse_known_args call (Argparse.mkParser (Argparse.help_action :: acts)) args ns0
  = Ok (ns, rest) ->
  Argparse.parse_known_args call (Argparse.mkParser acts) args ns0 = Ok (ns, rest).
Proof.
  unfold Argparse.parse_known_args.
  change (Argparse.has_positional (Argparse.mkParser (Argparse.help_action :: acts)))
    with (Argparse.has_positional (Argparse.mkParser acts)).
  destruct (Argparse.has_positional (Argparse.mkParser acts)); [discriminate |].
  cbn [orb].
  destruct (forallb (Argparse.classified (Argparse.mkParser (Argparse.help_action :: acts)))
              args) eqn:Hcls; [| discriminate].
  cbn [negb Argparse.actions]. rewrite seed_help.
  destruct (Argparse.seed_defaults acts ns0) as [ns1 |]; [| discriminate]. cbn [bind].
  destruct (Argparse.scan call (Argparse.mkParser (Argparse.help_action :: acts)) args _)
    as [st1 |] eqn:Hscan; [| discriminate].
  cbn [bind].
  destruct (scan_shifted call acts args _ (Argparse.mkScan ns1 [] [] None) _
              ltac:(repeat split) Hscan) as [Hnh (st2 & Hscan2 & Hns & Hseen & Hex & Hp)].
  assert (Hcls2 : forallb (Argparse.classified (Argparse.mkParser acts)) args = true).
  { rewrite forallb_forall in Hcls. apply forallb_forall. intros tok Hin.
    rewrite List.Forall_forall in Hnh.
    exact (classified_without_help _ _ (Hnh tok Hin) (Hcls tok Hin)). }
  rewrite Hcls2. cbn [negb]. rewrite Hscan2. cbn [bind].
  cbn [Argparse.check_required Argparse.a_required Argparse.help_action andb].
  rewrite Hseen, check_required_shift, Hns, Hex. tauto.
Qed.

Lemma known_args_then_bootstrap call fs self args ns rest :
  ConfigBackedArgumentParser.parse_known_args call fs self args = Ok (ns, rest) ->
  ConfigBackedArgumentParser.bootstrap_parse call fs self args = Ok ns.
Proof.
  unfold ConfigBackedArgumentParser.parse_known_args,
    ConfigBackedArgumentParser.bootstrap_parse.
  destruct (ConfigBackedArgumentParser._setup_parser call fs self (Argparse.new true) args)
    as [[parser ns0] |] eqn:Hsetup; [| discriminate].
  cbn [bind].
  destruct (setup_without_help _ _ _ _ _ _ Hsetup) as (acts & -> & ->). cbn [bind].
  destruct (Argparse.parse_known_args call _ args ns0) as [[ns1 rest1] |] eqn:Hparse;
    [| discriminate].
  cbn [bind].
  rewrite (parse_known_args_without_help _ _ _ _ _ _ Hparse). cbn [bind].
  destruct (ConfigBackedArgumentParser._check_required_config ns1) as [[] |];
    [| discriminate].
  cbn [bind]. intros H. injection H as <- <-. reflexivity.
Qed.

Lemma parse_args_then_known_args call fs self args ns :
  ConfigBackedArgumentParser.parse_args call fs self args = Ok ns ->
  ConfigBackedArgumentParser.parse_known_args call fs self args = Ok (ns, []).
Proof.
  unfold ConfigBackedArgumentParser.parse_args, ConfigBackedArgumentParser.parse_known_args.
  destruct (ConfigBackedArgumentParser._setup_parser call fs self (Argparse.new true) args)
    as [[parser ns0] |]; [| discriminate].
  cbn [bind].
  destruct (Argparse.parse_args call parser args ns0) as [ns1 |] eqn:Hp; [| discriminate].
  rewrite (parse_args_known _ _ _ _ _ Hp). cbn [bind].
  destruct (ConfigBackedArgumentParser._check_required_config ns1) as [[] |];
    [| discriminate].
  cbn [bind]. intros H. injection H as <-. reflexivity.
Qed.

(** X16: whenever [parse_known_args] or [parse_args] returns a namespace,
    [bootstrap_parse] returns the same namespace on the same command
    line. *)
Theorem bootstrap_parse_agrees call fs self args ns :
  (forall rest,
     ConfigBackedArgumentParser.parse_known_args call fs self args = Ok (ns, rest) ->
     ConfigBackedArgumentParser.bootstrap_parse call fs self args = Ok ns) /\
  (ConfigBackedArgumentParser.parse_args call fs self args = Ok ns ->
   ConfigBackedArgumentParser.bootstrap_parse call fs self args = Ok ns).
Proof.
  split.
  - intros rest. apply known_args_then_bootstrap.
  - intros H. exact (known_args_then_bootstrap _ _ _ _ _ _
                       (parse_args_then_known_args _ _ _ _ _ H)).
Qed.

Lemma bootstrap_parse_agrees_witness :
  ConfigBackedArgumentParser.bootstrap_parse sample_call fs_two_hosts
    (parser_of (Some "app.ini") opt_host) ["--host"; "c.example"; "extra"]
  = Ok [("config", Val (VStr "app.ini")); ("host", Val (VStr "c.example"))].
Proof.
  apply (proj1 (bootstrap_parse_agrees sample_call fs_two_hosts
                  (parser_of (Some "app.ini") opt_host)
                  ["--host"; "c.example"; "extra"]
                  [("config", Val (VStr "app.ini")); ("host", Val (VStr "c.example"))])
           ["extra"]).
  vm_compute. reflexivity.
Defined.

(** ** Options without a commandline name, from the setup to the result *)

Lemma read_values_get call cfg opts d0 d o :
  fold_left
    (fun acc opt =>
       let* config_vals := acc in
       let* v := Option.from_config call opt cfg in
       Ok (ConfigBackedArgumentParser.vals_set config_vals opt v))
    opts (Ok d0) = Ok d ->
  (In o opts \/ Option.from_config call o cfg = Ok (ConfigBackedArgumentParser.vals_get d0 o)) ->
  Option.from_config call o cfg = Ok (ConfigBackedArgumentParser.vals_get d o).
Proof.
  revert d0. induction opts as [| o' opts IH]; intros d0; cbn [fold_left bind].
  - intros H. injection H as <-. intros [[] | H]. exact H.
  - destruct (Option.from_config call o' cfg) as [v |] eqn:Hv; cbn [bind].
    + intros H Hcase. apply (IH _ H).
      destruct (Option.__eq__ o o') eqn:E.
      * right. rewrite vals_get_set, E. apply __eq___true_iff in E. subst. exact Hv.
      * destruct Hcase as [[-> | Hin] | H0].
        -- rewrite __eq___refl in E. discriminate.
        -- left. exact Hin.
        -- right. rewrite vals_get_set, E. exact H0.
    + rewrite read_values_err. discriminate.
Qed.

Lemma add_to_parser_attr_frame o p v ns p' ns' attr :
  Option.add_to_parser o p v (Some ns) = Ok (p', ns') ->
  (config_only o -> ~ In attr (attributes o)) ->
  exists ns1, ns' = Some ns1 /\ Argparse.getattr ns1 attr = Argparse.getattr ns attr.
Proof.
  unfold Option.add_to_parser, config_only, attributes.
  destruct (Option.args o ++ Option.options o) as [| n names] eqn:Hnames.
  - apply app_eq_nil in Hnames. intros H Hnot. injection H as <- <-.
    eexists. split; [reflexivity |]. apply fold_setattr_frame. tauto.
  - destruct (Argparse.add_argument p (n :: names) _); [| discriminate].
    cbn [bind]. intros H _. injection H as <- <-. eauto.
Qed.

Lemma add_to_parser_attr_written o p v ns p' ns' attr :
  Option.add_to_parser o p v (Some ns) = Ok (p', ns') ->
  config_only o -> In attr (attributes o) ->
  exists ns1, ns' = Some ns1 /\ Argparse.getattr ns1 attr = Some v.
Proof.
  unfold Option.add_to_parser, config_only, attributes.
  intros H [Ha Ho] Hin. rewrite Ha, Ho in H. cbn [app] in H. injection H as <- <-.
  eexists. split; [reflexivity |].
  apply in_map_iff in Hin. destruct Hin as (path & <- & Hin).
  apply fold_setattr_written, Hin.
Qed.

Lemma config_only_attr_dec o attr :
  (config_only o /\ In attr (attributes o)) \/ (config_only o -> ~ In attr (attributes o)).
Proof.
  destruct (in_dec String.string_dec attr (attributes o)) as [Hin | Hnot]; [| tauto].
  unfold config_only.
  destruct (Option.args o); [| right; intros [H _]; discriminate H].
  destruct (Option.options o); [| right; intros [_ H]; discriminate H].
  left. tauto.
Qed.

Lemma add_options_fold_attr_keeps (d : ConfigBackedArgumentParser.ConfigVals) opts p0 n0 parser ns0 attr x :
  fold_left
    (fun acc opt =>
       let* (parser, namespace) := acc in
       let* (parser', namespace') :=
         Option.add_to_parser opt parser
           (ConfigBackedArgumentParser.vals_get d opt) (Some namespace) in
       Ok (parser', match namespace' with Some ns => ns | None => namespace end))
    opts (Ok (p0, n0)) = Ok (parser, ns0) ->
  Argparse.getattr n0 attr = Some x ->
  (forall o', In o' opts -> config_only o' -> In attr (attributes o') ->
              ConfigBackedArgumentParser.vals_get d o' = x) ->
  Argparse.getattr ns0 attr = Some x.
Proof.
  revert p0 n0. induction opts as [| o opts IH]; intros p0 n0; cbn [fold_left bind].
  - intros H. injection H as <- <-. tauto.
  - destruct (Option.add_to_parser o p0 _ (Some n0)) as [[p1 n1] |] eqn:Hadd; cbn [bind].
    + intros H Hn0 Hall. apply (IH _ _ H).
      * destruct (config_only_attr_dec o attr) as [[Hco Hin] | Hnot].
        -- destruct (add_to_parser_attr_written _ _ _ _ _ _ _ Hadd Hco Hin) as (ns1 & -> & ->).
           rewrite (Hall o (or_introl eq_refl) Hco Hin). reflexivity.
        -- destruct (add_to_parser_attr_frame _ _ _ _ _ _ attr Hadd) as (ns1 & -> & ->);
             [tauto | exact Hn0].
      * intros o' Hin. apply Hall. right. exact Hin.
    + rewrite add_options_fold_err. discriminate.
Qed.

Lemma add_options_fold_attr_written (d : ConfigBackedArgumentParser.ConfigVals) opts p0 n0 parser ns0 attr o :
  fold_left
    (fun acc opt =>
       let* (parser, namespace) := acc in
       let* (parser', namespace') :=
         Option.add_to_parser opt parser
           (ConfigBackedArgumentParser.vals_get d opt) (Some namespace) in
       Ok (parser', match namespace' with Some ns => ns | None => namespace end))
    opts (Ok (p0, n0)) = Ok (parser, ns0) ->
  In o opts -> config_only o -> In attr (attributes o) ->
  (forall o', In o' opts -> config_only o' -> In attr (attributes o') ->
              ConfigBackedArgumentParser.vals_get d o' = ConfigBackedArgumentParser.vals_get d o) ->
  Argparse.getattr ns0 attr = Some (ConfigBackedArgumentParser.vals_get d o).
Proof.
  revert p0 n0. induction opts as [| o1 opts IH]; intros p0 n0; cbn [fold_left bind].
  - intros _ [].
  - destruct (Option.add_to_parser o1 p0 _ (Some n0)) as [[p1 n1] |] eqn:Hadd; cbn [bind].
    + intros H Hin Hco Hattr Hall.
      destruct Hin as [-> | Hin].
      * destruct (add_to_parser_attr_written _ _ _ _ _ _ _ Hadd Hco Hattr) as (ns1 & -> & Hw).
        apply (add_options_fold_attr_keeps _ _ _ _ _ _ _ _ H Hw).
        intros o' Hin'. apply Hall. right. exact Hin'.
      * apply (IH _ _ H Hin Hco Hattr). intros o' Hin'. apply Hall. right. exact Hin'.
    + rewrite add_options_fold_err. discriminate.
Qed.

(** The namespace that the setup returns holds, for an Option without a
    commandline name, the value read from the configuration. *)
Lemma setup_config_only call fs self b args parser ns0 o attr :
  ConfigBackedArgumentParser._setup_parser call fs self (Argparse.new b) args
  = Ok (parser, ns0) ->
  In o (ConfigBackedArgumentParser.options self) ->
  config_only o ->
  In attr (attributes o) ->
  (forall o', In o' (ConfigBackedArgumentParser.options self) ->
              config_only o' -> In attr (attributes o') -> o' = o) ->
  exists primary v,
    ConfigBackedArgumentParser.config_path call self args = Ok primary /\
    Option.from_config call o
      (ConfigBackedArgumentParser.load_config fs primary
         (ConfigBackedArgumentParser.additional_configs self)) = Ok v /\
    Argparse.getattr ns0 attr = Some v.
Proof.
  unfold ConfigBackedArgumentParser._setup_parser.
  destruct (ConfigBackedArgumentParser._add_config_arg self (Argparse.new b))
    as [p1 |]; [| discriminate].
  cbn [bind]. unfold ConfigBackedArgumentParser._add_options.
  destruct (ConfigBackedArgumentParser._read_config_args call fs self args)
    as [d |] eqn:Hread; [| discriminate].
  cbn [bind]. intros H Hin Hco Hattr Huniq.
  unfold ConfigBackedArgumentParser._read_config_args in Hread.
  destruct (ConfigBackedArgumentParser.config_path call self args) as [primary |];
    [| discriminate].
  cbn [bind] in Hread.
  exists primary, (ConfigBackedArgumentParser.vals_get d o).
  split; [reflexivity | split].
  - exact (read_values_get _ _ _ _ _ _ Hread (or_introl Hin)).
  - apply (add_options_fold_attr_written _ _ _ _ _ _ _ _ H Hin Hco Hattr).
    intros o' Hin' Hco' Hattr'. rewrite (Huniq o' Hin' Hco' Hattr'). reflexivity.
Qed.

Lemma seed_defaults_frame acts ns ns1 attr :
  Argparse.seed_defaults acts ns = Ok ns1 ->
  Forall (fun a => Argparse.a_dest a <> Some attr) acts ->
  Argparse.getattr ns1 attr = Argparse.getattr ns attr.
Proof.
  intros H Hall. revert ns H.
  induction Hall as [| a acts Ha _ IH]; intros ns; cbn [Argparse.seed_defaults].
  - intros H. injection H as <-. reflexivity.
  - destruct (Argparse.a_dest a) as [dest |] eqn:Hd; [| apply IH].
    destruct (Argparse.hasattr ns dest); [apply IH |].
    assert (Hset : Argparse.seed_defaults acts
                     (Argparse.setattr ns dest (Argparse.a_default a)) = Ok ns1 ->
                   Argparse.getattr ns1 attr = Argparse.getattr ns attr).
    { intros H. rewrite (IH _ H). apply getattr_setattr_ne. congruence. }
    destruct (Argparse.a_default a) as [[| z | s | l] | msg]; try exact Hset.
    destruct (Argparse.a_type a); [discriminate | exact Hset].
Qed.

Lemma store_frame call a c ns ns' attr :
  Argparse.store call a c ns = Ok ns' ->
  Argparse.a_dest a <> Some attr ->
  Argparse.getattr ns' attr = Argparse.getattr ns attr.
Proof.
  unfold Argparse.store.
  destruct (negb _); [discriminate |].
  destruct (mapM _ c) as [values |]; [| discriminate]. cbn [bind].
  destruct (forM_ _ values); [| discriminate]. cbn [bind].
  destruct (Argparse.a_dest a) as [d |]; intros H Hne; injection H as <-.
  - apply getattr_setattr_ne. congruence.
  - reflexivity.
Qed.

Lemma find_action_member acts tok j i a :
  Argparse.find_action acts tok j = Some (i, a) -> In a acts.
Proof.
  intros H. destruct (find_action_nth _ _ _ _ _ H) as (i' & _ & Hn).
  exact (nth_error_In _ _ Hn).
Qed.

Lemma close_frame call p ns1 attr st st' :
  Forall (fun a => Argparse.a_dest a <> Some attr) (Argparse.actions p) ->
  Argparse.close call st = Ok st' ->
  scan_frame p ns1 attr st ->
  scan_frame p ns1 attr st' /\ Argparse.s_pending st' = None.
Proof.
  intros Hall. unfold Argparse.close. intros H Hinv. pose proof Hinv as [Hns Hp].
  destruct (Argparse.s_pending st) as [[a c] |] eqn:Hpend.
  - destruct (Argparse.store call a c (Argparse.s_ns st)) as [ns' |] eqn:Hst;
      [| discriminate].
    injection H as <-. split; [| reflexivity].
    split; cbn [Argparse.s_ns Argparse.s_pending]; [| discriminate].
    rewrite (store_frame _ _ _ _ _ attr Hst); [exact Hns |].
    rewrite List.Forall_forall in Hall. apply Hall. exact (Hp a c eq_refl).
  - injection H as <-. split; [exact Hinv | exact Hpend].
Qed.

Lemma fresh_frame p ns1 attr tok st st' :
  Argparse.fresh p tok st = Ok st' ->
  Argparse.s_pending st = None ->
  scan_frame p ns1 attr st ->
  scan_frame p ns1 attr st'.
Proof.
  unfold Argparse.fresh. intros H Hpend [Hns Hp].
  destruct (Argparse.find_action (Argparse.actions p) tok 0) as [[i a] |] eqn:Hf.
  - destruct (Argparse.a_kind a); [| discriminate]. injection H as <-.
    split; cbn [Argparse.s_ns Argparse.s_pending]; [exact Hns |].
    intros a' c' H'. injection H' as <- <-. exact (find_action_member _ _ _ _ _ Hf).
  - destruct (_ || _); [| discriminate]. injection H as <-.
    split; cbn [Argparse.s_ns Argparse.s_pending]; [exact Hns | discriminate].
Qed.

Lemma step_frame call p ns1 attr tok st st' :
  Forall (fun a => Argparse.a_dest a <> Some attr) (Argparse.actions p) ->
  Argparse.step call p tok st = Ok st' ->
  scan_frame p ns1 attr st ->
  scan_frame p ns1 attr st'.
Proof.
  intros Hall. unfold Argparse.step. intros H Hinv.
  assert (Hcf : (let* st2 := Argparse.close call st in Argparse.fresh p tok st2) = Ok st' ->
                scan_frame p ns1 attr st').
  { destruct (Argparse.close call st) as [st2 |] eqn:Hc; [| discriminate]. cbn [bind].
    destruct (close_frame _ _ _ _ _ _ Hall Hc Hinv) as [Hinv2 Hp2].
    intros H2. exact (fresh_frame _ _ _ _ _ _ H2 Hp2 Hinv2). }
  destruct (Argparse.s_pending st) as [[a c] |] eqn:Hpend.
  - destruct (Argparse.full a (length c)); [exact (Hcf H) |].
    destruct (Argparse.plain tok).
    + injection H as <-. destruct Hinv as [Hns Hp].
      split; cbn [Argparse.s_ns Argparse.s_pending]; [exact Hns |].
      intros a' c' H'. injection H' as <- _. exact (Hp a c Hpend).
    + destruct (Argparse.find_action _ tok 0); [exact (Hcf H) | discriminate].
  - exact (fresh_frame _ _ _ _ _ _ H Hpend Hinv).
Qed.

Lemma scan_frame_end call p ns1 attr args st st' :
  Forall (fun a => Argparse.a_dest a <> Some attr) (Argparse.actions p) ->
  Argparse.scan call p args st = Ok st' ->
  scan_frame p ns1 attr st ->
  scan_frame p ns1 attr st'.
Proof.
  intros Hall. revert st. induction args as [| tok args IH]; intros st; cbn [Argparse.scan].
  - intros H Hinv. exact (proj1 (close_frame _ _ _ _ _ _ Hall H Hinv)).
  - destruct (Argparse.step call p tok st) as [st1 |] eqn:Hs; [| discriminate].
    cbn [bind]. intros H Hinv. exact (IH _ H (step_frame _ _ _ _ _ _ _ Hall Hs Hinv)).
Qed.

Lemma parse_known_args_frame call p args ns0 ns rest attr :
  Argparse.parse_known_args call p args ns0 = Ok (ns, rest) ->
  Forall (fun a => Argparse.a_dest a <> Some attr) (Argparse.actions p) ->
  Argparse.getattr ns attr = Argparse.getattr ns0 attr.
Proof.
  unfold Argparse.parse_known_args. intros H Hall.
  destruct (_ || _); [discriminate |].
  destruct (Argparse.seed_defaults _ ns0) as [ns1 |] eqn:Hseed; [| discriminate].
  cbn [bind] in H.
  destruct (Argparse.scan call p args _) as [st |] eqn:Hscan; [| discriminate].
  cbn [bind] in H.
  destruct (Argparse.check_required _ 0 _) as [[] |]; [| discriminate].
  cbn [bind] in H. injection H as <- <-.
  destruct (scan_frame_end call p ns1 attr _ _ _ Hall Hscan) as [Hns _].
  { split; cbn [Argparse.s_ns Argparse.s_pending]; [reflexivity | discriminate]. }
  rewrite Hns. exact (seed_defaults_frame _ _ _ _ Hseed Hall).
Qed.

(** X17: for a declared Option without a commandline name, and an attribute
    name that is the one of a config path of this Option only: what
    [from_config] returns for the Option, from the configuration that the
    setup loads, is in the namespace that the setup returns, and it is
    still there after the flag parser has accepted the command line, when
    no registered argument has the attribute as its destination. *)
Theorem config_only_value_in_namespace call fs self b args parser ns0 ns rest o attr :
  ConfigBackedArgumentParser._setup_parser call fs self (Argparse.new b) args
  = Ok (parser, ns0) ->
  Argparse.parse_known_args call parser args ns0 = Ok (ns, rest) ->
  In o (ConfigBackedArgumentParser.options self) ->
  config_only o ->
  In attr (attributes o) ->
  (forall o', In o' (ConfigBackedArgumentParser.options self) ->
              config_only o' -> In attr (attributes o') -> o' = o) ->
  Forall (fun a => Argparse.a_dest a <> Some attr) (Argparse.actions parser) ->
  exists primary v,
    ConfigBackedArgumentParser.config_path call self args = Ok primary /\
    Option.from_config call o
      (ConfigBackedArgumentParser.load_config fs primary
         (ConfigBackedArgumentParser.additional_configs self)) = Ok v /\
    Argparse.getattr ns0 attr = Some v /\
    Argparse.getattr ns attr = Some v.
Proof.
  intros Hsetup Hparse Hin Hco Hattr Huniq Hdest.
  destruct (setup_config_only _ _ _ _ _ _ _ _ _ Hsetup Hin Hco Hattr Huniq)
    as (primary & v & Hpath & Hv & H0).
  exists primary, v. repeat split; try assumption.
  rewrite (parse_known_args_frame _ _ _ _ _ _ _ Hparse Hdest). exact H0.
Qed.

Lemma config_only_value_in_namespace_witness :
  exists primary v,
    ConfigBackedArgumentParser.config_path sample_call
      (parser_of (Some "app.ini") opt_db_host) ["extra"] = Ok primary /\
    Option.from_config sample_call opt_db_host
      (ConfigBackedArgumentParser.load_config fs_two_hosts primary []) = Ok v /\
    Argparse.getattr [("db_host", Val (VStr "a.example"))] "db_host" = Some v /\
    Argparse.getattr
      [("db_host", Val (VStr "a.example")); ("config", Val (VStr "app.ini"))] "db_host"
    = Some v.
Proof.
  apply (config_only_value_in_namespace sample_call fs_two_hosts
           (parser_of (Some "app.ini") opt_db_host) true ["extra"]
           (Argparse.mkParser
              [Argparse.help_action;
               Argparse.mkAction ["-c"; "--config"] (Some "config") None
                 (Val (VStr "app.ini")) None None false Argparse.StoreAction])
           [("db_host", Val (VStr "a.example"))]
           [("db_host", Val (VStr "a.example")); ("config", Val (VStr "app.ini"))]
           ["extra"] opt_db_host "db_host").
  - vm_compute. reflexivity.
  - vm_compute. reflexivity.
  - left. reflexivity.
  - split; reflexivity.
  - left. reflexivity.
  - intros o' [<- | []] _ _. reflexivity.
  - repeat constructor; discriminate.
Defined.

(** ** Declaring options *)

Lemma append_option_same self o :
  In o (ConfigBackedArgumentParser.options self) ->
  ConfigBackedArgumentParser.append_option self o = self.
Proof.
  intros H. unfold ConfigBackedArgumentParser.append_option.
  rewrite (proj2 (mem_true_iff o _) H). reflexivity.
Qed.

Lemma extend_options_same new self :
  (forall o, In o new -> In o (ConfigBackedArgumentParser.options self)) ->
  ConfigBackedArgumentParser.extend_options self new = self.
Proof.
  induction new as [| o new IH]; intros H; [reflexivity |].
  unfold ConfigBackedArgumentParser.extend_options in *. cbn [fold_left].
  rewrite append_option_same by (apply H; left; reflexivity).
  apply IH. intros o' Hin. apply H. right. exact Hin.
Qed.

Lemma extend_options_added new self :
  exists added,
    ConfigBackedArgumentParser.options (ConfigBackedArgumentParser.extend_options self new)
    = ConfigBackedArgumentParser.options self ++ added /\
    added `sublist_of` new /\
    NoDup added /\
    (forall o, In o added -> ~ In o (ConfigBackedArgumentParser.options self)).
Proof.
  revert self. induction new as [| o new IH]; intros self.
  - exists []. cbn. rewrite app_nil_r. repeat split.
    + constructor.
    + constructor.
    + intros o [].
  - unfold ConfigBackedArgumentParser.extend_options in *. cbn [fold_left].
    destruct (IH (ConfigBackedArgumentParser.append_option self o))
      as (added & Heq & Hsub & Hnd & Hnew).
    rewrite options_append_option in Heq, Hnew.
    destruct (Option.mem o (ConfigBackedArgumentParser.options self)) eqn:E.
    + exists added. repeat split; try assumption.
      apply sublist_cons. exact Hsub.
    + exists (o :: added). rewrite Heq, <- app_assoc. repeat split.
      * apply sublist_skip. exact Hsub.
      * apply NoDup_cons. split; [| exact Hnd].
        intros Hin. apply list_elem_of_In in Hin.
        apply (Hnew o Hin). apply in_or_app. right. left. reflexivity.
      * intros o' [<- | Hin].
        -- intros Hin. apply mem_true_iff in Hin. congruence.
        -- intros Hin'. apply (Hnew o' Hin). apply in_or_app. left. exact Hin'.
Qed.

(** X18: [extend_options] only appends: the options declared before stay
    where they are, and those added are Options of the given list that
    were not declared, in the order of the list and without repetition.
    Extending a second time by the same list changes nothing, and extending
    by two lists one after the other is extending by their
    concatenation. *)
Theorem extend_options_appends self new :
  (exists added,
     ConfigBackedArgumentParser.options (ConfigBackedArgumentParser.extend_options self new)
     = ConfigBackedArgumentParser.options self ++ added /\
     added `sublist_of` new /\
     NoDup added /\
     (forall o, In o added -> ~ In o (ConfigBackedArgumentParser.options self))) /\
  ConfigBackedArgumentParser.extend_options
    (ConfigBackedArgumentParser.extend_options self new) new
  = ConfigBackedArgumentParser.extend_options self new /\
  (forall new', ConfigBackedArgumentParser.extend_options self (new ++ new')
                = ConfigBackedArgumentParser.extend_options
                    (ConfigBackedArgumentParser.extend_options self new) new').
Proof.
  split; [apply extend_options_added | split].
  - apply extend_options_same. intros o Hin. apply extend_options_adds, Hin.
  - intros new'. unfold ConfigBackedArgumentParser.extend_options. apply fold_left_app.
Qed.

(** X19: what the flag parser makes of a positional name.  An Option whose
    only commandline name is positional cannot have [dest] ([ValueError])
    nor [required], be it true or false ([TypeError]); an Option with a
    positional name and another commandline name is refused as a flag
    whose first name does not start with [-] ([ValueError], or [IndexError]
    for the empty name). *)
Theorem positional_name_restrictions o p v ns name :
  PyStr.startswith name "-" = false ->
  (Option.args o = [name] -> Option.options o = [] -> name <> "" ->
   (forall d, Option.dest o = Some d ->
      Option.add_to_parser o p v ns
      = Err (ValueError "dest supplied twice for positional argument")) /\
   (forall r, Option.dest o = None -> Option.required o = Some r ->
      Option.add_to_parser o p v ns
      = Err (TypeError "'required' is an invalid argument for positionals"))) /\
  (forall rest, Option.args o = name :: rest ->
     rest ++ Option.options o <> [] ->
     (name = "" -> Option.add_to_parser o p v ns = Err IndexError) /\
     (name <> "" ->
      exists msg, Option.add_to_parser o p v ns = Err (ValueError msg))).
Proof.
  intros Hs. split.
  - intros Hargs Hopts Hne. unfold Option.add_to_parser. rewrite Hargs, Hopts. cbn [app].
    destruct name as [| c name']; [congruence |].
    unfold Argparse.add_argument. rewrite Hs. cbn [andb negb].
    unfold Argparse.add_positional. cbn [Argparse.k_dest Argparse.k_required].
    split.
    + intros d ->. reflexivity.
    + intros r -> ->. reflexivity.
  - intros rest Hargs Hmore. unfold Option.add_to_parser. rewrite Hargs.
    cbn [app]. unfold Argparse.add_argument.
    destruct (rest ++ Option.options o) as [| n others] eqn:Hrest; [congruence |].
    split.
    + intros ->. cbn [andb]. reflexivity.
    + intros Hne. destruct name as [| c name']; [congruence |].
      cbn [andb]. unfold Argparse.add_optional.
      cbn [Argparse.check_option_strings PyStr.is_empty]. rewrite Hs.
      cbn [negb bind]. eexists. reflexivity.
Qed.

Lemma positional_name_restrictions_witness :
  Option.add_to_parser opt_name_required (Argparse.new true) (Val VNone) None
  = Err (TypeError "'required' is an invalid argument for positionals").
Proof.
  apply (proj2 (proj1 (positional_name_restrictions opt_name_required (Argparse.new true)
                         (Val VNone) None "name" eq_refl)
                  eq_refl eq_refl ltac:(discriminate)) true); reflexivity.
Defined.
